(** * devicely.everion: the EverionReader, embedded in Rocq

    The development follows [src/devicely/everion.py].  Part I holds the
    model: the tag catalogs, raw tables, the sub-second reconstruction of
    time stamps, the pivot of one stream into a wide frame, the outer join
    of the three streams, persistence and the time shift.  Part II holds the
    lemmas and the theorems about it, Part III further properties of the
    reader.

    Conventions of the embedding.
    - A pandas [DataFrame] of raw records is a list of rows, in row order,
      plus a flag telling whether the [quality] column exists.
    - A [datetime64] time stamp is its number of nanoseconds since the
      epoch, an integer.  Integer columns hold mathematical integers.
    - A float cell is [option Qc]: [None] is NaN (pandas' missing value) and
      [Some q] is the number [q].  Arithmetic on floats is exact rational
      arithmetic: rounding of float64 and the nanosecond resolution of
      [pd.to_datetime] are outside the model.  The one irrational
      operation, the square root of [np.linalg.norm], is taken in [R].
    - A Python exception is a value of [exn]; code that may raise returns a
      [result]. *)

From Stdlib Require Import ZArith QArith Qcanon List String Ascii Bool Lia.
From Stdlib Require Import DecimalString.
From Stdlib Require Import Permutation Sorted Reals Qreals Lra.
Import ListNotations.

Open Scope Z_scope.

(* ================================================================= *)
(** * Part I: the model *)
(* ================================================================= *)

(** ** Exceptions and results *)

Inductive exn : Type :=
| OSError                                  (* path is not a directory *)
| KeyError_signal_tag (tag : Z)            (* __init__, line 82 *)
| KeyError_feature_tag (tag : Z)           (* __init__, line 86 *)
| KeyError_sensor_tag (tag : Z)            (* __init__, line 90 *)
| KeyError_tag_name (tag : Z)              (* _tag_name, line 202 *)
| KeyError_column (name : string)          (* sub_df[tag_name], line 181 *)
| ValueError_index_duplicates              (* set_index(verify_integrity=True) *)
| ValueError_columns_overlap               (* DataFrame.join on equal names *)
| ValueError_values_shape.                 (* astype(float) / two-column assignment *)

Inductive result (A : Type) : Type :=
| Ok (a : A)
| Raise (e : exn).

Arguments Ok {A} a.
Arguments Raise {A} e.

Definition bind {A B : Type} (m : result A) (k : A -> result B) : result B :=
  match m with
  | Ok a => k a
  | Raise e => Raise e
  end.

Definition map_result {A B : Type} (f : A -> B) (m : result A) : result B :=
  bind m (fun a => Ok (f a)).

Definition is_raise {A : Type} (m : result A) : bool :=
  match m with Ok _ => false | Raise _ => true end.

Declare Scope result_scope.
Delimit Scope result_scope with result.
Notation "x <- m ;; k" := (bind m (fun x => k))
  (at level 61, m at next level, right associativity) : result_scope.
Open Scope result_scope.

(** ** The tag catalogs (lines 12-74) *)

Module Catalog.

Open Scope string_scope.

Definition SIGNAL_TAGS : list (Z * string) :=
    [ (6, "heart_rate"); (7, "oxygen_saturation"); (8, "perfusion_index");
      (9, "motion_activity"); (10, "activity_classification");
      (11, "heart_rate_variability"); (12, "respiration_rate");
      (13, "energy"); (15, "ctemp"); (19, "temperature_local");
      (20, "barometer_pressure"); (21, "gsr_electrode");
      (22, "health_score"); (23, "relax_stress_intensity_score");
      (24, "sleep_quality_index_score"); (25, "training_effect_score");
      (26, "activity_score"); (66, "richness_score");
      (68, "heart_rate_quality"); (69, "oxygen_saturation_quality");
      (70, "blood_pulse_wave"); (71, "number_of_steps");
      (72, "activity_classification_quality"); (73, "energy_quality");
      (74, "heart_rate_variability_quality");
      (75, "respiration_rate_quality"); (76, "ctemp_quality");
      (118, "temperature_object"); (119, "temperature_barometer");
      (133, "perfusion_index_quality"); (134, "blood_pulse_wave_quality") ].

Definition SENSOR_TAGS : list (Z * string) :=
    [ (80, "led1_data"); (81, "led2_data"); (82, "led3_data");
      (83, "led4_data"); (84, "accx_data"); (85, "accy_data");
      (86, "accz_data"); (88, "led2_current"); (89, "led3_current");
      (90, "led4_current"); (91, "current_offset");
      (92, "compressed_data") ].

Definition FEATURE_TAGS : list (Z * string) :=
    [ (14, "inter_pulse_interval"); (17, "pis"); (18, "pid");
      (77, "inter_pulse_deviation"); (78, "pis_quality");
      (79, "pid_quality") ].

Definition default_signal_tags : list Z :=
    [6; 7; 11; 12; 15; 19; 20; 21; 118; 119].
Definition default_sensor_tags : list Z := [80; 81; 82; 83; 84; 85; 86].
Definition default_feature_tags : list Z := [14].

Definition ACC_NAMES : list string := ["accx_data"; "accy_data"; "accz_data"].

  (** [d[k]] of a dict: the value, or nothing when the key is absent
      (Python then raises [KeyError]). *)
Fixpoint get (d : list (Z * string)) (k : Z) : option string :=
    match d with
    | [] => None
    | (k', v) :: d' => if Z.eqb k k' then Some v else get d' k
    end.

  (** [k in d]. *)
Definition mem (k : Z) (d : list (Z * string)) : bool :=
    match get d k with Some _ => true | None => false end.

  (** [_tag_name] (lines 189-203): the three tables probed in turn. *)
Definition _tag_name (tag_number : Z) : result string :=
    match get SIGNAL_TAGS tag_number with
    | Some n => Ok n
    | None =>
      match get SENSOR_TAGS tag_number with
      | Some n => Ok n
      | None =>
        match get FEATURE_TAGS tag_number with
        | Some n => Ok n
        | None => Raise (KeyError_tag_name tag_number)
        end
      end
    end.

End Catalog.

(** ** Raw tables *)

(** One record of a raw stream.  The type of the time stamp is a
    parameter: nanoseconds ([Z]) in the tables the reader holds, seconds
    ([Qc]) inside [_convert_single_dataframe]. *)
Record Row (T : Type) : Type := mkRow {
  r_time : T;
  r_tag : Z;
  r_values : option Qc;
  r_quality : option Qc;
  r_count : Z;
  r_streamType : string
}.

Arguments mkRow {T} _ _ _ _ _ _.
Arguments r_time {T} _.
Arguments r_tag {T} _.
Arguments r_values {T} _.
Arguments r_quality {T} _.
Arguments r_count {T} _.
Arguments r_streamType {T} _.

Definition with_time {T U : Type} (f : T -> U) (r : Row T) : Row U :=
  mkRow (f (r_time r)) (r_tag r) (r_values r) (r_quality r) (r_count r)
        (r_streamType r).

(** A raw table: its rows and whether it has a [quality] column.  In a
    table without that column every [r_quality] is [None]. *)
Record DataFrame : Type := mkDataFrame {
  df_rows : list (Row Z);
  df_has_quality : bool
}.

Definition option_eq_dec {A : Type} (dec : forall x y : A, {x = y} + {x <> y})
  (x y : option A) : {x = y} + {x <> y}.
Proof. decide equality. Defined.

Definition Row_eq_dec {T : Type} (dec : forall x y : T, {x = y} + {x <> y})
  (x y : Row T) : {x = y} + {x <> y}.
Proof.
  decide equality; try apply string_dec; try apply Z.eq_dec;
    try (apply option_eq_dec; apply Qc_eq_dec).
Defined.

(** ** [drop_duplicates]: keep the first occurrence of every row *)

Section DropDuplicates.
Context {A : Type} (dec : forall x y : A, {x = y} + {x <> y}).

Fixpoint drop_dup_from (seen : list A) (l : list A) : list A :=
    match l with
    | [] => []
    | x :: l' =>
      if in_dec dec x seen then drop_dup_from seen l'
      else x :: drop_dup_from (x :: seen) l'
    end.

Definition drop_duplicates (l : list A) : list A := drop_dup_from [] l.
End DropDuplicates.

(** ** Sorted distinct keys, as [groupby] and [Index.union] produce them *)

Section Keys.
Context {K : Type} (cmp : K -> K -> comparison).

Fixpoint insert_key (x : K) (l : list K) : list K :=
    match l with
    | [] => [x]
    | y :: l' =>
      match cmp x y with
      | Lt => x :: l
      | Eq => l
      | Gt => y :: insert_key x l'
      end
    end.

Definition sorted_keys (l : list K) : list K :=
    fold_right insert_key [] l.

Definition key_eqb (x y : K) : bool :=
    match cmp x y with Eq => true | _ => false end.

Definition key_lt (x y : K) : Prop := cmp x y = Lt.
End Keys.

(** What is asked of a comparison: it decides a strict total order. *)
Record total_cmp {K : Type} (cmp : K -> K -> comparison) : Prop := {
  cmp_eq : forall x y, cmp x y = Eq <-> x = y;
  cmp_opp : forall x y, cmp y x = CompOpp (cmp x y);
  cmp_trans : forall x y z, cmp x y = Lt -> cmp y z = Lt -> cmp x z = Lt
}.

(** ** The timestamp reconstruction (lines 164-172) *)

Definition ns_per_s : positive := 1000000000.

(** [df['time'].astype(int) / 10**9]: nanoseconds to seconds. *)
Definition seconds (ns : Z) : Qc := Q2Qc (ns # ns_per_s).

Definition Qc_of_Z (z : Z) : Qc := Q2Qc (inject_Z z).

(** [s.min()] and [s.max()] of a column of integers (0 stands for the NaN
    of an empty column, which [groupby] never produces). *)
Definition s_min (s : list Z) : Z :=
  match s with [] => 0 | x :: s' => fold_right Z.min x s' end.
Definition s_max (s : list Z) : Z :=
  match s with [] => 0 | x :: s' => fold_right Z.max x s' end.

(** One row of [timestamps_min_and_count]. *)
Record TimeAgg : Type := mkTimeAgg {
  a_time : Qc;
  a_count_min : Z;
  a_count_range : Z
}.

(** [df.groupby('time').agg(count_min=min, count_range=max-min+1)
      .reset_index()]: one row per distinct time, keys ascending. *)
Definition group_counts (df : list (Row Qc)) (t : Qc) : list Z :=
  map r_count (filter (fun r => key_eqb Qccompare (r_time r) t) df).

Definition timestamps_min_and_count (df : list (Row Qc)) : list TimeAgg :=
  map (fun t =>
         let s := group_counts df t in
         mkTimeAgg t (s_min s) (s_max s - s_min s + 1))
      (sorted_keys Qccompare (map r_time df)).

(** [df.merge(timestamps_min_and_count, on='time')], an inner join that
    keeps the order of the left rows. *)
Definition merge_on_time (df : list (Row Qc)) (agg : list TimeAgg)
  : list (Row Qc * TimeAgg) :=
  flat_map (fun r =>
              map (fun a => (r, a))
                  (filter (fun a => key_eqb Qccompare (r_time r) (a_time a)) agg))
           df.

(** [df['time'] += (df['count'] - df['count_min']) / df['count_range']] *)
Definition spread (m : Row Qc * TimeAgg) : Row Qc :=
  let (r, a) := m in
  with_time (fun t => (t + Qc_of_Z (r_count r - a_count_min a)
                           / Qc_of_Z (a_count_range a))%Qc) r.

(** Lines 164-172 as one function on the rows. *)
Definition reconstruct (df : list (Row Z)) : list (Row Qc) :=
  let df1 := map (with_time seconds) df in
  map spread (merge_on_time df1 (timestamps_min_and_count df1)).

(** ** Wide frames *)

(** A frame indexed by time: the names of its float columns and, per row,
    the index value and one cell per column.  Until [set_index] the time is
    an ordinary column of the frame; it is kept apart from the float
    columns throughout, since it never holds a missing value. *)
Record WideFrame : Type := mkWideFrame {
  wf_columns : list string;
  wf_rows : list (Qc * list (option Qc))
}.

(** [pd.DataFrame()] *)
Definition empty_frame : WideFrame := mkWideFrame [] [].

Definition wf_index (f : WideFrame) : list Qc := map fst (wf_rows f).

Definition is_some {A : Type} (o : option A) : bool :=
  match o with Some _ => true | None => false end.

Fixpoint index_of (name : string) (cols : list string) : option nat :=
  match cols with
  | [] => None
  | c :: cols' =>
    if String.eqb name c then Some O
    else option_map S (index_of name cols')
  end.

Definition has_column (name : string) (f : WideFrame) : bool :=
  is_some (index_of name (wf_columns f)).

Definition cell (j : nat) (row : Qc * list (option Qc)) : option Qc :=
  nth j (snd row) None.

(** The cells of column [j], top to bottom. *)
Definition column_cells (j : nat) (f : WideFrame) : list (option Qc) :=
  map (cell j) (wf_rows f).

(** [f[name]]: the column, or nothing when there is none of that name. *)
Definition get_column (name : string) (f : WideFrame) : option (list (option Qc)) :=
  option_map (fun j => column_cells j f) (index_of name (wf_columns f)).

(** Keep the entries of [l] whose mask bit is set. *)
Fixpoint select {A : Type} (mask : list bool) (l : list A) : list A :=
  match mask, l with
  | b :: mask', x :: l' => if b then x :: select mask' l' else select mask' l'
  | _, _ => []
  end.

(** [dropna(axis=1)], with pandas' default [how='any']: a column goes as
    soon as one of its cells is missing. *)
Definition notna_mask (f : WideFrame) : list bool :=
  map (fun j => forallb is_some (column_cells j f))
      (seq 0 (List.length (wf_columns f))).

Definition dropna_columns (f : WideFrame) : WideFrame :=
  let mask := notna_mask f in
  mkWideFrame (select mask (wf_columns f))
              (map (fun row => (fst row, select mask (snd row))) (wf_rows f)).

(** [sub_df.empty]: some axis has length 0.  The time column is still a
    column when the test runs, so only the row axis can be empty. *)
Definition frame_empty (f : WideFrame) : bool :=
  match wf_rows f with [] => true | _ :: _ => false end.

Definition Qc_is_zero (q : Qc) : bool := key_eqb Qccompare q 0%Qc.

(** [(s == 0).all()]; a missing cell compares unequal to 0. *)
Definition all_zero (s : list (option Qc)) : bool :=
  forallb (fun c => match c with Some q => Qc_is_zero q | None => false end) s.

(** [Index.is_unique] *)
Fixpoint is_unique (idx : list Qc) : bool :=
  match idx with
  | [] => true
  | t :: idx' => negb (existsb (key_eqb Qccompare t) idx') && is_unique idx'
  end.

(** [set_index('time', verify_integrity=True)] *)
Definition set_index_verify (f : WideFrame) : result WideFrame :=
  if is_unique (wf_index f) then Ok f else Raise ValueError_index_duplicates.

(** [sort_index()]: a stable sort of the rows on the index. *)
Fixpoint insert_row (row : Qc * list (option Qc))
    (rows : list (Qc * list (option Qc))) : list (Qc * list (option Qc)) :=
  match rows with
  | [] => [row]
  | r :: rows' =>
    match Qccompare (fst row) (fst r) with
    | Lt | Eq => row :: rows
    | Gt => r :: insert_row row rows'
    end
  end.

Definition sort_index (f : WideFrame) : WideFrame :=
  mkWideFrame (wf_columns f) (fold_right insert_row [] (wf_rows f)).

(** The cells of the row labelled [t], all missing when there is none. *)
Definition cells_at (f : WideFrame) (t : Qc) : list (option Qc) :=
  match find (fun row => key_eqb Qccompare t (fst row)) (wf_rows f) with
  | Some row => snd row
  | None => repeat None (List.length (wf_columns f))
  end.

Definition columns_overlap (l r : WideFrame) : bool :=
  existsb (fun c => existsb (String.eqb c) (wf_columns l)) (wf_columns r).

(** [l.join(r, how='outer')] for frames whose index is unique (every frame
    joined by the reader is): the index is the sorted union, the columns
    are those of [l] then those of [r], and equal column names are
    refused. *)
Definition join_outer (l r : WideFrame) : result WideFrame :=
  if columns_overlap l r then Raise ValueError_columns_overlap
  else Ok (mkWideFrame
             (wf_columns l ++ wf_columns r)
             (map (fun t => (t, cells_at l t ++ cells_at r t))
                  (sorted_keys Qccompare (wf_index l ++ wf_index r)))).

(** ** The pivot of one stream (lines 157-187) *)

(** Lines 177-179: the rows of one tag, with [values] and [quality]
    renamed and the bookkeeping columns dropped. *)
Definition quality_name_of (tag : Z) (tag_name : string) : string :=
  if Z.eqb tag 14 then (tag_name ++ "_deviation")%string
  else (tag_name ++ "_quality")%string.

Definition sub_frame (has_quality : bool) (tag_name quality_name : string)
    (group_df : list (Row Qc)) : WideFrame :=
  if has_quality then
    mkWideFrame [tag_name; quality_name]
                (map (fun r => (r_time r, [r_values r; r_quality r])) group_df)
  else
    mkWideFrame [tag_name]
                (map (fun r => (r_time r, [r_values r])) group_df).

(** The body of the loop of line 175, for one tag and its rows. *)
Definition pivot_tag (has_quality : bool) (new_df : WideFrame)
    (tag : Z) (group_df : list (Row Qc)) : result WideFrame :=
  tag_name <- Catalog._tag_name tag ;;
  let quality_name := quality_name_of tag tag_name in
  let sub_df := dropna_columns (sub_frame has_quality tag_name quality_name group_df) in
  if frame_empty sub_df then Ok new_df
  else
    match get_column tag_name sub_df with
    | None => Raise (KeyError_column tag_name)
    | Some s =>
      if all_zero s then Ok new_df
      else
        sub_df <- set_index_verify sub_df ;;
        join_outer new_df (sort_index sub_df)
    end.

(** [df.groupby('tag')]: the tags in ascending order, each with its rows
    in table order. *)
Definition groupby_tag (df : list (Row Qc)) : list (Z * list (Row Qc)) :=
  map (fun tag => (tag, filter (fun r => Z.eqb (r_tag r) tag) df))
      (sorted_keys Z.compare (map r_tag df)).

Fixpoint pivot_groups (has_quality : bool) (new_df : WideFrame)
    (groups : list (Z * list (Row Qc))) : result WideFrame :=
  match groups with
  | [] => Ok new_df
  | (tag, group_df) :: groups' =>
    new_df' <- pivot_tag has_quality new_df tag group_df ;;
    pivot_groups has_quality new_df' groups'
  end.

(** [df[df['tag'].isin(selected_tags)]] *)
Definition isin (selected_tags : list Z) (r : Row Z) : bool :=
  existsb (Z.eqb (r_tag r)) selected_tags.

(** Lines 160-162: duplicate rows dropped, then the selected tags kept. *)
Definition selected_rows (rows : list (Row Z)) (selected_tags : option (list Z))
  : list (Row Z) :=
  let df := drop_duplicates (Row_eq_dec Z.eq_dec) rows in
  match selected_tags with
  | Some tags => filter (isin tags) df
  | None => df
  end.

(** Lines 160-172: the rows the loop works on. *)
Definition prepared_rows (rows : list (Row Z)) (selected_tags : option (list Z))
  : list (Row Qc) :=
  reconstruct (selected_rows rows selected_tags).

Definition _convert_single_dataframe (df : option DataFrame)
    (selected_tags : option (list Z)) : result WideFrame :=
  match df with
  | None => Ok empty_frame
  | Some df =>
    pivot_groups (df_has_quality df) empty_frame
                 (groupby_tag (prepared_rows (df_rows df) selected_tags))
  end.

(** ** The combined table (lines 142-155) *)

(** The reader's [data]: the joined frame and, when it was derived, the
    column [acc_mag].  That column alone holds square roots, so its cells
    are real numbers. *)
Record Data : Type := mkData {
  d_frame : WideFrame;
  d_acc_mag : option (list (option R))
}.

Definition Qc_to_R (q : Qc) : R := Q2R (this q).

(** [np.linalg.norm(x, axis=1)] on one row: the square root of the sum of
    the squares; a NaN cell makes the sum, and so the norm, NaN. *)
Fixpoint sum_of_squares (row : list (option Qc)) : option R :=
  match row with
  | [] => Some 0%R
  | c :: row' =>
    match c, sum_of_squares row' with
    | Some x, Some s => Some (Qc_to_R x * Qc_to_R x + s)%R
    | _, _ => None
    end
  end.

Definition row_norm (row : list (option Qc)) : option R :=
  option_map sqrt (sum_of_squares row).

(** [f[names]] row by row, for names that are all columns of [f]. *)
Definition pick (names : list string) (f : WideFrame)
    (row : Qc * list (option Qc)) : list (option Qc) :=
  map (fun name => match index_of name (wf_columns f) with
                   | Some j => cell j row
                   | None => None
                   end) names.

Definition acc_mag_column (f : WideFrame) : list (option R) :=
  map (fun row => row_norm (pick Catalog.ACC_NAMES f row)) (wf_rows f).

(** Lines 154-155.  The axis is written ['1']; [np.linalg.norm] takes
    [int(axis)], so the norm runs along each row. *)
Definition derive_acc_mag (f : WideFrame) : Data :=
  if forallb (fun x => has_column x f) Catalog.ACC_NAMES
  then mkData f (Some (acc_mag_column f))
  else mkData f None.

(** ** The reader object *)

Record EverionReader : Type := mkReader {
  selected_signal_tags : list Z;
  selected_feature_tags : list Z;
  selected_sensor_tags : list Z;
  filelist : list (string * string);
  aggregates : option DataFrame;
  analytics_events : option DataFrame;
  attributes_dailys : option DataFrame;
  everion_events : option DataFrame;
  features : option DataFrame;
  sensors : option DataFrame;
  signals : option DataFrame;
  data : option Data            (* [None]: the attribute is not set yet *)
}.

Definition set_data (d : Data) (self : EverionReader) : EverionReader :=
  mkReader (selected_signal_tags self) (selected_feature_tags self)
           (selected_sensor_tags self) (filelist self)
           (aggregates self) (analytics_events self) (attributes_dailys self)
           (everion_events self) (features self) (sensors self) (signals self)
           (Some d).

(** [for df in self._raw_dataframes(): df['time'] = f(df)]: the tables are
    the reader's own objects, so the assignment changes the reader. *)
Definition update_raw_dataframes (f : list (Row Z) -> list (Row Z))
    (self : EverionReader) : EverionReader :=
  let upd := option_map (fun df => mkDataFrame (f (df_rows df)) (df_has_quality df)) in
  mkReader (selected_signal_tags self) (selected_feature_tags self)
           (selected_sensor_tags self) (filelist self)
           (upd (aggregates self)) (upd (analytics_events self))
           (upd (attributes_dailys self)) (upd (everion_events self))
           (upd (features self)) (upd (sensors self)) (upd (signals self))
           (data self).


(** Methods that change the reader and may raise: the reader is threaded
    through, and what was assigned before an exception stays assigned. *)
Definition Method (A : Type) : Type := EverionReader -> EverionReader * result A.

Definition m_ret {A : Type} (a : A) : Method A := fun self => (self, Ok a).

Definition m_bind {A B : Type} (m : Method A) (k : A -> Method B) : Method B :=
  fun self =>
    match m self with
    | (self', Ok a) => k a self'
    | (self', Raise e) => (self', Raise e)
    end.

Definition m_lift {A : Type} (r : result A) : Method A := fun self => (self, r).

Definition m_read {A : Type} (f : EverionReader -> A) : Method A :=
  fun self => (self, Ok (f self)).

Definition m_modify (f : EverionReader -> EverionReader) : Method unit :=
  fun self => (f self, Ok tt).

Declare Scope method_scope.
Delimit Scope method_scope with method.
Notation "x <- m ;; k" := (m_bind m (fun x => k))
  (at level 61, m at next level, right associativity) : method_scope.
Notation "m ;;; k" := (m_bind m (fun _ => k))
  (at level 61, right associativity) : method_scope.

(** The loop of lines 151-152. *)
Fixpoint join_into_data (dataframes : list WideFrame) : Method unit :=
  match dataframes with
  | [] => m_ret tt
  | df :: rest =>
    (d <- m_read (fun self => match data self with
                              | Some d => d_frame d
                              | None => empty_frame
                              end) ;;
     j <- m_lift (join_outer d df) ;;
     m_modify (set_data (mkData j None)) ;;;
     join_into_data rest)%method
  end.

Definition _join : Method unit :=
  (sig <- (fun self => m_lift (_convert_single_dataframe
                                 (signals self) (Some (selected_signal_tags self))) self) ;;
   fea <- (fun self => m_lift (_convert_single_dataframe
                                 (features self) (Some (selected_feature_tags self))) self) ;;
   sen <- (fun self => m_lift (_convert_single_dataframe
                                 (sensors self) (Some (selected_sensor_tags self))) self) ;;
   m_modify (set_data (mkData empty_frame None)) ;;;
   join_into_data [sig; fea; sen] ;;;
   m_modify (fun self => match data self with
                         | Some d => set_data (derive_acc_mag (d_frame d)) self
                         | None => self
                         end))%method.

(** ** Timeshift (lines 234-248) *)

Inductive Shift : Type :=
| Random (u : Z)      (* 'random'; [u] is the duration drawn, in ns *)
| Timestamp (A : Z)   (* a [pd.Timestamp], in ns since the epoch *)
| Timedelta (D : Z).  (* a [pd.Timedelta], in ns *)

(** [Timedelta.round('s')]: to the nearest second, ties to even. *)
Definition round_s (u : Z) : Z :=
  let q := u / Zpos ns_per_s in
  let r := u mod Zpos ns_per_s in
  if 2 * r <? Zpos ns_per_s then q * Zpos ns_per_s
  else if Zpos ns_per_s <? 2 * r then (q + 1) * Zpos ns_per_s
  else if Z.even q then q * Zpos ns_per_s
  else (q + 1) * Zpos ns_per_s.

(** Lines 242-243: [df['time'] = shift + (df['time'] - df['time'].min())] *)
Definition shift_to_anchor (A : Z) (rows : list (Row Z)) : list (Row Z) :=
  let m := s_min (map r_time rows) in
  map (with_time (fun t => A + (t - m))) rows.

(** Line 247: [df['time'] += shift] *)
Definition shift_by (D : Z) (rows : list (Row Z)) : list (Row Z) :=
  map (with_time (fun t => t + D)) rows.

Definition timeshift_timedelta (D : Z) : Method unit :=
  (m_modify (update_raw_dataframes (shift_by D)) ;;; _join)%method.

Definition timeshift_timestamp (A : Z) : Method unit :=
  (m_modify (update_raw_dataframes (shift_to_anchor A)) ;;; _join)%method.

Definition timeshift (shift : Shift) : Method unit :=
  match shift with
  | Random u => timeshift_timedelta (- round_s u)
  | Timestamp A => timeshift_timestamp A
  | Timedelta D => timeshift_timedelta D
  end.

(** ** Files: what the CSV layer hands over and takes *)

(** A cell of the [values] column as [pd.read_csv] delivers it: a float, a
    missing value, or text such as ["61.0;87.0"]. *)
Inductive cell_t : Type :=
| C_float (v : Qc)
| C_nan
| C_str (s : string).

(** A record of a CSV file; [c_time] is in whole seconds. *)
Record CsvRow : Type := mkCsvRow {
  c_time : Z;
  c_tag : Z;
  c_values : cell_t;
  c_count : Z;
  c_streamType : string
}.

Definition cell_eq_dec (x y : cell_t) : {x = y} + {x <> y}.
Proof. decide equality; [apply Qc_eq_dec | apply string_dec]. Defined.

Definition CsvRow_eq_dec (x y : CsvRow) : {x = y} + {x <> y}.
Proof.
  decide equality; try apply string_dec; try apply Z.eq_dec; apply cell_eq_dec.
Defined.

(** What the reader does to the outside, in order. *)
Inductive event : Type :=
| Ev_isdir (path : string)
| Ev_glob (pattern : string)
| Ev_print (message : string)
| Ev_read_csv (filepath : string)
| Ev_exists (path : string)
| Ev_mkdir (path : string)
| Ev_to_csv (filepath : string) (table : list CsvRow).

(** The outside: the file system as the reader queries it. *)
Record World : Type := mkWorld {
  w_isdir : string -> bool;
  w_exists : string -> bool;
  w_glob : string -> list string;
  w_read_csv : string -> list CsvRow
}.

(** Code that talks to the outside and may raise: the events so far and
    the outcome. *)
Definition IO (A : Type) : Type := (list event * result A)%type.

Definition io_ret {A : Type} (a : A) : IO A := ([], Ok a).

Definition io_raise {A : Type} (e : exn) : IO A := ([], Raise e).

Definition io_emit (ev : event) : IO unit := ([ev], Ok tt).

Definition io_bind {A B : Type} (m : IO A) (k : A -> IO B) : IO B :=
  match m with
  | (tr, Ok a) => let (tr', r) := k a in (tr ++ tr', r)
  | (tr, Raise e) => (tr, Raise e)
  end.

Definition io_lift {A : Type} (r : result A) : IO A := ([], r).

Declare Scope io_scope.
Delimit Scope io_scope with io.
Notation "x <- m ;; k" := (io_bind m (fun x => k))
  (at level 61, m at next level, right associativity) : io_scope.
Notation "m ;;; k" := (io_bind m (fun _ => k))
  (at level 61, right associativity) : io_scope.

(** [os.path.join(path, name)] for a relative [name]. *)
Fixpoint ends_with_slash (path : string) : bool :=
  match path with
  | EmptyString => false
  | String c EmptyString => Ascii.eqb c "/"
  | String _ path' => ends_with_slash path'
  end.

Definition path_join (path name : string) : string :=
  match path with
  | EmptyString => name
  | _ => if ends_with_slash path then (path ++ name)%string
         else (path ++ "/" ++ name)%string
  end.

(** [s.split(sep)] *)
Fixpoint split_on (sep : ascii) (s : string) : list string :=
  match s with
  | EmptyString => [EmptyString]
  | String c s' =>
    if Ascii.eqb c sep then EmptyString :: split_on sep s'
    else match split_on sep s' with
         | [] => [String c EmptyString]
         | p :: ps => String c p :: ps
         end
  end.

(** [dict.get]-like lookup in [self.filelist]. *)
Fixpoint filelist_get (fl : list (string * string)) (k : string) : option string :=
  match fl with
  | [] => None
  | (k', v) :: fl' => if String.eqb k k' then Some v else filelist_get fl' k
  end.

(** [d[k] = v] *)
Fixpoint filelist_set (fl : list (string * string)) (k v : string)
  : list (string * string) :=
  match fl with
  | [] => [(k, v)]
  | (k', v') :: fl' =>
    if String.eqb k k' then (k, v) :: fl' else (k', v') :: filelist_set fl' k v
  end.

Definition file_patterns : list string :=
  ["aggregates"; "analytics_events"; "attributes_dailys"; "everion_events";
   "features"; "sensor_data"; "signals"]%string.

(** The three validation loops of [__init__] (lines 80-91). *)
Fixpoint check_tags (catalog : list (Z * string)) (err : Z -> exn)
    (tags : list Z) : result unit :=
  match tags with
  | [] => Ok tt
  | tag :: tags' =>
    if Catalog.mem tag catalog then check_tags catalog err tags'
    else Raise (err tag)
  end.

(** [_init_filelist] (lines 109-123) *)
Fixpoint _init_filelist_loop (w : World) (path : string) (patterns : list string)
    (fl : list (string * string)) : IO (list (string * string)) :=
  match patterns with
  | [] => io_ret fl
  | pattern :: patterns' =>
    let g := path_join path ("*" ++ pattern ++ "*")%string in
    (io_emit (Ev_glob g) ;;;
     match w_glob w g with
     | [] =>
       io_emit (Ev_print ("No file found in path " ++ path
                          ++ " that matches the pattern *" ++ pattern
                          ++ "*. Continuing with the remaining files.")%string) ;;;
       _init_filelist_loop w path patterns' fl
     | [filename] =>
       _init_filelist_loop w path patterns' (filelist_set fl pattern filename)
     | _ :: _ :: _ =>
       io_emit (Ev_print ("Multiple files found in " ++ path
                          ++ " that match the pattern *" ++ pattern
                          ++ "*. Continuing with the remaining files because this is ambiguous.")%string) ;;;
       _init_filelist_loop w path patterns' fl
     end)%io
  end.

Definition _init_filelist (w : World) (path : string) : IO (list (string * string)) :=
  _init_filelist_loop w path file_patterns [].

Section FloatText.

  (** Python's [float(s)] and [str(x)] on floats.  [float_of_string]
      answers [None] where Python raises [ValueError], [Some None] for a
      NaN and [Some (Some q)] for a number. *)
Variable float_of_string : string -> option (option Qc).
Variable string_of_float : option Qc -> string.

  (** [s.astype(float)] on the [values] column as read. *)
Definition cell_astype_float (c : cell_t) : option (option Qc) :=
    match c with
    | C_float v => Some (Some v)
    | C_nan => Some None
    | C_str s => float_of_string s
    end.

Fixpoint all_some {A : Type} (l : list (option A)) : option (list A) :=
    match l with
    | [] => Some []
    | None :: _ => None
    | Some x :: l' => option_map (cons x) (all_some l')
    end.

Definition column_astype_float (s : list cell_t) : option (list (option Qc)) :=
    all_some (map cell_astype_float s).

  (** [s.str.split(';', expand=True)]: the parts of every text cell; a
      cell that is no text gives a row of missing values ([None] here). *)
Definition cell_split (c : cell_t) : option (list string) :=
    match c with
    | C_str s => Some (split_on ";" s)
    | _ => None
    end.

Definition expand_width (parts : list (option (list string))) : nat :=
    fold_right (fun p n => match p with
                           | Some ps => Nat.max (List.length ps) n
                           | None => n
                           end) O parts.

  (** [.astype(float)] on one cell of the expanded frame; an absent part
      is [None] in pandas and becomes NaN. *)
Definition part_astype_float (parts : option (list string)) (j : nat)
    : option (option Qc) :=
    match parts with
    | None => Some None
    | Some ps => match nth_error ps j with
                 | Some s => float_of_string s
                 | None => Some None
                 end
    end.

Definition to_datetime_s (s : Z) : Z := s * Zpos ns_per_s.

Definition raw_row (c : CsvRow) (v q : option Qc) : Row Z :=
    mkRow (to_datetime_s (c_time c)) (c_tag c) v q (c_count c) (c_streamType c).

  (** Lines 135-140 on the table read and deduplicated. *)
Definition parse_values (df : list CsvRow) : result DataFrame :=
    match column_astype_float (map c_values df) with
    | Some vs =>
      Ok (mkDataFrame (map (fun cv => raw_row (fst cv) (snd cv) None) (combine df vs))
                      false)
    | None =>
      let parts := map (fun c => cell_split (c_values c)) df in
      match all_some (map (fun p => part_astype_float p 0) parts),
            all_some (map (fun p => part_astype_float p 1) parts) with
      | Some vs, Some qs =>
        if Nat.eqb (expand_width parts) 2 then
          Ok (mkDataFrame
                (map (fun cvq => raw_row (fst (fst cvq)) (snd (fst cvq)) (snd cvq))
                     (combine (combine df vs) qs))
                true)
        else Raise ValueError_values_shape
      | _, _ => Raise ValueError_values_shape
      end
    end.

  (** [pd.read_csv(...).drop_duplicates()] followed by lines 135-140. *)
Definition read_table (table : list CsvRow) : result DataFrame :=
    parse_values (drop_duplicates CsvRow_eq_dec table).

  (** [_read_file] (lines 125-140) *)
Definition _read_file (w : World) (fl : list (string * string))
      (filepattern : string) : IO (option DataFrame) :=
    match filelist_get fl filepattern with
    | None => io_ret None
    | Some filepath =>
      (io_emit (Ev_read_csv filepath) ;;;
       df <- io_lift (read_table (w_read_csv w filepath)) ;;
       io_ret (Some df))%io
    end.






  (** [__init__] (lines 76-107) *)
Definition __init__ (w : World) (path : string)
      (signal_tags sensor_tags feature_tags : list Z) : IO EverionReader :=
    (io_emit (Ev_isdir path) ;;;
     (if w_isdir w path then io_ret tt else io_raise OSError) ;;;
     io_lift (check_tags Catalog.SIGNAL_TAGS KeyError_signal_tag signal_tags) ;;;
     io_lift (check_tags Catalog.FEATURE_TAGS KeyError_feature_tag feature_tags) ;;;
     io_lift (check_tags Catalog.SENSOR_TAGS KeyError_sensor_tag sensor_tags) ;;;
     fl <- _init_filelist w path ;;
     agg <- _read_file w fl "aggregates" ;;
     ana <- _read_file w fl "analytics_events" ;;
     att <- _read_file w fl "attributes_dailys" ;;
     eve <- _read_file w fl "everion_events" ;;
     fea <- _read_file w fl "features" ;;
     sen <- _read_file w fl "sensor_data" ;;
     sig <- _read_file w fl "signals" ;;
     let self := mkReader signal_tags feature_tags sensor_tags fl
                          agg ana att eve fea sen sig None in
     let (self', r) := _join self in
     _ <- io_lift r ;;
     io_ret self')%io.

End FloatText.


(** ** Notions used in the statements of Part II *)

(** The counts of the rows of [df] whose time stamp is [ns]. *)
Definition counts_at (df : list (Row Z)) (ns : Z) : list Z :=
  map r_count (filter (fun r => Z.eqb (r_time r) ns) df).

(** A row together with the row [reconstruct] makes of it. *)
Definition reconstructed_pairs (df : list (Row Z)) : list (Row Z * Row Qc) :=
  combine df (reconstruct df).

(** The reconstruction seen from one row: its second plus the share of
    the second its count stands for among the rows of the same second
    (Part II proves [reconstruct df = map (spread_row df) df]). *)
Definition spread_row (df : list (Row Z)) (r : Row Z) : Row Qc :=
  let s := counts_at df (r_time r) in
  with_time (fun ns => (seconds ns + Qc_of_Z (r_count r - s_min s)
                         / Qc_of_Z (s_max s - s_min s + 1))%Qc) r.

(** No value, no quality of the rows is missing. *)
Definition complete_values (group_df : list (Row Qc)) : bool :=
  forallb (fun r => is_some (r_values r)) group_df.
Definition complete_quality (group_df : list (Row Qc)) : bool :=
  forallb (fun r => is_some (r_quality r)) group_df.


(** The seven raw tables of the reader, set or not, in the order of
    [_raw_dataframes]. *)
Definition raw_tables (self : EverionReader) : list (option DataFrame) :=
  [aggregates self; analytics_events self; attributes_dailys self;
   everion_events self; features self; sensors self; signals self].

(** A table with [f] applied to its rows. *)
Definition on_rows (f : list (Row Z) -> list (Row Z)) (df : DataFrame) : DataFrame :=
  mkDataFrame (f (df_rows df)) (df_has_quality df).

(** A frame with every index value moved by [d] seconds. *)
Definition shift_frame (d : Qc) (f : WideFrame) : WideFrame :=
  mkWideFrame (wf_columns f)
              (map (fun row => ((fst row + d)%Qc, snd row)) (wf_rows f)).


(** The loop of lines 151-152 on the frames alone: the frame [data] ends
    up with, and whether a join raised. *)
Fixpoint join_frames (acc : WideFrame) (dataframes : list WideFrame)
  : WideFrame * result unit :=
  match dataframes with
  | [] => (acc, Ok tt)
  | df :: rest =>
    match join_outer acc df with
    | Ok j => join_frames j rest
    | Raise e => (acc, Raise e)
    end
  end.

(** [__init__] from line 93 on: the part that follows the validation. *)
Definition init_after_validation (float_of_string : string -> option (option Qc))
    (w : World) (path : string)
    (signal_tags sensor_tags feature_tags : list Z) : IO EverionReader :=
  (fl <- _init_filelist w path ;;
   agg <- _read_file float_of_string w fl "aggregates" ;;
   ana <- _read_file float_of_string w fl "analytics_events" ;;
   att <- _read_file float_of_string w fl "attributes_dailys" ;;
   eve <- _read_file float_of_string w fl "everion_events" ;;
   fea <- _read_file float_of_string w fl "features" ;;
   sen <- _read_file float_of_string w fl "sensor_data" ;;
   sig <- _read_file float_of_string w fl "signals" ;;
   let self := mkReader signal_tags feature_tags sensor_tags fl
                        agg ana att eve fea sen sig None in
   let (self', r) := _join self in
   _ <- io_lift r ;;
   io_ret self')%io.

(** The Euclidean norm of three cells, in the words of the specification:
    the square root of the sum of the squares, missing as soon as one cell
    is. *)
Definition euclidean_norm (x y z : option Qc) : option R :=
  match x, y, z with
  | Some a, Some b, Some c =>
    Some (sqrt (Qc_to_R a * Qc_to_R a + Qc_to_R b * Qc_to_R b
                + Qc_to_R c * Qc_to_R c))
  | _, _, _ => None
  end.

(** Every tag handed to the constructor is in the catalog of its kind. *)
Definition all_tags_valid (signal_tags sensor_tags feature_tags : list Z) : bool :=
  forallb (fun t => Catalog.mem t Catalog.SIGNAL_TAGS) signal_tags
  && forallb (fun t => Catalog.mem t Catalog.FEATURE_TAGS) feature_tags
  && forallb (fun t => Catalog.mem t Catalog.SENSOR_TAGS) sensor_tags.







(** ** Sample data used by the examples of Part II *)

Definition qz (z : Z) : Qc := Qc_of_Z z.

(** Three records in second 100 with counts 5, 7 and 11, and one record
    in second 101. *)
Definition sample_second : list (Row Z) :=
  [ mkRow 100000000000 6 (Some (qz 60)) None 5 "s";
    mkRow 100000000000 6 (Some (qz 61)) None 7 "s";
    mkRow 100000000000 7 (Some (qz 98)) None 11 "s" ].

Definition sample_rows : list (Row Z) :=
  sample_second ++ [ mkRow 101000000000 6 (Some (qz 62)) None 12 "s" ].


(** Heart-rate records next to oxygen-saturation records that all read 0. *)
Definition zero_filled_table : DataFrame :=
  mkDataFrame
    [ mkRow 100000000000 6 (Some (qz 60)) None 1 "s";
      mkRow 100000000000 7 (Some (qz 0)) None 2 "s";
      mkRow 101000000000 7 (Some (qz 0)) None 3 "s";
      mkRow 101000000000 6 (Some (qz 61)) None 4 "s" ]
    false.

(** Two distinct heart-rate records of the same second with the same
    count, both reading 0, as ["0;1"] and ["0;2"] in a file give. *)
Definition zero_collision_table : DataFrame :=
  mkDataFrame
    [ mkRow 100000000000 6 (Some (qz 0)) (Some (qz 1)) 5 "s";
      mkRow 100000000000 6 (Some (qz 0)) (Some (qz 2)) 5 "s" ]
    true.

(** The same collision with readings that are not zero. *)
Definition collision_table : DataFrame :=
  mkDataFrame
    [ mkRow 100000000000 6 (Some (qz 60)) (Some (qz 1)) 5 "s";
      mkRow 100000000000 6 (Some (qz 60)) (Some (qz 2)) 5 "s" ]
    true.

(** Accelerometer records of two seconds: axes (3, 4, 0) and (1, 2, 2). *)
Definition accelerometer_table : DataFrame :=
  mkDataFrame
    [ mkRow 100000000000 84 (Some (qz 3)) None 1 "s";
      mkRow 100000000000 85 (Some (qz 4)) None 1 "s";
      mkRow 100000000000 86 (Some (qz 0)) None 1 "s";
      mkRow 101000000000 84 (Some (qz 1)) None 2 "s";
      mkRow 101000000000 85 (Some (qz 2)) None 2 "s";
      mkRow 101000000000 86 (Some (qz 2)) None 2 "s" ]
    false.

Definition accelerometer_reader : EverionReader :=
  mkReader Catalog.default_signal_tags Catalog.default_feature_tags
           Catalog.default_sensor_tags []
           None None None None None (Some accelerometer_table) None None.


Definition sample_float_of_string (s : string) : option (option Qc) :=
  if String.eqb s "nan" then Some None
  else
    match split_on "/" s with
    | [a; b] =>
      match NilZero.int_of_string a, NilZero.int_of_string b with
      | Some n, Some d =>
        match Z.of_int d with
        | Zpos p => Some (Some (Q2Qc (Z.of_int n # p)))
        | _ => None
        end
      | _, _ => None
      end
    | _ => None
    end.




(** Heart-rate records next to a record of tag 999, which no catalog
    knows. *)
Definition unknown_tag_table : DataFrame :=
  mkDataFrame
    [ mkRow 100000000000 6 (Some (qz 60)) None 1 "s";
      mkRow 100000000000 999 (Some (qz 1)) None 2 "s" ]
    false.

(** Heart-rate records of which one reading is missing. *)
Definition missing_value_table : DataFrame :=
  mkDataFrame
    [ mkRow 100000000000 6 (Some (qz 60)) None 1 "s";
      mkRow 101000000000 6 None None 2 "s" ]
    false.

(** ** Notions used in the statements of Part III *)

(** A frame as the reader builds them: the index ascends strictly, no
    column name occurs twice, and every row has one cell per column. *)
Definition frame_ok (f : WideFrame) : Prop :=
  StronglySorted Qclt (wf_index f) /\
  NoDup (wf_columns f) /\
  Forall (fun row => List.length (snd row) = List.length (wf_columns f))
         (wf_rows f).

(** The columns the loop of line 175 adds for one tag and its rows: none
    when the readings are all zero, else the value column and, when the
    table has a quality column of which no cell of the rows is missing, the
    quality column. *)
Definition tag_columns (has_quality : bool) (tag : Z) (group_df : list (Row Qc))
  : list string :=
  match Catalog._tag_name tag with
  | Ok tag_name =>
    if all_zero (map r_values group_df) then []
    else tag_name :: (if has_quality && complete_quality group_df
                      then [quality_name_of tag tag_name] else [])
  | Raise _ => []
  end.

(** [f.loc[t, name]]: nothing when [f] has no column [name]; the cell is
    missing when no row is labelled [t]. *)
Definition frame_cell (f : WideFrame) (t : Qc) (name : string)
  : option (option Qc) :=
  option_map (fun j => nth j (cells_at f t) None)
             (index_of name (wf_columns f)).

(** What the rows of one tag hold for the time [t]: the [field] of the row
    of that time, a missing value when there is none. *)
Definition reading_at (field : Row Qc -> option Qc) (group_df : list (Row Qc))
    (t : Qc) : option Qc :=
  match find (fun r => key_eqb Qccompare t (r_time r)) group_df with
  | Some r => field r
  | None => None
  end.

(** Heart-rate records with a quality next to records of tag 68, whose
    name is [heart_rate_quality]. *)
Definition clashing_names_table : DataFrame :=
  mkDataFrame
    [ mkRow 100000000000 6 (Some (qz 60)) (Some (qz 90)) 1 "s";
      mkRow 100000000000 68 (Some (qz 90)) (Some (qz 1)) 2 "s" ]
    true.

(** The column names a stream can bring into the combined table: the
    names of the tags of its catalog and of their quality columns. *)
Definition stream_names (catalog : list (Z * string)) : list string :=
  flat_map (fun kv => [snd kv; quality_name_of (fst kv) (snd kv)]) catalog.

(** The three pivots of [_join] (lines 143-148) in a row. *)
Definition pivots (self : EverionReader)
  : result (WideFrame * WideFrame * WideFrame) :=
  (sig <- _convert_single_dataframe
            (signals self) (Some (selected_signal_tags self)) ;;
   fea <- _convert_single_dataframe
            (features self) (Some (selected_feature_tags self)) ;;
   sen <- _convert_single_dataframe
            (sensors self) (Some (selected_sensor_tags self)) ;;
   Ok (sig, fea, sen))%result.

(** Lines 236-237: [pd.Timedelta('30 days').value] and
    [pd.Timedelta('730 days').value], in nanoseconds. *)
Definition one_month : Z := 30 * 86400 * Zpos ns_per_s.
Definition two_years : Z := 730 * 86400 * Zpos ns_per_s.

(** Line 114: the pattern handed to [glob.glob]. *)
Definition glob_pattern (path pattern : string) : string :=
  path_join path ("*" ++ pattern ++ "*")%string.

(** The patterns the reader handed to [glob.glob], in order. *)
Definition globs_of (tr : list event) : list string :=
  flat_map (fun ev => match ev with Ev_glob g => [g] | _ => [] end) tr.

(** What [_read_file] leaves in the reader for one pattern: nothing when
    the file list has no entry for it, else the table read from the file
    of the entry. *)
Definition loaded (float_of_string : string -> option (option Qc)) (w : World)
    (fl : list (string * string)) (pattern : string) (o : option DataFrame)
  : Prop :=
  match filelist_get fl pattern with
  | None => o = None
  | Some filepath =>
    exists df,
      read_table float_of_string (w_read_csv w filepath) = Ok df /\ o = Some df
  end.

(** A directory [rec] that holds one file, of signals: two heart-rate
    records. *)
Definition sample_world : World :=
  mkWorld (fun _ => true) (fun _ => false)
          (fun g => if String.eqb g "rec/*signals*"
                    then ["rec/signals.csv"%string] else [])
          (fun _ => [ mkCsvRow 100 6 (C_float (qz 60)) 1 "s";
                      mkCsvRow 101 6 (C_float (qz 61)) 2 "s" ]).

(** How a row of a loaded table stems from the record it was read from. *)
Definition row_read (float_of_string : string -> option (option Qc))
    (has_quality : bool) (c : CsvRow) (r : Row Z) : Prop :=
  r_time r = c_time c * Zpos ns_per_s /\
  r_tag r = c_tag c /\ r_count r = c_count c /\
  r_streamType r = c_streamType c /\
  if has_quality then
    part_astype_float float_of_string (cell_split (c_values c)) 0
    = Some (r_values r) /\
    part_astype_float float_of_string (cell_split (c_values c)) 1
    = Some (r_quality r)
  else
    cell_astype_float float_of_string (c_values c) = Some (r_values r) /\
    r_quality r = None.






(** A reader that holds signals only: the heart-rate and oxygen-saturation
    records of [zero_filled_table]. *)
Definition heart_rate_reader : EverionReader :=
  mkReader [6; 7] [] [] []
           None None None None None None (Some zero_filled_table) None.

(** The column names the rows of a tag can leave in the frame of a
    stream. *)
Definition names_of_tag (tag : Z) : list string :=
  match Catalog._tag_name tag with
  | Ok tag_name => [tag_name; quality_name_of tag tag_name]
  | Raise _ => []
  end.

(** No two different tags of the list can leave a column of the same
    name. *)
Definition clash_free (tags : list Z) : bool :=
  forallb (fun t1 =>
             forallb (fun t2 =>
                        Z.eqb t1 t2
                        || negb (existsb (fun c => existsb (String.eqb c)
                                                           (names_of_tag t2))
                                         (names_of_tag t1)))
                     tags)
          tags.

(** Inter-pulse intervals with their deviations, as ["800;12"] in a file
    gives. *)
Definition interval_table : DataFrame :=
  mkDataFrame
    [ mkRow 100000000000 14 (Some (qz 800)) (Some (qz 12)) 1 "f";
      mkRow 101000000000 14 (Some (qz 810)) (Some (qz 15)) 2 "f" ]
    true.

(** The exceptions a pivot, or the join of the frames, can raise. *)
Definition pivot_error (e : exn) : bool :=
  match e with
  | KeyError_tag_name _ | KeyError_column _
  | ValueError_index_duplicates | ValueError_columns_overlap => true
  | _ => false
  end.

(* ================================================================= *)
(** * Part II: lemmas and theorems *)
(* ================================================================= *)

(** ** Lists *)

Lemma filter_nil {A : Type} (f : A -> bool) (l : list A) :
  (forall x, In x l -> f x = false) -> filter f l = [].
Proof.
  induction l as [|y l IH]; simpl; intros H; [reflexivity|].
  rewrite (H y (or_introl eq_refl)). apply IH. intros x Hx. apply H. auto.
Qed.

(** ** Comparisons that decide a strict total order *)

Lemma Z_total_cmp : total_cmp Z.compare.
Proof.
  split.
  - intros x y. apply Z.compare_eq_iff.
  - intros x y. apply Z.compare_antisym.
  - intros x y z. rewrite !Z.compare_lt_iff. lia.
Qed.

Lemma Qc_total_cmp : total_cmp Qccompare.
Proof.
  split.
  - intros x y. symmetry. apply Qceq_alt.
  - intros x y. unfold Qccompare. rewrite (Qcompare_antisym (this x) (this y)).
    reflexivity.
  - intros x y z. rewrite <- !Qclt_alt. apply Qclt_trans.
Qed.

Section KeysFacts.
Context {K : Type} (cmp : K -> K -> comparison) (Hcmp : total_cmp cmp).

Local Abbreviation key_lt := (key_lt cmp).

Lemma key_eqb_eq x y : key_eqb cmp x y = true <-> x = y.
Proof.
    unfold key_eqb. rewrite <- (cmp_eq _ Hcmp).
    destruct (cmp x y); intuition congruence.
Qed.

Lemma key_eqb_refl x : key_eqb cmp x x = true.
  Proof. apply key_eqb_eq. reflexivity. Qed.

Lemma key_eqb_neq x y : key_eqb cmp x y = false <-> x <> y.
Proof.
    rewrite <- key_eqb_eq. destruct (key_eqb cmp x y); intuition congruence.
Qed.

Lemma key_lt_irrefl x : ~ key_lt x x.
Proof.
    unfold key_lt. intros H.
    assert (E : cmp x x = Eq) by (apply (cmp_eq _ Hcmp); reflexivity).
    congruence.
Qed.

Lemma cmp_gt_lt x y : cmp x y = Gt -> key_lt y x.
  Proof. unfold key_lt. intros H. rewrite (cmp_opp _ Hcmp), H. reflexivity. Qed.

Lemma In_insert_key x y l : In y (insert_key cmp x l) <-> y = x \/ In y l.
Proof.
    induction l as [|z l IH]; simpl.
    - intuition.
    - destruct (cmp x z) eqn:E; simpl.
      + apply (cmp_eq _ Hcmp) in E. subst z. intuition.
      + intuition.
      + rewrite IH. intuition.
Qed.

Lemma In_sorted_keys y l : In y (sorted_keys cmp l) <-> In y l.
Proof.
    induction l as [|x l IH]; simpl.
    - reflexivity.
    - rewrite In_insert_key, IH. intuition.
Qed.

Lemma insert_key_sorted x l :
    StronglySorted key_lt l -> StronglySorted key_lt (insert_key cmp x l).
Proof.
    induction 1 as [|z l Hs IH Hz]; simpl.
    - repeat constructor.
    - destruct (cmp x z) eqn:E.
      + constructor; assumption.
      + constructor; [constructor; assumption|].
        constructor; [exact E|].
        rewrite Forall_forall in *. intros y Hy.
        apply (cmp_trans _ Hcmp) with z; [exact E | exact (Hz y Hy)].
      + constructor; [exact IH|].
        rewrite Forall_forall in *. intros y Hy.
        apply In_insert_key in Hy. destruct Hy as [->|Hy]; auto.
        apply cmp_gt_lt; exact E.
Qed.

Lemma sorted_keys_sorted l : StronglySorted key_lt (sorted_keys cmp l).
Proof.
    induction l; simpl; [constructor | apply insert_key_sorted; assumption].
Qed.

Lemma sorted_NoDup l : StronglySorted key_lt l -> NoDup l.
Proof.
    induction 1 as [|z l Hs IH Hz]; constructor; auto.
    intros Hin. rewrite Forall_forall in Hz.
    exact (key_lt_irrefl z (Hz z Hin)).
Qed.

Lemma sorted_keys_NoDup l : NoDup (sorted_keys cmp l).
  Proof. apply sorted_NoDup, sorted_keys_sorted. Qed.

  (** A key occurs once among the sorted keys. *)
Lemma filter_NoDup_In (x : K) l :
    NoDup l -> In x l -> filter (key_eqb cmp x) l = [x].
Proof.
    induction 1 as [|z l Hz Hnd IH]; simpl; [tauto|].
    intros [->|Hin].
    - rewrite key_eqb_refl. f_equal.
      apply filter_nil. intros y Hy. apply key_eqb_neq.
      intros ->. contradiction.
    - assert (E : key_eqb cmp x z = false).
      { apply key_eqb_neq. intros ->. contradiction. }
      rewrite E. auto.
Qed.

Lemma insert_key_id x l :
    StronglySorted key_lt l -> In x l -> insert_key cmp x l = l.
Proof.
    induction 1 as [|z l Hs IH Hz]; simpl; [tauto|].
    intros [->|Hin].
    - rewrite (proj2 (cmp_eq _ Hcmp x x) eq_refl). reflexivity.
    - rewrite Forall_forall in Hz. pose proof (Hz x Hin) as Hlt.
      unfold key_lt in Hlt. rewrite (cmp_opp _ Hcmp), Hlt. simpl.
      rewrite IH; auto.
Qed.

End KeysFacts.



(** ** [drop_duplicates] *)

Section DropDuplicatesFacts.
Context {A : Type} (dec : forall x y : A, {x = y} + {x <> y}).

Lemma In_drop_dup_from seen l x :
    In x (drop_dup_from dec seen l) <-> In x l /\ ~ In x seen.
Proof.
    revert seen. induction l as [|y l IH]; intros seen; simpl.
    - tauto.
    - destruct (in_dec dec y seen) as [Hy|Hy].
      + rewrite IH. intuition (subst; tauto).
      + simpl. rewrite IH. simpl.
        destruct (dec y x) as [->|Hne]; intuition.
Qed.

Lemma In_drop_duplicates l x : In x (drop_duplicates dec l) <-> In x l.
  Proof. unfold drop_duplicates. rewrite In_drop_dup_from. simpl. tauto. Qed.

Lemma NoDup_drop_dup_from seen l : NoDup (drop_dup_from dec seen l).
Proof.
    revert seen. induction l as [|y l IH]; intros seen; simpl.
    - constructor.
    - destruct (in_dec dec y seen); [apply IH|].
      constructor; [|apply IH].
      rewrite In_drop_dup_from. simpl. tauto.
Qed.

Lemma NoDup_drop_duplicates l : NoDup (drop_duplicates dec l).
  Proof. apply NoDup_drop_dup_from. Qed.

Lemma drop_dup_from_NoDup seen l :
    NoDup l -> (forall x, In x l -> ~ In x seen) -> drop_dup_from dec seen l = l.
Proof.
    revert seen. induction l as [|y l IH]; intros seen Hnd Hs; simpl.
    - reflexivity.
    - inversion Hnd as [|? ? Hy Hnd']; subst.
      destruct (in_dec dec y seen) as [Hin|_].
      + exfalso. apply (Hs y); simpl; auto.
      + f_equal. apply IH; auto.
        intros x Hx [->|Hseen]; [contradiction|].
        apply (Hs x); simpl; auto.
Qed.

Lemma drop_duplicates_NoDup l : NoDup l -> drop_duplicates dec l = l.
  Proof. intros H. apply drop_dup_from_NoDup; simpl; auto. Qed.

Lemma drop_duplicates_idem l :
    drop_duplicates dec (drop_duplicates dec l) = drop_duplicates dec l.
  Proof. apply drop_duplicates_NoDup, NoDup_drop_duplicates. Qed.

Lemma drop_dup_from_seen seen l :
    (forall x, In x l -> In x seen) -> drop_dup_from dec seen l = [].
Proof.
    intros H. induction l as [|y l IH]; simpl; [reflexivity|].
    destruct (in_dec dec y seen) as [_|Hn].
    - apply IH. intros x Hx. apply H. simpl; auto.
    - exfalso. apply Hn, H. simpl; auto.
Qed.

Lemma drop_duplicates_repeat r n : drop_duplicates dec (repeat r (S n)) = [r].
Proof.
    unfold drop_duplicates. simpl. f_equal.
    apply drop_dup_from_seen. intros x Hx.
    apply repeat_spec in Hx. subst. simpl; auto.
Qed.

End DropDuplicatesFacts.



(** ** Exact rationals *)




Lemma this_Qc_of_Z (z : Z) : this (Qc_of_Z z) == inject_Z z.
Proof. apply Qred_correct. Qed.


Lemma seconds_inj (a b : Z) : seconds a = seconds b -> a = b.
Proof.
  unfold seconds. rewrite Q2Qc_eq_iff. unfold Qeq, ns_per_s.
  cbn [Qnum Qden]. lia.
Qed.




Lemma Qc_key_eqb_eq (x y : Qc) : key_eqb Qccompare x y = true <-> x = y.
Proof. apply key_eqb_eq. exact Qc_total_cmp. Qed.

Lemma seconds_key_eqb (a b : Z) :
  key_eqb Qccompare (seconds a) (seconds b) = Z.eqb a b.
Proof.
  destruct (Z.eqb_spec a b) as [->|Hne].
  - apply Qc_key_eqb_eq. reflexivity.
  - apply key_eqb_neq; [exact Qc_total_cmp|].
    intros H. apply Hne, seconds_inj, H.
Qed.




(** ** Minimum and maximum of a column *)

Lemma s_min_spec (s : list Z) :
  s <> [] -> In (s_min s) s /\ forall x, In x s -> s_min s <= x.
Proof.
  destruct s as [|a s]; [congruence|]. intros _. simpl.
  induction s as [|b s IH]; simpl.
  - split; [auto|]. intros x [->|[]]. lia.
  - destruct IH as [Hin Hle]. split.
    + destruct (Z.min_spec b (fold_right Z.min a s)) as [[_ ->]|[_ ->]]; [auto|].
      destruct Hin as [E|Hin]; [left; exact E | right; right; exact Hin].
    + intros x [->|[->|Hx]].
      * specialize (Hle x (or_introl eq_refl)). lia.
      * lia.
      * specialize (Hle x (or_intror Hx)). lia.
Qed.

Lemma s_max_spec (s : list Z) :
  s <> [] -> In (s_max s) s /\ forall x, In x s -> x <= s_max s.
Proof.
  destruct s as [|a s]; [congruence|]. intros _. simpl.
  induction s as [|b s IH]; simpl.
  - split; [auto|]. intros x [->|[]]. lia.
  - destruct IH as [Hin Hle]. split.
    + destruct (Z.max_spec b (fold_right Z.max a s)) as [[_ ->]|[_ ->]]; [|auto].
      destruct Hin as [E|Hin]; [left; exact E | right; right; exact Hin].
    + intros x [->|[->|Hx]].
      * specialize (Hle x (or_introl eq_refl)). lia.
      * lia.
      * specialize (Hle x (or_intror Hx)). lia.
Qed.

Lemma s_min_unique (s : list Z) (m : Z) :
  In m s -> (forall x, In x s -> m <= x) -> s_min s = m.
Proof.
  intros Hin Hle.
  assert (Hne : s <> []) by (destruct s; [contradiction | congruence]).
  destruct (s_min_spec s Hne) as [Hin' Hle'].
  specialize (Hle _ Hin'). specialize (Hle' _ Hin). lia.
Qed.

Lemma s_max_unique (s : list Z) (m : Z) :
  In m s -> (forall x, In x s -> x <= m) -> s_max s = m.
Proof.
  intros Hin Hle.
  assert (Hne : s <> []) by (destruct s; [contradiction | congruence]).
  destruct (s_max_spec s Hne) as [Hin' Hle'].
  specialize (Hle _ Hin'). specialize (Hle' _ Hin). lia.
Qed.



(** ** The reconstruction, row by row *)

Lemma flat_map_singleton {A B : Type} (f : A -> list B) (g : A -> B) (l : list A) :
  (forall x, In x l -> f x = [g x]) -> flat_map f l = map g l.
Proof.
  induction l as [|y l IH]; simpl; intros H; [reflexivity|].
  rewrite (H y (or_introl eq_refl)). simpl. f_equal.
  apply IH. intros x Hx. apply H. auto.
Qed.

Lemma filter_map_comm {A B : Type} (p : B -> bool) (f : A -> B) (l : list A) :
  filter p (map f l) = map f (filter (fun x => p (f x)) l).
Proof.
  induction l as [|y l IH]; simpl; [reflexivity|].
  destruct (p (f y)); simpl; congruence.
Qed.

Lemma group_counts_seconds (df : list (Row Z)) (ns : Z) :
  group_counts (map (with_time seconds) df) (seconds ns) = counts_at df ns.
Proof.
  unfold group_counts, counts_at. rewrite filter_map_comm, map_map. simpl.
  f_equal. apply filter_ext. intros r. apply seconds_key_eqb.
Qed.

Lemma reconstruct_eq (df : list (Row Z)) :
  reconstruct df = map (spread_row df) df.
Proof.
  unfold reconstruct, merge_on_time, timestamps_min_and_count.
  set (df1 := map (with_time seconds) df).
  rewrite (flat_map_singleton _
             (fun r => (r, let s := group_counts df1 (r_time r) in
                           mkTimeAgg (r_time r) (s_min s) (s_max s - s_min s + 1)))).
  - unfold df1. rewrite !map_map. apply map_ext. intros r.
    unfold spread, spread_row, with_time. simpl.
    change (seconds (r_time r)) with (r_time (with_time seconds r)) at 1.
    simpl. rewrite group_counts_seconds. reflexivity.
  - intros r Hr. rewrite filter_map_comm. simpl.
    rewrite (filter_NoDup_In Qccompare Qc_total_cmp).
    + reflexivity.
    + apply sorted_keys_NoDup. exact Qc_total_cmp.
    + apply In_sorted_keys; [exact Qc_total_cmp|]. apply in_map. exact Hr.
Qed.

Lemma reconstruct_length (df : list (Row Z)) :
  List.length (reconstruct df) = List.length df.
Proof. rewrite reconstruct_eq. apply length_map. Qed.

Lemma In_combine_map {A B : Type} (f : A -> B) (l : list A) (x : A) (y : B) :
  In (x, y) (combine l (map f l)) <-> In x l /\ y = f x.
Proof.
  induction l as [|z l IH]; simpl.
  - tauto.
  - rewrite IH. split.
    + intros [E|[H1 H2]]; [inversion E; subst; split; auto | split; auto].
    + intros [[->|H1] ->]; auto.
Qed.

Lemma In_reconstructed_pairs (df : list (Row Z)) (r : Row Z) (r' : Row Qc) :
  In (r, r') (reconstructed_pairs df) <-> In r df /\ r' = spread_row df r.
Proof.
  unfold reconstructed_pairs. rewrite reconstruct_eq. apply In_combine_map.
Qed.






(** The rows of one second, seen from the counts of its group. *)
Section OneSecond.
Variables (df : list (Row Z)) (ns : Z) (g : list (Row Z)) (c0 ck : Z).
Hypothesis Hgroup : Permutation g (filter (fun r => Z.eqb (r_time r) ns) df).
Hypothesis Hsorted : StronglySorted Z.lt (map r_count g).
Hypothesis Hfirst : hd_error (map r_count g) = Some c0.
Hypothesis Hlast : last (map r_count g) c0 = ck.












End OneSecond.

(** ** C1: the reconstruction spreads a second evenly *)



(** ** The sub-table of one tag: [dropna], the emptiness and zero tests *)

Lemma string_length_append (s t : string) :
  String.length (s ++ t) = (String.length s + String.length t)%nat.
Proof. induction s as [|c s IH]; simpl; [reflexivity | rewrite IH; reflexivity]. Qed.

Lemma quality_name_fresh (tag : Z) (tag_name : string) :
  tag_name <> quality_name_of tag tag_name.
Proof.
  intros E. apply (f_equal String.length) in E. revert E.
  unfold quality_name_of. destruct (Z.eqb tag 14);
    rewrite string_length_append; simpl; lia.
Qed.

Lemma forallb_map {A B : Type} (p : B -> bool) (f : A -> B) (l : list A) :
  forallb p (map f l) = forallb (fun x => p (f x)) l.
Proof. induction l as [|a l IH]; simpl; [reflexivity | rewrite IH; reflexivity]. Qed.


Lemma sub_frame_notna_mask has_quality tag_name quality_name group_df :
  notna_mask (sub_frame has_quality tag_name quality_name group_df) =
  if has_quality then [complete_values group_df; complete_quality group_df]
  else [complete_values group_df].
Proof.
  unfold notna_mask, sub_frame, column_cells, complete_values, complete_quality.
  destruct has_quality; simpl; rewrite !map_map, !forallb_map; reflexivity.
Qed.

Lemma sub_frame_dropna_columns has_quality tag_name quality_name group_df :
  wf_columns (dropna_columns (sub_frame has_quality tag_name quality_name group_df)) =
  (if complete_values group_df then [tag_name] else []) ++
  (if has_quality && complete_quality group_df then [quality_name] else []).
Proof.
  unfold dropna_columns. rewrite sub_frame_notna_mask. simpl.
  destruct has_quality; simpl;
    destruct (complete_values group_df), (complete_quality group_df); reflexivity.
Qed.

Lemma sub_frame_dropna_index has_quality tag_name quality_name group_df :
  wf_index (dropna_columns (sub_frame has_quality tag_name quality_name group_df)) =
  map r_time group_df.
Proof.
  unfold wf_index, dropna_columns, sub_frame.
  destruct has_quality; simpl; rewrite !map_map; reflexivity.
Qed.

Lemma sub_frame_dropna_empty has_quality tag_name quality_name group_df :
  frame_empty (dropna_columns (sub_frame has_quality tag_name quality_name group_df)) =
  match group_df with [] => true | _ :: _ => false end.
Proof.
  unfold frame_empty, dropna_columns, sub_frame.
  destruct has_quality, group_df; reflexivity.
Qed.

Lemma sub_frame_dropna_values has_quality tag_name quality_name group_df :
  tag_name <> quality_name ->
  get_column tag_name
    (dropna_columns (sub_frame has_quality tag_name quality_name group_df)) =
  if complete_values group_df then Some (map r_values group_df) else None.
Proof.
  intros Hne. unfold get_column. rewrite sub_frame_dropna_columns.
  destruct (complete_values group_df) eqn:Ev; simpl.
  - rewrite String.eqb_refl. simpl. f_equal.
    unfold column_cells, dropna_columns. rewrite sub_frame_notna_mask.
    unfold sub_frame. destruct has_quality; simpl; rewrite !map_map;
      apply map_ext; intros r; unfold cell; simpl; rewrite Ev; reflexivity.
  - destruct (has_quality && complete_quality group_df); simpl; [|reflexivity].
    apply String.eqb_neq in Hne. rewrite Hne. reflexivity.
Qed.

(** The loop body, case by case. *)
Lemma pivot_tag_eq has_quality new_df tag group_df :
  pivot_tag has_quality new_df tag group_df =
  match Catalog._tag_name tag with
  | Raise e => Raise e
  | Ok tag_name =>
    let sub_df := dropna_columns (sub_frame has_quality tag_name
                                    (quality_name_of tag tag_name) group_df) in
    match group_df with
    | [] => Ok new_df
    | _ :: _ =>
      if negb (complete_values group_df) then Raise (KeyError_column tag_name)
      else if all_zero (map r_values group_df) then Ok new_df
      else if is_unique (map r_time group_df)
           then join_outer new_df (sort_index sub_df)
           else Raise ValueError_index_duplicates
    end
  end.
Proof.
  unfold pivot_tag. destruct (Catalog._tag_name tag) as [tag_name|e]; simpl;
    [|reflexivity].
  rewrite sub_frame_dropna_empty.
  destruct group_df as [|r group_df]; [reflexivity|].
  rewrite sub_frame_dropna_values by apply quality_name_fresh.
  generalize (r :: group_df) as g. intros g.
  destruct (complete_values g); cbn [negb]; [|reflexivity].
  destruct (all_zero (map r_values g)); [reflexivity|].
  unfold set_index_verify. rewrite sub_frame_dropna_index.
  destruct (is_unique (map r_time g)); reflexivity.
Qed.

Lemma join_outer_columns l r f :
  join_outer l r = Ok f -> wf_columns f = wf_columns l ++ wf_columns r.
Proof.
  unfold join_outer. destruct (columns_overlap l r); [discriminate|].
  intros E. injection E as <-. reflexivity.
Qed.

(** ** C2: which columns [dropna] keeps *)




(** ** Rows and groups of the pivot *)

Lemma In_prepared_rows rows selected_tags (r' : Row Qc) :
  In r' (prepared_rows rows selected_tags) ->
  exists r, In r rows /\ r_tag r' = r_tag r /\ r_values r' = r_values r /\
            r_quality r' = r_quality r /\
            match selected_tags with
            | Some tags => isin tags r = true
            | None => True
            end.
Proof.
  unfold prepared_rows, selected_rows. rewrite reconstruct_eq. intros H.
  apply in_map_iff in H. destruct H as [r [<- Hr]].
  exists r. repeat split.
  - destruct selected_tags as [tags|].
    + apply filter_In in Hr. destruct Hr as [Hr _].
      apply In_drop_duplicates in Hr. exact Hr.
    + apply In_drop_duplicates in Hr. exact Hr.
  - destruct selected_tags as [tags|]; [|exact I].
    apply filter_In in Hr. apply Hr.
Qed.

Lemma In_groupby_tag (df : list (Row Qc)) tag group_df :
  In (tag, group_df) (groupby_tag df) ->
  group_df = filter (fun r => Z.eqb (r_tag r) tag) df /\ group_df <> [].
Proof.
  unfold groupby_tag. intros H. apply in_map_iff in H.
  destruct H as [t [E Ht]]. injection E as -> <-. split; [reflexivity|].
  apply In_sorted_keys in Ht; [|exact Z_total_cmp].
  apply in_map_iff in Ht. destruct Ht as [r [Er Hr]].
  intros Hnil.
  assert (Hin : In r (filter (fun r0 => Z.eqb (r_tag r0) tag) df)).
  { apply filter_In. split; [exact Hr|]. apply Z.eqb_eq. exact Er. }
  rewrite Hnil in Hin. exact Hin.
Qed.

Lemma groupby_tag_keys (df : list (Row Qc)) :
  map fst (groupby_tag df) = sorted_keys Z.compare (map r_tag df).
Proof. unfold groupby_tag. rewrite map_map. simpl. apply map_id. Qed.

(** ** C5: a tag that reads zero throughout is skipped *)

Lemma Qc_is_zero_eq (q : Qc) : Qc_is_zero q = true <-> q = 0%Qc.
Proof. apply Qc_key_eqb_eq. Qed.

Lemma all_zero_values (group_df : list (Row Qc)) :
  Forall (fun r => r_values r = Some 0%Qc) group_df ->
  complete_values group_df = true /\ all_zero (map r_values group_df) = true.
Proof.
  intros H. unfold complete_values, all_zero. rewrite forallb_map.
  split; apply forallb_forall; intros r Hr;
    rewrite Forall_forall in H; rewrite (H r Hr); reflexivity.
Qed.

Lemma pivot_tag_zero has_quality new_df tag tag_name group_df :
  Catalog._tag_name tag = Ok tag_name ->
  Forall (fun r => r_values r = Some 0%Qc) group_df ->
  pivot_tag has_quality new_df tag group_df = Ok new_df.
Proof.
  intros Hname Hz. rewrite pivot_tag_eq, Hname. cbv zeta.
  destruct group_df as [|r g]; [reflexivity|].
  destruct (all_zero_values _ Hz) as [-> ->]. reflexivity.
Qed.

Lemma pivot_groups_skip has_quality tag groups :
  (forall group_df, In (tag, group_df) groups ->
                    Forall (fun r => r_values r = Some 0%Qc) group_df) ->
  forall new_df f,
    pivot_groups has_quality new_df groups = Ok f ->
    pivot_groups has_quality new_df
      (filter (fun g => negb (Z.eqb (fst g) tag)) groups) = Ok f.
Proof.
  induction groups as [|[t g] groups IH]; intros Hz new_df f; simpl; [auto|].
  destruct (pivot_tag has_quality new_df t g) as [new_df'|e] eqn:Ep; simpl;
    [|discriminate].
  intros Hf.
  assert (IH' := IH (fun g' Hg' => Hz g' (or_intror Hg')) new_df' f Hf).
  destruct (Z.eqb_spec t tag) as [->|Hne]; simpl.
  - assert (Hzg := Hz g (or_introl eq_refl)).
    destruct (Catalog._tag_name tag) as [tag_name|e] eqn:En.
    + rewrite (pivot_tag_zero _ _ _ _ _ En Hzg) in Ep. injection Ep as <-.
      exact IH'.
    + unfold pivot_tag in Ep. rewrite En in Ep. discriminate.
  - rewrite Ep. simpl. exact IH'.
Qed.

(** C5.  Take a stream in which every reading of [tag] is zero.  Then the
    loop body leaves the frame assembled so far as it is when it meets the
    tag (and also when it meets a tag without rows), and the frame of the
    stream is the one the groups of the other tags yield by themselves. *)
Theorem zero_filled_tag_is_discarded :
  forall (df : DataFrame) (selected_tags : option (list Z)) (tag : Z),
    (forall r, In r (df_rows df) -> r_tag r = tag -> r_values r = Some 0%Qc) ->
    let groups := groupby_tag (prepared_rows (df_rows df) selected_tags) in
    (forall new_df group_df tag_name,
       In (tag, group_df) groups ->
       Catalog._tag_name tag = Ok tag_name ->
       pivot_tag (df_has_quality df) new_df tag group_df = Ok new_df) /\
    (forall new_df tag_name,
       Catalog._tag_name tag = Ok tag_name ->
       pivot_tag (df_has_quality df) new_df tag [] = Ok new_df) /\
    (forall f,
       _convert_single_dataframe (Some df) selected_tags = Ok f ->
       pivot_groups (df_has_quality df) empty_frame
         (filter (fun g => negb (Z.eqb (fst g) tag)) groups) = Ok f).
Proof.
  intros df selected_tags tag Hzero groups.
  assert (Hz : forall group_df, In (tag, group_df) groups ->
                 Forall (fun r => r_values r = Some 0%Qc) group_df).
  { intros group_df Hg. apply In_groupby_tag in Hg. destruct Hg as [-> _].
    apply Forall_forall. intros r' Hr'. apply filter_In in Hr'.
    destruct Hr' as [Hr' Ht]. apply Z.eqb_eq in Ht.
    apply In_prepared_rows in Hr'.
    destruct Hr' as [r [Hr [Etag [Eval _]]]].
    rewrite Eval. apply Hzero; [exact Hr | congruence]. }
  split; [|split].
  - intros new_df group_df tag_name Hg Hname.
    apply (pivot_tag_zero _ _ _ tag_name); auto.
  - intros new_df tag_name Hname. rewrite pivot_tag_eq, Hname. reflexivity.
  - intros f Hf. apply pivot_groups_skip; assumption.
Qed.

Lemma zero_filled_tag_is_discarded_witness :
  exists f,
    _convert_single_dataframe (Some zero_filled_table) (Some [6; 7]) = Ok f /\
    pivot_groups false empty_frame
      (filter (fun g => negb (Z.eqb (fst g) 7))
              (groupby_tag (prepared_rows (df_rows zero_filled_table) (Some [6; 7]))))
    = Ok f /\
    wf_columns f = ["heart_rate"%string].
Proof.
  assert (Hzero : forall r, In r (df_rows zero_filled_table) -> r_tag r = 7 ->
                            r_values r = Some 0%Qc).
  { intros r Hr Ht. simpl in Hr.
    destruct Hr as [<-|[<-|[<-|[<-|[]]]]]; simpl in Ht; try discriminate;
      simpl; f_equal; apply Qc_is_canon; reflexivity. }
  destruct (zero_filled_tag_is_discarded zero_filled_table (Some [6; 7]) 7 Hzero)
    as [_ [_ H]].
  destruct (_convert_single_dataframe (Some zero_filled_table) (Some [6; 7]))
    as [f|e] eqn:E; [|vm_compute in E; discriminate E].
  exists f. split; [reflexivity|]. split; [apply H; reflexivity|].
  vm_compute in E. injection E as <-. reflexivity.
Defined.

(** ** C3: duplicate time stamps in the sub-table of a tag *)

Lemma existsb_key_eqb_In (t : Qc) (idx : list Qc) :
  existsb (key_eqb Qccompare t) idx = true <-> In t idx.
Proof.
  rewrite existsb_exists. split.
  - intros [y [Hy E]]. apply Qc_key_eqb_eq in E. subst. exact Hy.
  - intros H. exists t. split; [exact H | apply Qc_key_eqb_eq; reflexivity].
Qed.

Lemma is_unique_NoDup (idx : list Qc) : is_unique idx = true <-> NoDup idx.
Proof.
  induction idx as [|t idx IH]; simpl.
  - split; [constructor | reflexivity].
  - rewrite andb_true_iff, negb_true_iff, IH. split.
    + intros [Hn Hd]. constructor; [|exact Hd].
      intros Hin. apply existsb_key_eqb_In in Hin. congruence.
    + intros H. inversion H as [|? ? Hn Hd]; subst. split; [|exact Hd].
      destruct (existsb (key_eqb Qccompare t) idx) eqn:E; [|reflexivity].
      apply existsb_key_eqb_In in E. contradiction.
Qed.

Lemma all_zero_Forall (group_df : list (Row Qc)) :
  all_zero (map r_values group_df) = true <->
  Forall (fun r => r_values r = Some 0%Qc) group_df.
Proof.
  unfold all_zero. rewrite forallb_map, forallb_forall, Forall_forall.
  split; intros H r Hr; specialize (H r Hr).
  - destruct (r_values r) as [q|]; [|discriminate].
    apply Qc_is_zero_eq in H. congruence.
  - rewrite H. apply Qc_is_zero_eq. reflexivity.
Qed.

(** A group that makes the loop body raise whatever the frame so far makes
    the whole pivot raise. *)
Lemma pivot_groups_raise has_quality tag group_df groups :
  In (tag, group_df) groups ->
  (forall new_df, is_raise (pivot_tag has_quality new_df tag group_df) = true) ->
  forall new_df, is_raise (pivot_groups has_quality new_df groups) = true.
Proof.
  intros Hin Hraise. induction groups as [|[t g] groups IH]; [contradiction|].
  intros new_df. simpl.
  destruct Hin as [E|Hin].
  - injection E as -> ->. specialize (Hraise new_df).
    destruct (pivot_tag has_quality new_df tag group_df); [discriminate|reflexivity].
  - destruct (pivot_tag has_quality new_df t g); simpl; [|reflexivity].
    apply IH. exact Hin.
Qed.

Lemma duplicate_times_zero_filled_counterexample :
  (exists group_df,
     In (6, group_df)
        (groupby_tag (prepared_rows (df_rows zero_collision_table) (Some [6]))) /\
     ~ NoDup (map r_time group_df)) /\
  _convert_single_dataframe (Some zero_collision_table) (Some [6]) = Ok empty_frame.
Proof.
  split.
  - eexists. split; [left; reflexivity|].
    intros H. apply is_unique_NoDup in H. vm_compute in H. discriminate H.
  - vm_compute. reflexivity.
Qed.

(** C3, amended.  When the reconstructed times of the rows of a tag contain
    a duplicate and the readings of the tag are not all zero, the pivot of
    the stream raises: no frame is returned.  (A tag that reads zero
    throughout is skipped before its index is examined.) *)
Theorem duplicate_times_abort_the_pivot :
  forall (df : DataFrame) (selected_tags : option (list Z)) (tag : Z)
         (group_df : list (Row Qc)),
    In (tag, group_df)
       (groupby_tag (prepared_rows (df_rows df) selected_tags)) ->
    ~ NoDup (map r_time group_df) ->
    ~ Forall (fun r => r_values r = Some 0%Qc) group_df ->
    exists e, _convert_single_dataframe (Some df) selected_tags = Raise e.
Proof.
  intros df selected_tags tag group_df Hin Hdup Hnz.
  assert (H : is_raise (_convert_single_dataframe (Some df) selected_tags) = true).
  { unfold _convert_single_dataframe.
    apply (pivot_groups_raise _ tag group_df); [exact Hin|].
    intros new_df. rewrite pivot_tag_eq.
    destruct (Catalog._tag_name tag) as [tag_name|e]; [|reflexivity].
    cbv zeta. destruct group_df as [|r g]; [exfalso; apply Hdup; constructor|].
    destruct (complete_values (r :: g)); [|reflexivity]. cbn [negb].
    destruct (all_zero (map r_values (r :: g))) eqn:Ez.
    - exfalso. apply Hnz. apply all_zero_Forall. exact Ez.
    - destruct (is_unique (map r_time (r :: g))) eqn:Eu; [|reflexivity].
      exfalso. apply Hdup. apply is_unique_NoDup. exact Eu. }
  destruct (_convert_single_dataframe (Some df) selected_tags) as [f|e];
    [discriminate | exists e; reflexivity].
Qed.

Lemma duplicate_times_abort_the_pivot_witness :
  exists e, _convert_single_dataframe (Some collision_table) (Some [6]) = Raise e.
Proof.
  apply (duplicate_times_abort_the_pivot collision_table (Some [6]) 6
           (prepared_rows (df_rows collision_table) (Some [6]))).
  - left. reflexivity.
  - intros H. apply is_unique_NoDup in H. vm_compute in H. discriminate H.
  - intros H. apply all_zero_Forall in H. vm_compute in H. discriminate H.
Defined.

(** ** C10: exact duplicates are dropped before they can collide *)

Lemma drop_dup_from_earlier {A : Type} (dec : forall x y : A, {x = y} + {x <> y})
    (seen l1 l2 : list A) (x : A) :
  In x l1 \/ In x seen ->
  drop_dup_from dec seen (l1 ++ x :: l2) = drop_dup_from dec seen (l1 ++ l2).
Proof.
  revert seen. induction l1 as [|y l1 IH]; intros seen H; simpl.
  - destruct H as [[]|H]. destruct (in_dec dec x seen); [reflexivity|contradiction].
  - destruct (in_dec dec y seen) as [Hy|Hy].
    + apply IH. destruct H as [[->|H]|H]; auto.
    + f_equal. apply IH. simpl. destruct H as [[->|H]|H]; auto.
Qed.

Lemma drop_duplicates_earlier {A : Type} (dec : forall x y : A, {x = y} + {x <> y})
    (l1 l2 : list A) (x : A) :
  In x l1 ->
  drop_duplicates dec (l1 ++ x :: l2) = drop_duplicates dec (l1 ++ l2).
Proof. intros H. apply drop_dup_from_earlier. left. exact H. Qed.

Lemma selected_rows_NoDup rows selected_tags :
  NoDup (selected_rows rows selected_tags).
Proof.
  unfold selected_rows. destruct selected_tags as [tags|].
  - apply NoDup_filter. apply NoDup_drop_duplicates.
  - apply NoDup_drop_duplicates.
Qed.

Lemma In_selected_rows rows selected_tags r :
  In r (selected_rows rows selected_tags) -> In r rows.
Proof.
  unfold selected_rows. destruct selected_tags as [tags|]; intros H.
  - apply filter_In in H. destruct H as [H _].
    apply In_drop_duplicates in H. exact H.
  - apply In_drop_duplicates in H. exact H.
Qed.

(** Two entries with the same key in a column built from distinct items. *)
Lemma collision_of_distinct {A : Type} (h : A -> Qc) (l : list A) :
  NoDup l -> is_unique (map h l) = false ->
  exists x y, In x l /\ In y l /\ x <> y /\ h x = h y.
Proof.
  induction 1 as [|a l Ha Hnd IH]; simpl; [discriminate|].
  destruct (existsb (key_eqb Qccompare (h a)) (map h l)) eqn:E; simpl.
  - intros _. apply existsb_key_eqb_In in E. apply in_map_iff in E.
    destruct E as [y [Ey Hy]]. exists a, y. repeat split; auto.
    intros ->. contradiction.
  - intros Hu. destruct (IH Hu) as [x [y [Hx [Hy [Hne Heq]]]]].
    exists x, y. auto.
Qed.

Lemma _tag_name_raise tag e :
  Catalog._tag_name tag = Raise e -> e = KeyError_tag_name tag.
Proof.
  unfold Catalog._tag_name.
  destruct (Catalog.get Catalog.SIGNAL_TAGS tag); [discriminate|].
  destruct (Catalog.get Catalog.SENSOR_TAGS tag); [discriminate|].
  destruct (Catalog.get Catalog.FEATURE_TAGS tag); [discriminate|].
  congruence.
Qed.

Lemma pivot_tag_integrity has_quality new_df tag group_df :
  pivot_tag has_quality new_df tag group_df = Raise ValueError_index_duplicates ->
  is_unique (map r_time group_df) = false.
Proof.
  rewrite pivot_tag_eq.
  destruct (Catalog._tag_name tag) as [tag_name|e] eqn:En.
  - cbv zeta. destruct group_df as [|r g]; [discriminate|].
    destruct (negb _); [discriminate|].
    destruct (all_zero _); [discriminate|].
    destruct (is_unique _); [|reflexivity].
    unfold join_outer. destruct (columns_overlap _ _); discriminate.
  - apply _tag_name_raise in En. subst e. discriminate.
Qed.

Lemma pivot_groups_integrity has_quality groups :
  forall new_df,
    pivot_groups has_quality new_df groups = Raise ValueError_index_duplicates ->
    exists tag group_df,
      In (tag, group_df) groups /\ is_unique (map r_time group_df) = false.
Proof.
  induction groups as [|[t g] groups IH]; intros new_df; simpl; [discriminate|].
  destruct (pivot_tag has_quality new_df t g) as [new_df'|e] eqn:Ep; simpl.
  - intros H. destruct (IH _ H) as [tag [group_df [Hin Hu]]].
    exists tag, group_df. auto.
  - intros E. injection E as ->. exists t, g. split; [auto|].
    apply (pivot_tag_integrity _ _ _ _ Ep).
Qed.

Lemma groupby_tag_group (df : list (Row Z)) (f : Row Z -> Row Qc) tag group_df :
  (forall r, r_tag (f r) = r_tag r) ->
  In (tag, group_df) (groupby_tag (map f df)) ->
  group_df = map f (filter (fun r => Z.eqb (r_tag r) tag) df).
Proof.
  intros Hf Hin. apply In_groupby_tag in Hin. destruct Hin as [-> _].
  rewrite filter_map_comm. f_equal. apply filter_ext. intros r.
  rewrite Hf. reflexivity.
Qed.

(** An integrity error comes from two different rows of the table that
    carry the same tag and are reconstructed to the same time. *)
Lemma integrity_error_needs_two_rows (df : DataFrame) selected_tags :
  _convert_single_dataframe (Some df) selected_tags
  = Raise ValueError_index_duplicates ->
  exists r1 r2 r1' r2',
    In r1 (df_rows df) /\ In r2 (df_rows df) /\ r1 <> r2 /\
    r_tag r1 = r_tag r2 /\
    In (r1, r1') (reconstructed_pairs (selected_rows (df_rows df) selected_tags)) /\
    In (r2, r2') (reconstructed_pairs (selected_rows (df_rows df) selected_tags)) /\
    r_time r1' = r_time r2'.
Proof.
  unfold _convert_single_dataframe, prepared_rows. intros H.
  apply pivot_groups_integrity in H. destruct H as [tag [group_df [Hin Hu]]].
  set (dfp := selected_rows (df_rows df) selected_tags) in *.
  rewrite reconstruct_eq in Hin.
  apply groupby_tag_group in Hin; [|reflexivity]. subst group_df.
  rewrite map_map in Hu.
  apply collision_of_distinct in Hu;
    [|apply NoDup_filter; apply selected_rows_NoDup].
  destruct Hu as [x [y [Hx [Hy [Hne Heq]]]]].
  apply filter_In in Hx. destruct Hx as [Hx Htx].
  apply filter_In in Hy. destruct Hy as [Hy Hty].
  apply Z.eqb_eq in Htx, Hty.
  exists x, y, (spread_row dfp x), (spread_row dfp y).
  repeat split; try assumption.
  - apply (In_selected_rows _ _ _ Hx).
  - apply (In_selected_rows _ _ _ Hy).
  - congruence.
  - apply In_reconstructed_pairs. auto.
  - apply In_reconstructed_pairs. auto.
Qed.

(** C10.  At load and again at the start of the pivot a row that repeats an
    earlier row of the table is dropped: the table read or pivoted is the
    one without it.  So a table of [n] copies of one record is a table of
    that one record and cannot raise the integrity error, which needs two
    different rows of one tag reconstructed to the same time. *)
Theorem exact_duplicates_are_dropped :
  forall (float_of_string : string -> option (option Qc)),
    (forall (t1 t2 : list CsvRow) (row : CsvRow),
        In row t1 ->
        read_table float_of_string (t1 ++ row :: t2)
        = read_table float_of_string (t1 ++ t2)) /\
    (forall (rows1 rows2 : list (Row Z)) (r : Row Z) has_quality selected_tags,
        In r rows1 ->
        _convert_single_dataframe
          (Some (mkDataFrame (rows1 ++ r :: rows2) has_quality)) selected_tags
        = _convert_single_dataframe
            (Some (mkDataFrame (rows1 ++ rows2) has_quality)) selected_tags) /\
    (forall (r : Row Z) (n : nat) has_quality selected_tags,
        drop_duplicates (Row_eq_dec Z.eq_dec) (repeat r (S n)) = [r] /\
        _convert_single_dataframe
          (Some (mkDataFrame (repeat r (S n)) has_quality)) selected_tags
        = _convert_single_dataframe (Some (mkDataFrame [r] has_quality)) selected_tags /\
        _convert_single_dataframe
          (Some (mkDataFrame (repeat r (S n)) has_quality)) selected_tags
        <> Raise ValueError_index_duplicates) /\
    (forall (df : DataFrame) selected_tags,
        _convert_single_dataframe (Some df) selected_tags
        = Raise ValueError_index_duplicates ->
        exists r1 r2 r1' r2',
          In r1 (df_rows df) /\ In r2 (df_rows df) /\ r1 <> r2 /\
          r_tag r1 = r_tag r2 /\
          In (r1, r1') (reconstructed_pairs (selected_rows (df_rows df) selected_tags)) /\
          In (r2, r2') (reconstructed_pairs (selected_rows (df_rows df) selected_tags)) /\
          r_time r1' = r_time r2').
Proof.
  intros float_of_string.
  assert (Hconv : forall rows rows' has_quality selected_tags,
             drop_duplicates (Row_eq_dec Z.eq_dec) rows
             = drop_duplicates (Row_eq_dec Z.eq_dec) rows' ->
             _convert_single_dataframe (Some (mkDataFrame rows has_quality)) selected_tags
             = _convert_single_dataframe (Some (mkDataFrame rows' has_quality)) selected_tags).
  { intros rows rows' has_quality selected_tags E.
    unfold _convert_single_dataframe, prepared_rows, selected_rows. simpl.
    rewrite E. reflexivity. }
  split; [|split; [|split]].
  - intros t1 t2 row Hin. unfold read_table.
    rewrite (drop_duplicates_earlier _ _ _ _ Hin). reflexivity.
  - intros rows1 rows2 r has_quality selected_tags Hin.
    apply Hconv. apply drop_duplicates_earlier. exact Hin.
  - intros r n has_quality selected_tags.
    assert (Hrep := drop_duplicates_repeat (Row_eq_dec Z.eq_dec) r n).
    assert (Hone : _convert_single_dataframe
                     (Some (mkDataFrame (repeat r (S n)) has_quality)) selected_tags
                   = _convert_single_dataframe
                       (Some (mkDataFrame [r] has_quality)) selected_tags).
    { apply Hconv. rewrite Hrep. reflexivity. }
    split; [exact Hrep|]. split; [exact Hone|].
    rewrite Hone. intros H.
    apply integrity_error_needs_two_rows in H.
    destruct H as [r1 [r2 [_ [_ [H1 [H2 [Hne _]]]]]]].
    simpl in H1, H2. destruct H1 as [<-|[]]. destruct H2 as [<-|[]].
    apply Hne. reflexivity.
  - apply integrity_error_needs_two_rows.
Qed.

(** ** The reader's methods *)



Lemma join_into_data_eq dataframes acc self :
  join_into_data dataframes (set_data (mkData acc None) self) =
  (set_data (mkData (fst (join_frames acc dataframes)) None) self,
   snd (join_frames acc dataframes)).
Proof.
  revert acc. induction dataframes as [|df rest IH]; intros acc; simpl.
  - reflexivity.
  - unfold m_bind, m_read, m_lift, m_modify. simpl.
    destruct (join_outer acc df) as [j|e]; simpl; [|reflexivity].
    exact (IH j).
Qed.

(** [_join] in closed form. *)
Lemma _join_eq (self : EverionReader) :
  _join self =
  match _convert_single_dataframe (signals self) (Some (selected_signal_tags self))
  with
  | Raise e => (self, Raise e)
  | Ok sig =>
    match _convert_single_dataframe (features self) (Some (selected_feature_tags self))
    with
    | Raise e => (self, Raise e)
    | Ok fea =>
      match _convert_single_dataframe (sensors self) (Some (selected_sensor_tags self))
      with
      | Raise e => (self, Raise e)
      | Ok sen =>
        match join_frames empty_frame [sig; fea; sen] with
        | (f, Ok _) => (set_data (derive_acc_mag f) self, Ok tt)
        | (f, Raise e) => (set_data (mkData f None) self, Raise e)
        end
      end
    end
  end.
Proof.
  unfold _join, m_bind, m_lift, m_modify.
  destruct (_convert_single_dataframe (signals self) _) as [sig|e]; [|reflexivity].
  destruct (_convert_single_dataframe (features self) _) as [fea|e]; [|reflexivity].
  destruct (_convert_single_dataframe (sensors self) _) as [sen|e]; [|reflexivity].
  rewrite join_into_data_eq.
  destruct (join_frames empty_frame [sig; fea; sen]) as [f [[]|e]]; reflexivity.
Qed.

Lemma _join_raw_tables (self : EverionReader) :
  raw_tables (fst (_join self)) = raw_tables self.
Proof.
  rewrite _join_eq.
  destruct (_convert_single_dataframe (signals self) _); [|reflexivity].
  destruct (_convert_single_dataframe (features self) _); [|reflexivity].
  destruct (_convert_single_dataframe (sensors self) _); [|reflexivity].
  destruct (join_frames _ _) as [f [[]|e]]; reflexivity.
Qed.



(** ** C6: timeshift to an anchor *)





(** ** C7: the pivot and the join commute with a shift of all times *)

Section Shifted.
Variable D : Z.







End Shifted.

Section ShiftedFrames.
Variable d : Qc.




















Lemma shift_frame_empty : shift_frame d empty_frame = empty_frame.
Proof. reflexivity. Qed.

Lemma has_column_shift name (f : WideFrame) :
  has_column name (shift_frame d f) = has_column name f.
Proof. reflexivity. Qed.



End ShiftedFrames.




(** ** C4: the magnitude of the acceleration *)

Lemma row_norm_three (x y z : option Qc) :
  row_norm [x; y; z] = euclidean_norm x y z.
Proof.
  unfold row_norm, euclidean_norm. simpl.
  destruct x as [a|], y as [b|], z as [c|]; simpl; try reflexivity.
  f_equal. f_equal. ring.
Qed.

Lemma Qc_to_R_qz (z : Z) : Qc_to_R (qz z) = IZR z.
Proof.
  unfold Qc_to_R, qz. rewrite (Qeq_eqR _ _ (this_Qc_of_Z z)).
  unfold Q2R, inject_Z. simpl. field.
Qed.

Lemma euclidean_norm_3_4_0 :
  euclidean_norm (Some (qz 3)) (Some (qz 4)) (Some (qz 0)) = Some 5%R.
Proof.
  unfold euclidean_norm. rewrite !Qc_to_R_qz. f_equal.
  replace (3 * 3 + 4 * 4 + 0 * 0)%R with (5 * 5)%R by ring.
  apply sqrt_square. lra.
Qed.

Lemma has_column_index name (f : WideFrame) :
  has_column name f = true <-> exists j, index_of name (wf_columns f) = Some j.
Proof.
  unfold has_column. destruct (index_of name (wf_columns f)) as [j|]; simpl.
  - split; [eauto | reflexivity].
  - split; [discriminate | intros [j H]; discriminate].
Qed.

Lemma derive_acc_mag_column (f : WideFrame) (jx jy jz : nat) :
  index_of "accx_data" (wf_columns f) = Some jx ->
  index_of "accy_data" (wf_columns f) = Some jy ->
  index_of "accz_data" (wf_columns f) = Some jz ->
  d_acc_mag (derive_acc_mag f)
  = Some (map (fun row => euclidean_norm (cell jx row) (cell jy row) (cell jz row))
              (wf_rows f)).
Proof.
  intros Hx Hy Hz. unfold derive_acc_mag, has_column.
  simpl. rewrite Hx, Hy, Hz. simpl. f_equal.
  unfold acc_mag_column. apply map_ext. intros row.
  unfold pick. simpl. rewrite Hx, Hy, Hz. apply row_norm_three.
Qed.


(** The magnitudes of [accelerometer_table], through the whole pipeline. *)
Example acc_mag_of_accelerometer_table :
  snd (_join accelerometer_reader) = Ok tt /\
  exists x, data (fst (_join accelerometer_reader)) = Some x /\
            wf_columns (d_frame x) = ["accx_data"; "accy_data"; "accz_data"]%string /\
            d_acc_mag x = Some [Some 5%R; Some 3%R].
Proof.
  rewrite _join_eq.
  assert (E : _convert_single_dataframe (sensors accelerometer_reader)
                (Some (selected_sensor_tags accelerometer_reader))
              = Ok (mkWideFrame
                      ["accx_data"; "accy_data"; "accz_data"]%string
                      [ (qz 100, [Some (qz 3); Some (qz 4); Some (qz 0)]);
                        (qz 101, [Some (qz 1); Some (qz 2); Some (qz 2)]) ])).
  { vm_compute. reflexivity. }
  rewrite E. clear E.
  change (_convert_single_dataframe (signals accelerometer_reader) _)
    with (Ok empty_frame).
  change (_convert_single_dataframe (features accelerometer_reader) _)
    with (Ok empty_frame).
  cbv iota beta.
  match goal with
  | |- context [join_frames empty_frame ?l] =>
    assert (E : join_frames empty_frame l
                = (mkWideFrame
                      ["accx_data"; "accy_data"; "accz_data"]%string
                      [ (qz 100, [Some (qz 3); Some (qz 4); Some (qz 0)]);
                        (qz 101, [Some (qz 1); Some (qz 2); Some (qz 2)]) ],
                   Ok tt)) by (vm_compute; reflexivity);
    rewrite E; clear E
  end.
  split; [reflexivity|].
  eexists. split; [reflexivity|]. split; [reflexivity|].
  match goal with
  | |- d_acc_mag (derive_acc_mag ?f) = _ =>
    rewrite (derive_acc_mag_column f 0%nat 1%nat 2%nat eq_refl eq_refl eq_refl)
  end.
  cbn [map wf_rows]. unfold cell. cbn [nth snd]. rewrite euclidean_norm_3_4_0.
  f_equal. f_equal. f_equal.
  unfold euclidean_norm. rewrite !Qc_to_R_qz. f_equal.
  replace (1 * 1 + 2 * 2 + 2 * 2)%R with (3 * 3)%R by ring.
  apply sqrt_square. lra.
Qed.

(** ** C8: the constructor checks the tags before it touches a file *)

Lemma check_tags_ok catalog err tags :
  check_tags catalog err tags = Ok tt <->
  forallb (fun t => Catalog.mem t catalog) tags = true.
Proof.
  induction tags as [|t tags IH]; simpl.
  - tauto.
  - destruct (Catalog.mem t catalog); simpl; [exact IH|].
    split; discriminate.
Qed.

Lemma check_tags_raise catalog err tags :
  forallb (fun t => Catalog.mem t catalog) tags = false ->
  exists t, In t tags /\ Catalog.mem t catalog = false /\
            check_tags catalog err tags = Raise (err t).
Proof.
  induction tags as [|t tags IH]; simpl; [discriminate|].
  destruct (Catalog.mem t catalog) eqn:E; simpl.
  - intros H. destruct (IH H) as [t' [Hin [Hm Hc]]]. exists t'. auto.
  - intros _. exists t. auto.
Qed.

Lemma forallb_false_Exists {A : Type} (p : A -> bool) (l : list A) :
  forallb p l = false <-> Exists (fun x => p x = false) l.
Proof.
  induction l as [|a l IH]; simpl.
  - split; [discriminate | intros H; inversion H].
  - rewrite andb_false_iff, IH. split.
    + intros [H|H]; [left | right]; exact H.
    + intros H. inversion H; subst; auto.
Qed.

Lemma all_tags_valid_false signal_tags sensor_tags feature_tags :
  all_tags_valid signal_tags sensor_tags feature_tags = false <->
  Exists (fun t => Catalog.mem t Catalog.SIGNAL_TAGS = false) signal_tags \/
  Exists (fun t => Catalog.mem t Catalog.SENSOR_TAGS = false) sensor_tags \/
  Exists (fun t => Catalog.mem t Catalog.FEATURE_TAGS = false) feature_tags.
Proof.
  unfold all_tags_valid. rewrite !andb_false_iff, !forallb_false_Exists. tauto.
Qed.

(** The three validation loops in a row, as [__init__] runs them. *)
Lemma validation_outcome signal_tags sensor_tags feature_tags :
  (_ <- check_tags Catalog.SIGNAL_TAGS KeyError_signal_tag signal_tags ;;
   _ <- check_tags Catalog.FEATURE_TAGS KeyError_feature_tag feature_tags ;;
   check_tags Catalog.SENSOR_TAGS KeyError_sensor_tag sensor_tags)%result
  = Ok tt <->
  all_tags_valid signal_tags sensor_tags feature_tags = true.
Proof.
  unfold all_tags_valid. rewrite !andb_true_iff.
  rewrite <- (check_tags_ok _ KeyError_signal_tag).
  rewrite <- (check_tags_ok _ KeyError_feature_tag).
  rewrite <- (check_tags_ok _ KeyError_sensor_tag).
  destruct (check_tags Catalog.SIGNAL_TAGS _ signal_tags) as [[]|e]; simpl;
    [|split; [discriminate | intros [[H _] _]; discriminate H]].
  destruct (check_tags Catalog.FEATURE_TAGS _ feature_tags) as [[]|e]; simpl;
    [|split; [discriminate | intros [[_ H] _]; discriminate H]].
  tauto.
Qed.

Lemma validation_raises signal_tags sensor_tags feature_tags e :
  (_ <- check_tags Catalog.SIGNAL_TAGS KeyError_signal_tag signal_tags ;;
   _ <- check_tags Catalog.FEATURE_TAGS KeyError_feature_tag feature_tags ;;
   check_tags Catalog.SENSOR_TAGS KeyError_sensor_tag sensor_tags)%result
  = Raise e ->
  (exists t, e = KeyError_signal_tag t) \/ (exists t, e = KeyError_feature_tag t)
  \/ (exists t, e = KeyError_sensor_tag t).
Proof.
  assert (Hc : forall catalog err tags e0,
             check_tags catalog err tags = Raise e0 -> exists t, e0 = err t).
  { intros catalog err tags e0. induction tags as [|t tags IH]; simpl;
      [discriminate|].
    destruct (Catalog.mem t catalog); [exact IH|].
    intros E. injection E as <-. eauto. }
  destruct (check_tags Catalog.SIGNAL_TAGS _ signal_tags) as [[]|e1] eqn:E1; simpl.
  - destruct (check_tags Catalog.FEATURE_TAGS _ feature_tags) as [[]|e2] eqn:E2;
      simpl.
    + intros E3. right. right. apply (Hc _ _ _ _ E3).
    + intros E. injection E as <-. right. left. apply (Hc _ _ _ _ E2).
  - intros E. injection E as <-. left. apply (Hc _ _ _ _ E1).
Qed.

Lemma fst_io_bind {A B : Type} (m : IO A) (k : A -> IO B) :
  exists rest, fst (io_bind m k) = fst m ++ rest.
Proof.
  destruct m as [tr [a|e]]; simpl.
  - destruct (k a) as [tr' r]. exists tr'. reflexivity.
  - exists []. rewrite app_nil_r. reflexivity.
Qed.

Section Construction.
Variable float_of_string : string -> option (option Qc).
Variables (path : string) (signal_tags sensor_tags feature_tags : list Z).

Lemma __init___split (w : World) :
  __init__ float_of_string w path signal_tags sensor_tags feature_tags
  = (io_emit (Ev_isdir path) ;;;
     (if w_isdir w path then io_ret tt else io_raise OSError) ;;;
     io_lift (check_tags Catalog.SIGNAL_TAGS KeyError_signal_tag signal_tags) ;;;
     io_lift (check_tags Catalog.FEATURE_TAGS KeyError_feature_tag feature_tags) ;;;
     io_lift (check_tags Catalog.SENSOR_TAGS KeyError_sensor_tag sensor_tags) ;;;
     init_after_validation float_of_string w path
                           signal_tags sensor_tags feature_tags)%io.
Proof. reflexivity. Qed.

(** [__init__] up to the end of the validation. *)
Lemma __init___eq (w : World) :
  __init__ float_of_string w path signal_tags sensor_tags feature_tags
  = if w_isdir w path then
      match (_ <- check_tags Catalog.SIGNAL_TAGS KeyError_signal_tag signal_tags ;;
             _ <- check_tags Catalog.FEATURE_TAGS KeyError_feature_tag feature_tags ;;
             check_tags Catalog.SENSOR_TAGS KeyError_sensor_tag sensor_tags)%result
      with
      | Raise e => ([Ev_isdir path], Raise e)
      | Ok _ =>
        (Ev_isdir path
           :: fst (init_after_validation float_of_string w path
                     signal_tags sensor_tags feature_tags),
         snd (init_after_validation float_of_string w path
                signal_tags sensor_tags feature_tags))
      end
    else ([Ev_isdir path], Raise OSError).
Proof.
  rewrite __init___split.
  generalize (init_after_validation float_of_string w path
                signal_tags sensor_tags feature_tags).
  intros [tr r].
  unfold io_bind, io_emit, io_lift, io_raise, io_ret.
  destruct (w_isdir w path); [|reflexivity].
  destruct (check_tags Catalog.SIGNAL_TAGS _ signal_tags) as [[]|e]; simpl;
    [|reflexivity].
  destruct (check_tags Catalog.FEATURE_TAGS _ feature_tags) as [[]|e]; simpl;
    [|reflexivity].
  destruct (check_tags Catalog.SENSOR_TAGS _ sensor_tags) as [[]|e]; simpl;
    reflexivity.
Qed.

(** Past the validation the first thing the constructor does is to look
    for the files. *)
Lemma init_after_validation_trace (w : World) :
  exists rest,
    fst (init_after_validation float_of_string w path
           signal_tags sensor_tags feature_tags)
    = Ev_glob (path_join path "*aggregates*") :: rest.
Proof.
  unfold init_after_validation.
  match goal with
  | |- context [io_bind ?m ?k] =>
    destruct (fst_io_bind m k) as [rest1 ->]
  end.
  unfold _init_filelist, file_patterns. cbn [_init_filelist_loop].
  match goal with
  | |- context [io_bind ?m ?k] =>
    destruct (fst_io_bind m k) as [rest2 ->]
  end.
  simpl. eexists. reflexivity.
Qed.

End Construction.

(** C8.  When a tag of the signal, sensor or feature subset is not in the
    catalog of its kind, the constructor raises, and the directory test is
    all it has done by then: no file was looked for or read, and the outcome
    is the same whatever files there are.  When the directory exists the
    exception is the [KeyError] of the validation.  Conversely, whenever the
    constructor does anything beyond the directory test, or returns a
    reader, every tag handed in has passed the validation; with valid tags
    and a directory it goes on to look for the files. *)
Theorem construction_validates_tags_first :
  forall (float_of_string : string -> option (option Qc)) (w : World)
         (path : string) (signal_tags sensor_tags feature_tags : list Z),
    let run w0 :=
      __init__ float_of_string w0 path signal_tags sensor_tags feature_tags in
    (Exists (fun t => Catalog.mem t Catalog.SIGNAL_TAGS = false) signal_tags \/
     Exists (fun t => Catalog.mem t Catalog.SENSOR_TAGS = false) sensor_tags \/
     Exists (fun t => Catalog.mem t Catalog.FEATURE_TAGS = false) feature_tags ->
     fst (run w) = [Ev_isdir path] /\
     (exists e,
        snd (run w) = Raise e /\
        (w_isdir w path = true ->
         (exists t, e = KeyError_signal_tag t) \/
         (exists t, e = KeyError_feature_tag t) \/
         (exists t, e = KeyError_sensor_tag t))) /\
     (forall w', w_isdir w' path = w_isdir w path -> run w' = run w)) /\
    (forall ev, In ev (fst (run w)) -> ev <> Ev_isdir path ->
                all_tags_valid signal_tags sensor_tags feature_tags = true) /\
    (forall self, snd (run w) = Ok self ->
                  all_tags_valid signal_tags sensor_tags feature_tags = true) /\
    (w_isdir w path = true ->
     all_tags_valid signal_tags sensor_tags feature_tags = true ->
     exists rest,
       fst (run w)
       = Ev_isdir path :: Ev_glob (path_join path "*aggregates*") :: rest).
Proof.
  intros float_of_string w path signal_tags sensor_tags feature_tags run.
  unfold run.
  pose proof (validation_outcome signal_tags sensor_tags feature_tags) as Hval.
  pose proof (validation_raises signal_tags sensor_tags feature_tags) as Hkind.
  split; [|split; [|split]].
  - intros Hbad. apply all_tags_valid_false in Hbad.
    assert (Hform : forall w0,
               __init__ float_of_string w0 path signal_tags sensor_tags feature_tags
               = if w_isdir w0 path then
                   match (_ <- check_tags Catalog.SIGNAL_TAGS KeyError_signal_tag signal_tags ;;
                          _ <- check_tags Catalog.FEATURE_TAGS KeyError_feature_tag feature_tags ;;
                          check_tags Catalog.SENSOR_TAGS KeyError_sensor_tag sensor_tags)%result
                   with
                   | Raise e => ([Ev_isdir path], Raise e)
                   | Ok _ => ([Ev_isdir path], Raise OSError)
                   end
                 else ([Ev_isdir path], Raise OSError)).
    { intros w0. rewrite __init___eq.
      destruct (w_isdir w0 path); [|reflexivity].
      destruct (bind _ _) as [[]|e]; [|reflexivity].
      rewrite (proj1 Hval eq_refl) in Hbad. discriminate Hbad. }
    rewrite Hform.
    destruct (bind _ _) as [[]|e] eqn:Ev.
    + rewrite (proj1 Hval eq_refl) in Hbad. discriminate Hbad.
    + split; [destruct (w_isdir w path); reflexivity|]. split.
      * destruct (w_isdir w path).
        -- exists e. split; [reflexivity|]. intros _. apply Hkind. reflexivity.
        -- exists OSError. split; [reflexivity | discriminate].
      * intros w' Hw'. rewrite Hform, Hw'. reflexivity.
  - intros ev Hin Hne. rewrite __init___eq in Hin.
    destruct (w_isdir w path).
    + destruct (bind _ _) as [[]|e]; [apply Hval; reflexivity|].
      destruct Hin as [<-|[]]. contradiction.
    + destruct Hin as [<-|[]]. contradiction.
  - intros self Hok. rewrite __init___eq in Hok.
    destruct (w_isdir w path); [|discriminate].
    destruct (bind _ _) as [[]|e]; [apply Hval; reflexivity | discriminate].
  - intros Hd Hv. rewrite __init___eq, Hd.
    rewrite (proj2 Hval Hv).
    destruct (init_after_validation_trace float_of_string path
                signal_tags sensor_tags feature_tags w) as [rest ->].
    exists rest. reflexivity.
Qed.

(** ** C9: persisting a table and reloading it *)

(** *** Text *)



(** *** Lists *)






(** *** Whole seconds *)

Lemma ns_per_s_nonzero : Zpos ns_per_s <> 0.
Proof. discriminate. Qed.


Section Persist.
Variable float_of_string : string -> option (option Qc).
Variable string_of_float : option Qc -> string.














End Persist.




(* ================================================================= *)
(** * Part III: further properties of the reader *)
(* ================================================================= *)

(** ** The catalogs and [_tag_name] *)

Lemma get_In (d : list (Z * string)) (k : Z) (v : string) :
  Catalog.get d k = Some v -> In (k, v) d.
Proof.
  induction d as [|[k' v'] d IH]; simpl; [discriminate|].
  destruct (Z.eqb_spec k k') as [->|Hne].
  - intros E. injection E as ->. left. reflexivity.
  - intros E. right. apply IH. exact E.
Qed.

Lemma mem_get (k : Z) (d : list (Z * string)) :
  Catalog.mem k d = true <-> exists v, Catalog.get d k = Some v.
Proof.
  unfold Catalog.mem. destruct (Catalog.get d k) as [v|].
  - split; [eauto | reflexivity].
  - split; [discriminate | intros [v E]; discriminate].
Qed.

Ltac each_entry H :=
  repeat (destruct H as [H|H]; [injection H as <- <-; vm_compute; reflexivity|]);
  contradiction.

Lemma signal_not_elsewhere (k : Z) (v : string) :
  Catalog.get Catalog.SIGNAL_TAGS k = Some v ->
  Catalog.get Catalog.SENSOR_TAGS k = None /\
  Catalog.get Catalog.FEATURE_TAGS k = None.
Proof.
  intros H. apply get_In in H. split; simpl in H; each_entry H.
Qed.

Lemma sensor_not_elsewhere (k : Z) (v : string) :
  Catalog.get Catalog.SENSOR_TAGS k = Some v ->
  Catalog.get Catalog.SIGNAL_TAGS k = None /\
  Catalog.get Catalog.FEATURE_TAGS k = None.
Proof.
  intros H. apply get_In in H. split; simpl in H; each_entry H.
Qed.

Lemma feature_not_elsewhere (k : Z) (v : string) :
  Catalog.get Catalog.FEATURE_TAGS k = Some v ->
  Catalog.get Catalog.SIGNAL_TAGS k = None /\
  Catalog.get Catalog.SENSOR_TAGS k = None.
Proof.
  intros H. apply get_In in H. split; simpl in H; each_entry H.
Qed.

(** X1.  The three catalogs share no tag, so the order in which
    [_tag_name] probes them does not matter: it returns a name exactly when
    one of the catalogs registers that name for the tag, and it raises its
    [KeyError] exactly when the tag is in none of them. *)
Theorem tag_name_finds_the_one_entry :
  forall (tag : Z),
    (forall name,
        Catalog._tag_name tag = Ok name <->
        Catalog.get Catalog.SIGNAL_TAGS tag = Some name \/
        Catalog.get Catalog.SENSOR_TAGS tag = Some name \/
        Catalog.get Catalog.FEATURE_TAGS tag = Some name) /\
    (Catalog._tag_name tag = Raise (KeyError_tag_name tag) <->
     Catalog.mem tag Catalog.SIGNAL_TAGS = false /\
     Catalog.mem tag Catalog.SENSOR_TAGS = false /\
     Catalog.mem tag Catalog.FEATURE_TAGS = false) /\
    (forall e, Catalog._tag_name tag = Raise e -> e = KeyError_tag_name tag).
Proof.
  intros tag. unfold Catalog._tag_name, Catalog.mem.
  destruct (Catalog.get Catalog.SIGNAL_TAGS tag) as [n1|] eqn:E1.
  - destruct (signal_not_elsewhere tag n1 E1) as [-> ->].
    split; [|split].
    + intros name. split; [intros E; left; congruence|].
      intros [E|[E|E]]; congruence.
    + split; [discriminate | intros [H _]; discriminate H].
    + discriminate.
  - destruct (Catalog.get Catalog.SENSOR_TAGS tag) as [n2|] eqn:E2.
    + destruct (sensor_not_elsewhere tag n2 E2) as [_ ->].
      split; [|split].
      * intros name. split; [intros E; right; left; congruence|].
        intros [E|[E|E]]; congruence.
      * split; [discriminate | intros [_ [H _]]; discriminate H].
      * discriminate.
    + destruct (Catalog.get Catalog.FEATURE_TAGS tag) as [n3|] eqn:E3.
      * split; [|split].
        -- intros name. split; [intros E; right; right; congruence|].
           intros [E|[E|E]]; congruence.
        -- split; [discriminate | intros [_ [_ H]]; discriminate H].
        -- discriminate.
      * split; [|split].
        -- intros name. split; [discriminate|].
           intros [E|[E|E]]; discriminate.
        -- split; auto.
        -- intros e E. congruence.
Qed.

(** ** Lookup errors in the pivot *)

Lemma pivot_tag_lookup_error has_quality new_df tag group_df t :
  pivot_tag has_quality new_df tag group_df = Raise (KeyError_tag_name t) ->
  t = tag /\ Catalog._tag_name tag = Raise (KeyError_tag_name tag).
Proof.
  rewrite pivot_tag_eq.
  destruct (Catalog._tag_name tag) as [tag_name|e] eqn:En.
  - cbv zeta. destruct group_df as [|r g]; [discriminate|].
    destruct (negb _); [discriminate|].
    destruct (all_zero _); [discriminate|].
    destruct (is_unique _); [|discriminate].
    unfold join_outer. destruct (columns_overlap _ _); discriminate.
  - apply _tag_name_raise in En. subst e. intros E. injection E as <-. auto.
Qed.

Lemma pivot_groups_lookup_error has_quality groups t :
  forall new_df,
    pivot_groups has_quality new_df groups = Raise (KeyError_tag_name t) ->
    (exists group_df, In (t, group_df) groups) /\
    Catalog._tag_name t = Raise (KeyError_tag_name t).
Proof.
  induction groups as [|[tag g] groups IH]; intros new_df; simpl; [discriminate|].
  destruct (pivot_tag has_quality new_df tag g) as [new_df'|e] eqn:Ep; simpl.
  - intros H. destruct (IH _ H) as [[g' Hg'] Hn]. split; [eauto|exact Hn].
  - intros E. injection E as ->.
    apply pivot_tag_lookup_error in Ep. destruct Ep as [-> Hn].
    split; [eauto | exact Hn].
Qed.

Lemma group_tag_selected rows tags tag group_df :
  In (tag, group_df) (groupby_tag (prepared_rows rows (Some tags))) ->
  In tag tags /\ exists r, In r rows /\ r_tag r = tag.
Proof.
  intros Hin. apply In_groupby_tag in Hin. destruct Hin as [-> Hne].
  destruct (filter _ _) as [|r' l] eqn:Ef; [congruence|].
  assert (Hr' : In r' (filter (fun r => Z.eqb (r_tag r) tag)
                              (prepared_rows rows (Some tags)))).
  { rewrite Ef. left. reflexivity. }
  apply filter_In in Hr'. destruct Hr' as [Hr' Ht]. apply Z.eqb_eq in Ht.
  apply In_prepared_rows in Hr'. destruct Hr' as [r [Hr [Etag [_ [_ Hsel]]]]].
  split.
  - unfold isin in Hsel. apply existsb_exists in Hsel.
    destruct Hsel as [t [Hin E]]. apply Z.eqb_eq in E. congruence.
  - exists r. split; [exact Hr | congruence].
Qed.

Lemma mem_tag_name tag :
  Catalog.mem tag Catalog.SIGNAL_TAGS = true \/
  Catalog.mem tag Catalog.SENSOR_TAGS = true \/
  Catalog.mem tag Catalog.FEATURE_TAGS = true ->
  exists name, Catalog._tag_name tag = Ok name.
Proof.
  unfold Catalog._tag_name, Catalog.mem.
  destruct (Catalog.get Catalog.SIGNAL_TAGS tag); [eauto|].
  destruct (Catalog.get Catalog.SENSOR_TAGS tag); [eauto|].
  destruct (Catalog.get Catalog.FEATURE_TAGS tag); [eauto|].
  intros [H|[H|H]]; discriminate H.
Qed.

(** X2.  When every selected tag is in one of the catalogs, the pivot of a
    stream never raises the lookup error of [_tag_name], whatever tags the
    table holds: rows of other tags are filtered out before the loop. *)
Theorem selected_known_tags_never_fail_lookup :
  forall (df : DataFrame) (tags : list Z) (t : Z),
    Forall (fun tag => Catalog.mem tag Catalog.SIGNAL_TAGS = true \/
                       Catalog.mem tag Catalog.SENSOR_TAGS = true \/
                       Catalog.mem tag Catalog.FEATURE_TAGS = true) tags ->
    _convert_single_dataframe (Some df) (Some tags) <> Raise (KeyError_tag_name t).
Proof.
  intros df tags t Hvalid H. unfold _convert_single_dataframe in H.
  apply pivot_groups_lookup_error in H. destruct H as [[g Hg] Hn].
  apply group_tag_selected in Hg. destruct Hg as [Hin _].
  rewrite Forall_forall in Hvalid.
  destruct (mem_tag_name t (Hvalid t Hin)) as [name E]. congruence.
Qed.

Lemma selected_known_tags_never_fail_lookup_witness :
  _convert_single_dataframe (Some unknown_tag_table) (Some [6; 7])
  <> Raise (KeyError_tag_name 999).
Proof.
  apply selected_known_tags_never_fail_lookup.
  repeat constructor.
Defined.

(** A group the loop reaches with a tag unknown to the catalogs. *)
Lemma groupby_tag_has_group (df : list (Row Qc)) (r : Row Qc) :
  In r df -> exists group_df, In (r_tag r, group_df) (groupby_tag df).
Proof.
  intros Hr. unfold groupby_tag. eexists. apply in_map_iff.
  exists (r_tag r). split; [reflexivity|].
  apply In_sorted_keys; [exact Z_total_cmp|]. apply in_map. exact Hr.
Qed.

Lemma In_prepared_rows_None rows (r : Row Z) :
  In r rows -> exists r', In r' (prepared_rows rows None) /\ r_tag r' = r_tag r.
Proof.
  intros Hr. unfold prepared_rows, selected_rows. rewrite reconstruct_eq.
  eexists. split.
  - apply in_map. apply In_drop_duplicates. exact Hr.
  - reflexivity.
Qed.

(** X3.  Without a selection ([selected_tags=None]) nothing is filtered:
    one row whose tag is in none of the catalogs makes the pivot of the
    stream raise, whatever else the table holds. *)
Theorem unknown_tag_aborts_unselected_pivot :
  forall (df : DataFrame) (r : Row Z),
    In r (df_rows df) ->
    Catalog.mem (r_tag r) Catalog.SIGNAL_TAGS = false ->
    Catalog.mem (r_tag r) Catalog.SENSOR_TAGS = false ->
    Catalog.mem (r_tag r) Catalog.FEATURE_TAGS = false ->
    exists e, _convert_single_dataframe (Some df) None = Raise e.
Proof.
  intros df r Hr H1 H2 H3.
  destruct (In_prepared_rows_None _ r Hr) as [r' [Hr' Etag]].
  destruct (groupby_tag_has_group _ r' Hr') as [g Hg].
  assert (H : is_raise (_convert_single_dataframe (Some df) None) = true).
  { unfold _convert_single_dataframe.
    apply (pivot_groups_raise _ (r_tag r') g); [exact Hg|].
    intros new_df. unfold pivot_tag, Catalog._tag_name. rewrite Etag.
    unfold Catalog.mem in H1, H2, H3.
    destruct (Catalog.get Catalog.SIGNAL_TAGS (r_tag r)); [discriminate|].
    destruct (Catalog.get Catalog.SENSOR_TAGS (r_tag r)); [discriminate|].
    destruct (Catalog.get Catalog.FEATURE_TAGS (r_tag r)); [discriminate|].
    reflexivity. }
  destruct (_convert_single_dataframe (Some df) None) as [f|e];
    [discriminate | eauto].
Qed.

Lemma unknown_tag_aborts_unselected_pivot_witness :
  exists e, _convert_single_dataframe (Some unknown_tag_table) None = Raise e.
Proof.
  apply (unknown_tag_aborts_unselected_pivot unknown_tag_table
           (mkRow 100000000000 999 (Some (qz 1)) None 2 "s"));
    [right; left; reflexivity | reflexivity | reflexivity | reflexivity].
Defined.

(** ** The selection of tags *)

Lemma drop_dup_from_filter {A : Type} (dec : forall x y : A, {x = y} + {x <> y})
    (p : A -> bool) (l : list A) :
  forall seen1 seen2,
    (forall y, p y = true -> (In y seen1 <-> In y seen2)) ->
    drop_dup_from dec seen1 (filter p l) = filter p (drop_dup_from dec seen2 l).
Proof.
  induction l as [|x l IH]; intros seen1 seen2 Hs; simpl; [reflexivity|].
  destruct (p x) eqn:Ep; simpl.
  - destruct (in_dec dec x seen1) as [H1|H1];
      destruct (in_dec dec x seen2) as [H2|H2].
    + apply IH. exact Hs.
    + exfalso. apply H2. apply (Hs x Ep). exact H1.
    + exfalso. apply H1. apply (Hs x Ep). exact H2.
    + simpl. rewrite Ep. f_equal. apply IH.
      intros y Hy. simpl. rewrite (Hs y Hy). tauto.
  - destruct (in_dec dec x seen2) as [H2|H2].
    + apply IH. exact Hs.
    + simpl. rewrite Ep. apply IH.
      intros y Hy. simpl. rewrite (Hs y Hy). split; [auto|].
      intros [->|H]; [congruence | exact H].
Qed.

Lemma drop_duplicates_filter {A : Type} (dec : forall x y : A, {x = y} + {x <> y})
    (p : A -> bool) (l : list A) :
  drop_duplicates dec (filter p l) = filter p (drop_duplicates dec l).
Proof. apply drop_dup_from_filter. tauto. Qed.

Lemma filter_idem {A : Type} (p : A -> bool) (l : list A) :
  filter p (filter p l) = filter p l.
Proof.
  induction l as [|x l IH]; simpl; [reflexivity|].
  destruct (p x) eqn:E; simpl; [rewrite E, IH|]; auto.
Qed.

(** X4.  Rows of tags that are not selected count for nothing: the pivot
    of a stream with a selection is the pivot, without a selection, of the
    table from which the rows of the other tags were removed.  Those rows
    take no part in the reconstruction of the times either. *)
Theorem unselected_rows_are_ignored :
  forall (df : DataFrame) (tags : list Z),
    prepared_rows (df_rows df) (Some tags)
    = reconstruct (drop_duplicates (Row_eq_dec Z.eq_dec)
                                   (filter (isin tags) (df_rows df))) /\
    _convert_single_dataframe (Some df) (Some tags)
    = _convert_single_dataframe (Some (on_rows (filter (isin tags)) df)) None /\
    _convert_single_dataframe (Some df) (Some tags)
    = _convert_single_dataframe (Some (on_rows (filter (isin tags)) df)) (Some tags).
Proof.
  intros df tags.
  assert (E : prepared_rows (df_rows df) (Some tags)
              = reconstruct (drop_duplicates (Row_eq_dec Z.eq_dec)
                                             (filter (isin tags) (df_rows df)))).
  { unfold prepared_rows, selected_rows. rewrite drop_duplicates_filter.
    reflexivity. }
  split; [exact E|]. split.
  - unfold _convert_single_dataframe. rewrite E. reflexivity.
  - unfold _convert_single_dataframe. rewrite E.
    unfold prepared_rows, selected_rows, on_rows. simpl.
    rewrite <- drop_duplicates_filter, filter_idem. reflexivity.
Qed.

(** ** What the reconstruction does to a table *)






(** ** A missing reading *)

(** X6.  A missing value among the rows of a tag makes [dropna] remove the
    value column of the tag, and the test of line 181 then fails on it: the
    loop body raises [KeyError] for the column, and the pivot of the stream
    raises. *)
Theorem missing_value_aborts_the_pivot :
  forall (df : DataFrame) (selected_tags : option (list Z)) (tag : Z)
         (group_df : list (Row Qc)),
    In (tag, group_df) (groupby_tag (prepared_rows (df_rows df) selected_tags)) ->
    Exists (fun r => r_values r = None) group_df ->
    (forall new_df tag_name,
        Catalog._tag_name tag = Ok tag_name ->
        pivot_tag (df_has_quality df) new_df tag group_df
        = Raise (KeyError_column tag_name)) /\
    exists e, _convert_single_dataframe (Some df) selected_tags = Raise e.
Proof.
  intros df selected_tags tag group_df Hin Hmiss.
  assert (Hc : complete_values group_df = false).
  { apply not_true_is_false. intros H. unfold complete_values in H.
    rewrite forallb_forall in H. apply Exists_exists in Hmiss.
    destruct Hmiss as [r [Hr E]]. specialize (H r Hr). rewrite E in H.
    discriminate H. }
  assert (Hne : group_df <> []).
  { intros ->. inversion Hmiss. }
  assert (Hraise : forall new_df,
             is_raise (pivot_tag (df_has_quality df) new_df tag group_df) = true).
  { intros new_df. rewrite pivot_tag_eq.
    destruct (Catalog._tag_name tag); [|reflexivity]. cbv zeta.
    destruct group_df; [congruence|]. rewrite Hc. reflexivity. }
  split.
  - intros new_df tag_name Hname. rewrite pivot_tag_eq, Hname. cbv zeta.
    destruct group_df; [congruence|]. rewrite Hc. reflexivity.
  - assert (H := pivot_groups_raise _ _ _ _ Hin Hraise empty_frame).
    unfold _convert_single_dataframe.
    destruct (pivot_groups _ _ _) as [f|e]; [discriminate | eauto].
Qed.

Lemma missing_value_aborts_the_pivot_witness :
  exists e, _convert_single_dataframe (Some missing_value_table) (Some [6]) = Raise e.
Proof.
  apply (missing_value_aborts_the_pivot missing_value_table (Some [6]) 6
           (prepared_rows (df_rows missing_value_table) (Some [6]))).
  - left. reflexivity.
  - right. left. reflexivity.
Defined.

(** ** The shape of the frames *)

Lemma StronglySorted_impl {A : Type} (R R' : A -> A -> Prop) (l : list A) :
  (forall x y, R x y -> R' x y) -> StronglySorted R l -> StronglySorted R' l.
Proof.
  intros H S. induction S as [|a l S IH F]; constructor; [exact IH|].
  eapply Forall_impl; [|exact F]. intros y. apply H.
Qed.

Lemma sorted_keys_Qclt (l : list Qc) :
  StronglySorted Qclt (sorted_keys Qccompare l).
Proof.
  apply (StronglySorted_impl (key_lt Qccompare)).
  - intros x y H. apply Qclt_alt. exact H.
  - apply sorted_keys_sorted. exact Qc_total_cmp.
Qed.

Lemma columns_overlap_false (l r : WideFrame) :
  columns_overlap l r = false <->
  forall c, In c (wf_columns l) -> ~ In c (wf_columns r).
Proof.
  unfold columns_overlap. split.
  - intros H c Hl Hr.
    assert (E : existsb (fun c => existsb (String.eqb c) (wf_columns l))
                        (wf_columns r) = true).
    { apply existsb_exists. exists c. split; [exact Hr|].
      apply existsb_exists. exists c. split; [exact Hl | apply String.eqb_refl]. }
    congruence.
  - intros H. apply not_true_is_false. intros E. apply existsb_exists in E.
    destruct E as [c [Hr E]]. apply existsb_exists in E.
    destruct E as [c' [Hl E]]. apply String.eqb_eq in E. subst c'.
    exact (H c Hl Hr).
Qed.

Lemma cells_at_length (f : WideFrame) (t : Qc) :
  Forall (fun row => List.length (snd row) = List.length (wf_columns f))
         (wf_rows f) ->
  List.length (cells_at f t) = List.length (wf_columns f).
Proof.
  intros H. unfold cells_at. destruct (find _ _) as [row|] eqn:E.
  - apply find_some in E. destruct E as [Hin _].
    rewrite Forall_forall in H. apply H. exact Hin.
  - apply repeat_length.
Qed.

Lemma join_outer_ok (l r j : WideFrame) :
  NoDup (wf_columns l) -> NoDup (wf_columns r) ->
  Forall (fun row => List.length (snd row) = List.length (wf_columns l))
         (wf_rows l) ->
  Forall (fun row => List.length (snd row) = List.length (wf_columns r))
         (wf_rows r) ->
  join_outer l r = Ok j -> frame_ok j.
Proof.
  intros Nl Nr Wl Wr. unfold join_outer.
  destruct (columns_overlap l r) eqn:Eo; [discriminate|].
  intros E. injection E as <-. unfold frame_ok, wf_index.
  cbn [wf_columns wf_rows]. split; [|split].
  - rewrite map_map. cbn [fst]. rewrite map_id. apply sorted_keys_Qclt.
  - apply NoDup_app; [exact Nl | exact Nr |].
    apply columns_overlap_false. exact Eo.
  - apply Forall_forall. intros row Hin. apply in_map_iff in Hin.
    destruct Hin as [t [<- _]]. cbn [snd].
    rewrite !length_app, !cells_at_length by assumption. reflexivity.
Qed.

Lemma sub_frame_dropna_widths has_quality tag_name quality_name group_df :
  Forall (fun row =>
            List.length (snd row) =
            List.length (wf_columns (dropna_columns
                           (sub_frame has_quality tag_name quality_name group_df))))
         (wf_rows (dropna_columns
                     (sub_frame has_quality tag_name quality_name group_df))).
Proof.
  unfold dropna_columns. rewrite sub_frame_notna_mask. unfold sub_frame.
  apply Forall_forall. intros row Hin.
  destruct has_quality, (complete_values group_df), (complete_quality group_df);
    cbn in Hin |- *; rewrite map_map in Hin; apply in_map_iff in Hin;
    destruct Hin as [r [<- _]]; reflexivity.
Qed.

Lemma sub_frame_dropna_NoDup has_quality tag tag_name group_df :
  NoDup (wf_columns (dropna_columns
           (sub_frame has_quality tag_name (quality_name_of tag tag_name) group_df))).
Proof.
  rewrite sub_frame_dropna_columns.
  pose proof (quality_name_fresh tag tag_name) as Hne.
  destruct (complete_values group_df), (has_quality && complete_quality group_df);
    simpl; repeat constructor; simpl; intuition.
Qed.

Lemma In_insert_row row x rows :
  In x (insert_row row rows) <-> x = row \/ In x rows.
Proof.
  induction rows as [|r rows IH]; simpl.
  - intuition.
  - destruct (Qccompare (fst row) (fst r)); simpl; try rewrite IH; intuition.
Qed.

Lemma In_sort_index (f : WideFrame) x :
  In x (wf_rows (sort_index f)) <-> In x (wf_rows f).
Proof.
  unfold sort_index. cbn [wf_rows].
  induction (wf_rows f) as [|r rows IH]; simpl; [tauto|].
  rewrite In_insert_row, IH. intuition.
Qed.

Lemma empty_frame_ok : frame_ok empty_frame.
Proof. repeat constructor. Qed.

Lemma pivot_tag_ok has_quality new_df tag group_df f :
  frame_ok new_df ->
  pivot_tag has_quality new_df tag group_df = Ok f -> frame_ok f.
Proof.
  intros Hok. rewrite pivot_tag_eq.
  destruct (Catalog._tag_name tag) as [tag_name|e]; [|discriminate]. cbv zeta.
  destruct group_df as [|r g]; [intros E; injection E as <-; exact Hok|].
  destruct (negb _); [discriminate|].
  destruct (all_zero _); [intros E; injection E as <-; exact Hok|].
  destruct (is_unique _); [|discriminate].
  destruct Hok as [_ [Nn Wn]]. apply join_outer_ok; try assumption.
  - apply sub_frame_dropna_NoDup.
  - apply Forall_forall. intros row Hin. apply (proj1 (In_sort_index _ _)) in Hin.
    pose proof (sub_frame_dropna_widths has_quality tag_name
                  (quality_name_of tag tag_name) (r :: g)) as H.
    rewrite Forall_forall in H. exact (H row Hin).
Qed.

Lemma pivot_groups_ok has_quality groups :
  forall new_df f,
    frame_ok new_df ->
    pivot_groups has_quality new_df groups = Ok f -> frame_ok f.
Proof.
  induction groups as [|[tag g] groups IH]; intros new_df f Hok; simpl.
  - intros E. injection E as <-. exact Hok.
  - destruct (pivot_tag has_quality new_df tag g) as [new_df'|e] eqn:Ep; simpl;
      [|discriminate].
    apply IH. exact (pivot_tag_ok _ _ _ _ _ Hok Ep).
Qed.

Lemma _convert_single_dataframe_ok df selected_tags f :
  _convert_single_dataframe df selected_tags = Ok f -> frame_ok f.
Proof.
  destruct df as [df|]; simpl.
  - apply pivot_groups_ok. exact empty_frame_ok.
  - intros E. injection E as <-. exact empty_frame_ok.
Qed.

Lemma join_frames_ok dataframes :
  forall acc,
    frame_ok acc -> Forall frame_ok dataframes ->
    frame_ok (fst (join_frames acc dataframes)).
Proof.
  induction dataframes as [|df rest IH]; intros acc Hacc Hall; simpl.
  - exact Hacc.
  - inversion Hall as [|? ? Hdf Hrest]; subst.
    destruct (join_outer acc df) as [j|e] eqn:Ej; [|exact Hacc].
    apply IH; [|exact Hrest].
    destruct Hacc as [_ [Na Wa]]. destruct Hdf as [_ [Nd Wd]].
    exact (join_outer_ok _ _ _ Na Nd Wa Wd Ej).
Qed.

Lemma derive_acc_mag_frame (f : WideFrame) : d_frame (derive_acc_mag f) = f.
Proof.
  unfold derive_acc_mag. destruct (forallb _ _); reflexivity.
Qed.

Lemma derive_acc_mag_length (f : WideFrame) col :
  d_acc_mag (derive_acc_mag f) = Some col ->
  List.length col = List.length (wf_rows f).
Proof.
  unfold derive_acc_mag. destruct (forallb _ _); simpl; [|discriminate].
  intros E. injection E as <-. unfold acc_mag_column. apply length_map.
Qed.

(** X7.  Every frame the reader builds is well formed.  The pivot of a
    stream, when it returns, returns a frame whose index ascends strictly
    (so no time occurs twice), whose column names are distinct and whose
    rows have one cell per column.  The same holds for the combined table
    after a [_join] that returns, and [acc_mag], when derived, has one entry
    per row of it. *)
Theorem frames_are_well_formed :
  (forall (df : option DataFrame) (selected_tags : option (list Z)) (f : WideFrame),
      _convert_single_dataframe df selected_tags = Ok f -> frame_ok f) /\
  (forall (self : EverionReader),
      snd (_join self) = Ok tt ->
      exists x, data (fst (_join self)) = Some x /\
                frame_ok (d_frame x) /\
                forall col, d_acc_mag x = Some col ->
                            List.length col = List.length (wf_rows (d_frame x))).
Proof.
  split; [exact _convert_single_dataframe_ok|].
  intros self. rewrite _join_eq.
  destruct (_convert_single_dataframe (signals self) _) as [sig|e] eqn:E1;
    [|discriminate].
  destruct (_convert_single_dataframe (features self) _) as [fea|e] eqn:E2;
    [|discriminate].
  destruct (_convert_single_dataframe (sensors self) _) as [sen|e] eqn:E3;
    [|discriminate].
  assert (Hok : frame_ok (fst (join_frames empty_frame [sig; fea; sen]))).
  { apply join_frames_ok; [exact empty_frame_ok|].
    repeat constructor; eapply _convert_single_dataframe_ok; eassumption. }
  destruct (join_frames empty_frame [sig; fea; sen]) as [f [[]|e]];
    [|discriminate].
  intros _. exists (derive_acc_mag f). cbn [fst set_data data].
  split; [reflexivity|]. rewrite derive_acc_mag_frame.
  split; [exact Hok | apply derive_acc_mag_length].
Qed.

(** ** Where the columns and the index of a stream's frame come from *)

Lemma join_outer_index (l r j : WideFrame) :
  join_outer l r = Ok j ->
  wf_index j = sorted_keys Qccompare (wf_index l ++ wf_index r).
Proof.
  unfold join_outer. destruct (columns_overlap l r); [discriminate|].
  intros E. injection E as <-. unfold wf_index at 1. cbn [wf_rows].
  rewrite map_map. cbn [fst]. apply map_id.
Qed.

Lemma sort_index_index_In (f : WideFrame) (t : Qc) :
  In t (wf_index (sort_index f)) <-> In t (wf_index f).
Proof.
  unfold wf_index. rewrite !in_map_iff.
  split; intros [x [E H]]; exists x; (split; [exact E|]).
  - apply (proj1 (In_sort_index _ _)). exact H.
  - apply (proj2 (In_sort_index _ _)). exact H.
Qed.

Lemma pivot_tag_columns has_quality new_df tag group_df f :
  pivot_tag has_quality new_df tag group_df = Ok f ->
  wf_columns f = wf_columns new_df ++ tag_columns has_quality tag group_df /\
  (forall t, In t (wf_index f) <->
             In t (wf_index new_df) \/
             (all_zero (map r_values group_df) = false /\
              In t (map r_time group_df))).
Proof.
  rewrite pivot_tag_eq. unfold tag_columns.
  destruct (Catalog._tag_name tag) as [tag_name|e]; [|discriminate]. cbv zeta.
  destruct group_df as [|r g].
  - intros E. injection E as <-. simpl. rewrite app_nil_r.
    split; [reflexivity|]. intros t. split; [auto|].
    intros [H|[H _]]; [exact H | discriminate H].
  - cbv iota. generalize (r :: g). intros g'.
    destruct (complete_values g') eqn:Ec; cbn [negb]; [|discriminate].
    destruct (all_zero (map r_values g')) eqn:Ez.
    + intros E. injection E as <-. rewrite app_nil_r.
      split; [reflexivity|]. intros t. split; [auto|].
      intros [H|[H _]]; [exact H | discriminate H].
    + destruct (is_unique _); [|discriminate]. intros Ej. split.
      * rewrite (join_outer_columns _ _ _ Ej). f_equal.
        cbn [sort_index wf_columns]. rewrite sub_frame_dropna_columns, Ec.
        reflexivity.
      * intros t. rewrite (join_outer_index _ _ _ Ej).
        rewrite In_sorted_keys by exact Qc_total_cmp.
        rewrite in_app_iff, sort_index_index_In, sub_frame_dropna_index.
        intuition.
Qed.

Lemma pivot_groups_columns has_quality groups :
  forall new_df f,
    pivot_groups has_quality new_df groups = Ok f ->
    wf_columns f =
    wf_columns new_df
    ++ flat_map (fun g => tag_columns has_quality (fst g) (snd g)) groups /\
    (forall t, In t (wf_index f) <->
               In t (wf_index new_df) \/
               exists tag group_df,
                 In (tag, group_df) groups /\
                 all_zero (map r_values group_df) = false /\
                 In t (map r_time group_df)).
Proof.
  induction groups as [|[tag g] groups IH]; intros new_df f; simpl.
  - intros E. injection E as <-. rewrite app_nil_r. split; [reflexivity|].
    intros t. split; [auto|]. intros [H|[tag [g [[] _]]]]. exact H.
  - destruct (pivot_tag has_quality new_df tag g) as [new_df'|e] eqn:Ep; simpl;
      [|discriminate].
    intros Eg. destruct (pivot_tag_columns _ _ _ _ _ Ep) as [C1 I1].
    destruct (IH _ _ Eg) as [C2 I2]. split.
    + rewrite C2, C1, app_assoc. reflexivity.
    + intros t. rewrite I2, I1. split.
      * intros [[H|H]|[tag' [g' [Hin H]]]].
        -- left. exact H.
        -- right. exists tag, g. split; [left; reflexivity | exact H].
        -- right. exists tag', g'. split; [right; exact Hin | exact H].
      * intros [H|[tag' [g' [[E|Hin] H]]]].
        -- left. left. exact H.
        -- injection E as <- <-. left. right. exact H.
        -- right. exists tag', g'. split; [exact Hin | exact H].
Qed.

Lemma convert_columns_and_index (df : DataFrame)
    (selected_tags : option (list Z)) (f : WideFrame) :
  _convert_single_dataframe (Some df) selected_tags = Ok f ->
  wf_columns f =
  flat_map (fun g => tag_columns (df_has_quality df) (fst g) (snd g))
           (groupby_tag (prepared_rows (df_rows df) selected_tags)) /\
  (forall t, In t (wf_index f) <->
             exists tag group_df,
               In (tag, group_df)
                  (groupby_tag (prepared_rows (df_rows df) selected_tags)) /\
               all_zero (map r_values group_df) = false /\
               In t (map r_time group_df)).
Proof.
  intros E. unfold _convert_single_dataframe in E.
  destruct (pivot_groups_columns _ _ _ _ E) as [C I]. split.
  - exact C.
  - intros t. rewrite I. split; [|auto]. intros [[]|H]. exact H.
Qed.

(** X8.  What the frame of a stream holds when the pivot returns.  Its
    columns are, tag after tag in ascending order of the tags, the columns
    each tag leaves: nothing for a tag that reads zero throughout, else the
    column of the tag's name followed, when the table has a quality column
    complete for the tag, by the quality column.  Its index holds exactly
    the reconstructed times of the rows of the tags that were not
    skipped. *)
Theorem pivot_columns_and_index :
  forall (df : DataFrame) (selected_tags : option (list Z)) (f : WideFrame),
    _convert_single_dataframe (Some df) selected_tags = Ok f ->
    let groups := groupby_tag (prepared_rows (df_rows df) selected_tags) in
    wf_columns f =
    flat_map (fun g => tag_columns (df_has_quality df) (fst g) (snd g)) groups /\
    (forall t, In t (wf_index f) <->
               exists tag group_df,
                 In (tag, group_df) groups /\
                 all_zero (map r_values group_df) = false /\
                 In t (map r_time group_df)).
Proof.
  intros df selected_tags f E groups.
  exact (convert_columns_and_index df selected_tags f E).
Qed.

Lemma pivot_columns_and_index_witness :
  exists f,
    _convert_single_dataframe (Some zero_filled_table) (Some [6; 7]) = Ok f /\
    wf_columns f =
    flat_map (fun g => tag_columns false (fst g) (snd g))
             (groupby_tag (prepared_rows (df_rows zero_filled_table)
                                         (Some [6; 7]))) /\
    wf_columns f = ["heart_rate"%string].
Proof.
  destruct (_convert_single_dataframe (Some zero_filled_table) (Some [6; 7]))
    as [f|e] eqn:E; [|vm_compute in E; discriminate E].
  exists f. split; [reflexivity|].
  split; [exact (proj1 (pivot_columns_and_index zero_filled_table _ f E))|].
  vm_compute in E. injection E as <-. reflexivity.
Defined.

(** ** Clashing column names *)

Lemma NoDup_flat_map_apart {A B : Type} (F : A -> list B) (l : list A)
    (x y : A) (c : B) :
  NoDup l -> NoDup (flat_map F l) ->
  In x l -> In y l -> In c (F x) -> In c (F y) -> x = y.
Proof.
  induction l as [|a l IH]; simpl; [contradiction|].
  intros Nl Nf Hx Hy Cx Cy.
  inversion Nl as [|? ? Ha Nl']; subst.
  assert (Hsplit : NoDup (F a) /\ NoDup (flat_map F l) /\
                   forall b, In b (F a) -> ~ In b (flat_map F l)).
  { clear -Nf. split; [|split].
    - exact (NoDup_app_remove_r _ _ Nf).
    - exact (NoDup_app_remove_l _ _ Nf).
    - revert Nf. generalize (flat_map F l) as m. intros m.
      induction (F a) as [|b bs IHb]; simpl; [contradiction|].
      intros Nf b' [<-|Hb'].
      + inversion Nf as [|? ? Hn _]; subst. intros Hm. apply Hn.
        apply in_or_app. right. exact Hm.
      + inversion Nf as [|? ? _ Nf']; subst. exact (IHb Nf' b' Hb'). }
  destruct Hsplit as [_ [Nf' Hapart]].
  destruct Hx as [<-|Hx], Hy as [<-|Hy].
  - reflexivity.
  - exfalso. apply (Hapart c Cx). apply in_flat_map. eauto.
  - exfalso. apply (Hapart c Cy). apply in_flat_map. eauto.
  - exact (IH Nl' Nf' Hx Hy Cx Cy).
Qed.

Lemma groupby_tag_NoDup (df : list (Row Qc)) : NoDup (groupby_tag df).
Proof.
  assert (H : NoDup (map fst (groupby_tag df))).
  { rewrite groupby_tag_keys. apply sorted_keys_NoDup. exact Z_total_cmp. }
  exact (NoDup_map_inv _ _ H).
Qed.

(** X9.  Two tags that would leave a column of the same name cannot both
    be pivoted: the join of line 185 refuses the second, and the pivot of
    the stream raises.  (Tag 68 is named [heart_rate_quality], which is also
    the name of the quality column of tag 6.) *)
Theorem clashing_column_names_abort_the_pivot :
  forall (df : DataFrame) (selected_tags : option (list Z))
         (tag1 tag2 : Z) (g1 g2 : list (Row Qc)) (c : string),
    let groups := groupby_tag (prepared_rows (df_rows df) selected_tags) in
    In (tag1, g1) groups -> In (tag2, g2) groups -> tag1 <> tag2 ->
    In c (tag_columns (df_has_quality df) tag1 g1) ->
    In c (tag_columns (df_has_quality df) tag2 g2) ->
    exists e, _convert_single_dataframe (Some df) selected_tags = Raise e.
Proof.
  intros df selected_tags tag1 tag2 g1 g2 c groups H1 H2 Hne C1 C2.
  destruct (_convert_single_dataframe (Some df) selected_tags) as [f|e] eqn:E;
    [|eauto].
  exfalso. apply Hne.
  pose proof (_convert_single_dataframe_ok _ _ _ E) as [_ [Nc _]].
  destruct (convert_columns_and_index df selected_tags f E) as [C _].
  rewrite C in Nc.
  assert (Heq : (tag1, g1) = (tag2, g2)).
  { apply (NoDup_flat_map_apart
             (fun g => tag_columns (df_has_quality df) (fst g) (snd g))
             groups _ _ c); try assumption.
    apply groupby_tag_NoDup. }
  congruence.
Qed.

Lemma clashing_column_names_abort_the_pivot_witness :
  exists e,
    _convert_single_dataframe (Some clashing_names_table) (Some [6; 68])
    = Raise e.
Proof.
  apply (clashing_column_names_abort_the_pivot clashing_names_table
           (Some [6; 68]) 6 68
           (filter (fun r => Z.eqb (r_tag r) 6)
                   (prepared_rows (df_rows clashing_names_table) (Some [6; 68])))
           (filter (fun r => Z.eqb (r_tag r) 68)
                   (prepared_rows (df_rows clashing_names_table) (Some [6; 68])))
           "heart_rate_quality"%string).
  - left. reflexivity.
  - right. left. reflexivity.
  - discriminate.
  - vm_compute. right. left. reflexivity.
  - vm_compute. left. reflexivity.
Defined.

(** ** Where the readings end up *)

Lemma find_map_key {B : Type} (G : Qc -> B) (keys : list Qc) (t : Qc) :
  find (fun row => key_eqb Qccompare t (fst row))
       (map (fun t' => (t', G t')) keys)
  = if existsb (key_eqb Qccompare t) keys then Some (t, G t) else None.
Proof.
  induction keys as [|k keys IH]; simpl; [reflexivity|].
  destruct (key_eqb Qccompare t k) eqn:E; simpl; [|exact IH].
  apply Qc_key_eqb_eq in E. subst k. reflexivity.
Qed.

Lemma find_none_index (f : WideFrame) (t : Qc) :
  ~ In t (wf_index f) ->
  find (fun row => key_eqb Qccompare t (fst row)) (wf_rows f) = None.
Proof.
  intros Hn. destruct (find _ _) as [row|] eqn:E; [|reflexivity].
  exfalso. apply find_some in E. destruct E as [Hin E].
  apply Qc_key_eqb_eq in E. apply Hn. subst t. unfold wf_index.
  apply in_map. exact Hin.
Qed.

Lemma cells_at_join (l r j : WideFrame) :
  join_outer l r = Ok j ->
  forall t, cells_at j t = cells_at l t ++ cells_at r t.
Proof.
  unfold join_outer. destruct (columns_overlap l r); [discriminate|].
  intros E. injection E as <-. intros t.
  unfold cells_at at 1. cbn [wf_rows wf_columns]. rewrite find_map_key.
  destruct (existsb _ _) eqn:Ee; [reflexivity|].
  assert (Hn : ~ In t (wf_index l ++ wf_index r)).
  { intros Hin.
    apply (In_sorted_keys Qccompare Qc_total_cmp) in Hin.
    apply existsb_key_eqb_In in Hin. congruence. }
  unfold cells_at. rewrite !find_none_index.
  - rewrite length_app, repeat_app. reflexivity.
  - intros H. apply Hn. apply in_or_app. right. exact H.
  - intros H. apply Hn. apply in_or_app. left. exact H.
Qed.

Lemma index_of_lt name cols :
  forall j, index_of name cols = Some j -> (j < List.length cols)%nat.
Proof.
  induction cols as [|c cols IH]; simpl; [discriminate|].
  destruct (String.eqb name c).
  - intros j E. injection E as <-. lia.
  - destruct (index_of name cols) as [i|]; simpl; [|discriminate].
    intros j E. injection E as <-. specialize (IH i eq_refl). lia.
Qed.

Lemma index_of_None name cols :
  index_of name cols = None <-> ~ In name cols.
Proof.
  induction cols as [|c cols IH]; simpl.
  - tauto.
  - destruct (String.eqb_spec name c) as [->|Hne].
    + split; [discriminate | intros H; exfalso; apply H; left; reflexivity].
    + destruct (index_of name cols) as [i|]; simpl.
      * split; [discriminate|]. intros H. exfalso.
        assert (Hn : ~ In name cols) by (intros Hin; apply H; right; exact Hin).
        apply IH in Hn. discriminate Hn.
      * split; [|reflexivity]. intros _ [E|Hin]; [congruence|].
        apply (proj1 IH eq_refl). exact Hin.
Qed.

Lemma index_of_app_l name a b :
  forall j, index_of name a = Some j -> index_of name (a ++ b) = Some j.
Proof.
  induction a as [|c a IH]; simpl; [discriminate|].
  destruct (String.eqb name c); [auto|].
  destruct (index_of name a) as [i|]; simpl; [|discriminate].
  intros j E. rewrite (IH i eq_refl). exact E.
Qed.

Lemma index_of_app_r name a b :
  index_of name a = None ->
  index_of name (a ++ b)
  = option_map (Nat.add (List.length a)) (index_of name b).
Proof.
  induction a as [|c a IH]; simpl.
  - intros _. destruct (index_of name b); reflexivity.
  - destruct (String.eqb name c); [discriminate|].
    destruct (index_of name a) as [i|]; simpl; [discriminate|].
    intros _. rewrite (IH eq_refl). destruct (index_of name b); reflexivity.
Qed.

Lemma frame_cell_join (l r j : WideFrame) :
  Forall (fun row => List.length (snd row) = List.length (wf_columns l))
         (wf_rows l) ->
  join_outer l r = Ok j ->
  forall t name,
    frame_cell j t name =
    match frame_cell l t name with
    | Some c => Some c
    | None => frame_cell r t name
    end.
Proof.
  intros Wl Ej t name. unfold frame_cell.
  rewrite (join_outer_columns _ _ _ Ej), (cells_at_join _ _ _ Ej).
  destruct (index_of name (wf_columns l)) as [i|] eqn:Ei.
  - rewrite (index_of_app_l _ _ _ _ Ei). simpl. f_equal. apply app_nth1.
    rewrite cells_at_length by exact Wl. exact (index_of_lt _ _ _ Ei).
  - rewrite (index_of_app_r _ _ _ Ei). simpl.
    destruct (index_of name (wf_columns r)) as [i|]; simpl; [|reflexivity].
    f_equal. rewrite <- (cells_at_length l t Wl). apply app_nth2_plus.
Qed.

Lemma NoDup_map_inj_on {A B : Type} (h : A -> B) (l : list A) (x y : A) :
  NoDup (map h l) -> In x l -> In y l -> h x = h y -> x = y.
Proof.
  induction l as [|a l IH]; simpl; [contradiction|].
  intros N Hx Hy E. inversion N as [|? ? Hn N']; subst.
  destruct Hx as [<-|Hx], Hy as [<-|Hy].
  - reflexivity.
  - exfalso. apply Hn. rewrite E. apply in_map. exact Hy.
  - exfalso. apply Hn. rewrite <- E. apply in_map. exact Hx.
  - exact (IH N' Hx Hy E).
Qed.

Lemma find_unique {A : Type} (p : A -> bool) (l : list A) (x : A) :
  (forall y, In y l -> p y = true -> y = x) ->
  In x l -> p x = true -> find p l = Some x.
Proof.
  intros Hu Hin Hp. destruct (find p l) as [a|] eqn:E.
  - apply find_some in E. destruct E as [Ha Pa]. f_equal. exact (Hu a Ha Pa).
  - pose proof (find_none _ _ E x Hin). congruence.
Qed.

Lemma find_map_comp {A B : Type} (p : B -> bool) (F : A -> B) (l : list A) :
  find p (map F l) = option_map F (find (fun x => p (F x)) l).
Proof.
  induction l as [|a l IH]; simpl; [reflexivity|].
  destruct (p (F a)); [reflexivity | exact IH].
Qed.

Lemma cells_at_sort_index (f : WideFrame) (t : Qc) :
  NoDup (wf_index f) -> cells_at (sort_index f) t = cells_at f t.
Proof.
  intros N. unfold cells_at.
  change (wf_columns (sort_index f)) with (wf_columns f).
  set (p := fun row : Qc * list (option Qc) => key_eqb Qccompare t (fst row)).
  destruct (find p (wf_rows f)) as [row|] eqn:E.
  - apply find_some in E. destruct E as [Hin Hp].
    rewrite (find_unique p _ row); [reflexivity| |
      apply (proj2 (In_sort_index _ _)); exact Hin | exact Hp].
    intros y Hy Py. apply (proj1 (In_sort_index _ _)) in Hy.
    apply (NoDup_map_inj_on fst (wf_rows f)); try assumption.
    unfold p in Hp, Py. apply Qc_key_eqb_eq in Hp, Py. congruence.
  - destruct (find p (wf_rows (sort_index f))) as [row|] eqn:E2; [|reflexivity].
    exfalso. apply find_some in E2. destruct E2 as [Hin Hp].
    apply (proj1 (In_sort_index _ _)) in Hin.
    pose proof (find_none _ _ E row Hin). congruence.
Qed.

(** The cells of the sub-table of a tag whose values are complete. *)
Lemma sub_frame_cells has_quality tag tag_name group_df t :
  complete_values group_df = true ->
  let sub_df := dropna_columns (sub_frame has_quality tag_name
                                  (quality_name_of tag tag_name) group_df) in
  frame_cell sub_df t tag_name = Some (reading_at r_values group_df t) /\
  (has_quality = true -> complete_quality group_df = true ->
   frame_cell sub_df t (quality_name_of tag tag_name)
   = Some (reading_at r_quality group_df t)).
Proof.
  intros Ec sub_df. pose proof (quality_name_fresh tag tag_name) as Hne.
  apply not_eq_sym in Hne. apply String.eqb_neq in Hne.
  unfold frame_cell, reading_at, cells_at, sub_df, dropna_columns.
  rewrite sub_frame_notna_mask, Ec. unfold sub_frame.
  destruct has_quality; cbn [wf_columns wf_rows select index_of option_map];
    rewrite map_map, find_map_comp; cbn [fst snd];
    rewrite ?String.eqb_refl; cbn [option_map].
  - split.
    + destruct (find _ group_df) as [r|]; simpl;
        destruct (complete_quality group_df); reflexivity.
    + intros _ Eq. rewrite Eq, Hne. simpl. rewrite String.eqb_refl. simpl.
      destruct (find _ group_df) as [r|]; reflexivity.
  - split; [|discriminate].
    destruct (find _ group_df) as [r|]; reflexivity.
Qed.

Lemma frame_cell_None (f : WideFrame) (t : Qc) (c : string) :
  frame_cell f t c = None <-> ~ In c (wf_columns f).
Proof.
  rewrite <- index_of_None. unfold frame_cell.
  destruct (index_of c (wf_columns f)); simpl; split; congruence.
Qed.

Lemma join_outer_apart (l r j : WideFrame) :
  join_outer l r = Ok j ->
  forall c, In c (wf_columns l) -> ~ In c (wf_columns r).
Proof.
  unfold join_outer. destruct (columns_overlap l r) eqn:Eo; [discriminate|].
  intros _. apply columns_overlap_false. exact Eo.
Qed.

Lemma pivot_tag_cells has_quality new_df tag group_df f :
  frame_ok new_df ->
  pivot_tag has_quality new_df tag group_df = Ok f ->
  (forall t c v, frame_cell new_df t c = Some v -> frame_cell f t c = Some v) /\
  (forall tag_name,
      Catalog._tag_name tag = Ok tag_name ->
      all_zero (map r_values group_df) = false ->
      NoDup (map r_time group_df) /\
      forall t,
        frame_cell f t tag_name = Some (reading_at r_values group_df t) /\
        (has_quality = true -> complete_quality group_df = true ->
         frame_cell f t (quality_name_of tag tag_name)
         = Some (reading_at r_quality group_df t))).
Proof.
  intros [_ [Nn Wn]]. rewrite pivot_tag_eq.
  destruct (Catalog._tag_name tag) as [name|e]; [|discriminate]. cbv zeta.
  destruct group_df as [|r g].
  - intros E. injection E as <-. split; [auto|].
    intros tag_name _ H. discriminate H.
  - cbv iota. generalize (r :: g). intros g'.
    destruct (complete_values g') eqn:Ec; cbn [negb]; [|discriminate].
    destruct (all_zero (map r_values g')) eqn:Ez.
    + intros E. injection E as <-. split; [auto|].
      intros tag_name _ H. discriminate H.
    + destruct (is_unique (map r_time g')) eqn:Eu; [|discriminate]. intros Ej.
      pose proof (frame_cell_join _ _ _ Wn Ej) as Hj.
      split.
      * intros t c v H. rewrite Hj, H. reflexivity.
      * intros tag_name En _. injection En as <-.
        apply is_unique_NoDup in Eu. split; [exact Eu|]. intros t.
        remember (dropna_columns (sub_frame has_quality name
                                    (quality_name_of tag name) g')) as sub eqn:Es.
        assert (Hs : forall c, frame_cell (sort_index sub) t c = frame_cell sub t c).
        { intros c. unfold frame_cell. rewrite cells_at_sort_index; [reflexivity|].
          rewrite Es, sub_frame_dropna_index. exact Eu. }
        assert (Hfresh : forall c v, frame_cell sub t c = Some v ->
                                     frame_cell new_df t c = None).
        { intros c v H. apply frame_cell_None. intros Hin.
          apply (join_outer_apart _ _ _ Ej c Hin).
          change (wf_columns (sort_index sub)) with (wf_columns sub).
          destruct (in_dec string_dec c (wf_columns sub)) as [Hc|Hc]; [exact Hc|].
          apply (frame_cell_None sub t) in Hc. congruence. }
        destruct (sub_frame_cells has_quality tag name g' t Ec) as [Hv Hq].
        rewrite <- Es in Hv, Hq. split.
        -- rewrite Hj, (Hfresh _ _ Hv), Hs. exact Hv.
        -- intros Eh Eq. specialize (Hq Eh Eq).
           rewrite Hj, (Hfresh _ _ Hq), Hs. exact Hq.
Qed.

Lemma pivot_groups_cells has_quality groups :
  forall new_df f,
    frame_ok new_df ->
    pivot_groups has_quality new_df groups = Ok f ->
    (forall t c v, frame_cell new_df t c = Some v -> frame_cell f t c = Some v) /\
    (forall tag group_df tag_name,
        In (tag, group_df) groups ->
        Catalog._tag_name tag = Ok tag_name ->
        all_zero (map r_values group_df) = false ->
        NoDup (map r_time group_df) /\
        forall t,
          frame_cell f t tag_name = Some (reading_at r_values group_df t) /\
          (has_quality = true -> complete_quality group_df = true ->
           frame_cell f t (quality_name_of tag tag_name)
           = Some (reading_at r_quality group_df t))).
Proof.
  induction groups as [|[tag g] groups IH]; intros new_df f Hok; simpl.
  - intros E. injection E as <-. split; [auto|].
    intros tag g name [].
  - destruct (pivot_tag has_quality new_df tag g) as [new_df'|e] eqn:Ep; simpl;
      [|discriminate].
    intros Eg.
    destruct (pivot_tag_cells _ _ _ _ _ Hok Ep) as [P1 P2].
    destruct (IH _ _ (pivot_tag_ok _ _ _ _ _ Hok Ep) Eg) as [Q1 Q2].
    split.
    + intros t c v H. apply Q1. apply P1. exact H.
    + intros tag' g' name [E|Hin] Hname Hz.
      * injection E as <- <-. destruct (P2 name Hname Hz) as [Hnd Hcells].
        split; [exact Hnd|]. intros t. destruct (Hcells t) as [Hv Hq]. split.
        -- apply Q1. exact Hv.
        -- intros Eh Eq. apply Q1. exact (Hq Eh Eq).
      * exact (Q2 tag' g' name Hin Hname Hz).
Qed.

Lemma reading_at_row (field : Row Qc -> option Qc) (group_df : list (Row Qc))
    (r : Row Qc) :
  NoDup (map r_time group_df) -> In r group_df ->
  reading_at field group_df (r_time r) = field r.
Proof.
  intros N Hin. unfold reading_at. rewrite (find_unique _ _ r); [reflexivity| | |].
  - intros y Hy Py. apply Qc_key_eqb_eq in Py.
    apply (NoDup_map_inj_on r_time group_df); auto.
  - exact Hin.
  - apply Qc_key_eqb_eq. reflexivity.
Qed.

Lemma reading_at_absent (field : Row Qc -> option Qc) (group_df : list (Row Qc))
    (t : Qc) :
  ~ In t (map r_time group_df) -> reading_at field group_df t = None.
Proof.
  intros Hn. unfold reading_at. destruct (find _ _) as [r|] eqn:E; [|reflexivity].
  exfalso. apply find_some in E. destruct E as [Hin E].
  apply Qc_key_eqb_eq in E. apply Hn. subst t. apply in_map. exact Hin.
Qed.

(** X10.  Where the readings end up.  Take a tag of the stream that is not
    skipped, with its name.  In the frame the pivot returns, the column of
    that name holds, in the row of the reconstructed time of each row of the
    tag, the value of that row, and a missing value in every row of a time
    at which the tag has no row.  When the table has a quality column that
    is complete for the tag, the quality column of the tag is filled in the
    same way. *)
Theorem readings_land_in_their_cells :
  forall (df : DataFrame) (selected_tags : option (list Z)) (f : WideFrame)
         (tag : Z) (group_df : list (Row Qc)) (tag_name : string),
    _convert_single_dataframe (Some df) selected_tags = Ok f ->
    In (tag, group_df) (groupby_tag (prepared_rows (df_rows df) selected_tags)) ->
    Catalog._tag_name tag = Ok tag_name ->
    all_zero (map r_values group_df) = false ->
    (forall r, In r group_df ->
               In (r_time r) (wf_index f) /\
               frame_cell f (r_time r) tag_name = Some (r_values r)) /\
    (forall t, ~ In t (map r_time group_df) ->
               frame_cell f t tag_name = Some None) /\
    (df_has_quality df = true -> complete_quality group_df = true ->
     (forall r, In r group_df ->
                frame_cell f (r_time r) (quality_name_of tag tag_name)
                = Some (r_quality r)) /\
     (forall t, ~ In t (map r_time group_df) ->
                frame_cell f t (quality_name_of tag tag_name) = Some None)).
Proof.
  intros df selected_tags f tag group_df tag_name E Hin Hname Hz.
  pose proof (convert_columns_and_index df selected_tags f E) as [_ Hidx].
  unfold _convert_single_dataframe in E.
  destruct (pivot_groups_cells _ _ _ _ empty_frame_ok E) as [_ H].
  destruct (H tag group_df tag_name Hin Hname Hz) as [Hnd Hcells].
  split; [|split].
  - intros r Hr. split.
    + apply Hidx. exists tag, group_df. split; [exact Hin|].
      split; [exact Hz | apply in_map; exact Hr].
    + rewrite (proj1 (Hcells (r_time r))). f_equal.
      apply reading_at_row; assumption.
  - intros t Ht. rewrite (proj1 (Hcells t)). f_equal.
    apply reading_at_absent. exact Ht.
  - intros Eh Eq. split.
    + intros r Hr. rewrite (proj2 (Hcells (r_time r)) Eh Eq). f_equal.
      apply reading_at_row; assumption.
    + intros t Ht. rewrite (proj2 (Hcells t) Eh Eq). f_equal.
      apply reading_at_absent. exact Ht.
Qed.

Lemma readings_land_in_their_cells_witness :
  exists f,
    _convert_single_dataframe (Some zero_filled_table) (Some [6; 7]) = Ok f /\
    forall r,
      In r (filter (fun r => Z.eqb (r_tag r) 6)
                   (prepared_rows (df_rows zero_filled_table) (Some [6; 7]))) ->
      In (r_time r) (wf_index f) /\
      frame_cell f (r_time r) "heart_rate" = Some (r_values r).
Proof.
  destruct (_convert_single_dataframe (Some zero_filled_table) (Some [6; 7]))
    as [f|e] eqn:E; [|vm_compute in E; discriminate E].
  exists f. split; [reflexivity|].
  refine (proj1 (readings_land_in_their_cells zero_filled_table (Some [6; 7]) f
                   6 _ "heart_rate" E _ _ _)).
  - left. reflexivity.
  - reflexivity.
  - vm_compute. reflexivity.
Defined.

(** ** The join of the three streams *)

Lemma _join_pivots (self : EverionReader) :
  _join self =
  match pivots self with
  | Raise e => (self, Raise e)
  | Ok (sig, fea, sen) =>
    match join_frames empty_frame [sig; fea; sen] with
    | (f, Ok _) => (set_data (derive_acc_mag f) self, Ok tt)
    | (f, Raise e) => (set_data (mkData f None) self, Raise e)
    end
  end.
Proof.
  rewrite _join_eq. unfold pivots.
  destruct (_convert_single_dataframe (signals self) _) as [sig|e]; [|reflexivity].
  destruct (_convert_single_dataframe (features self) _) as [fea|e]; [|reflexivity].
  destruct (_convert_single_dataframe (sensors self) _) as [sen|e]; reflexivity.
Qed.

Lemma pivots_set_data (d : Data) (self : EverionReader) :
  pivots (set_data d self) = pivots self.
Proof. reflexivity. Qed.

Lemma set_data_set_data (d d' : Data) (self : EverionReader) :
  set_data d (set_data d' self) = set_data d self.
Proof. reflexivity. Qed.

(** Once the pivots return, the outcome of [_join] does not depend on the
    combined table the reader held before. *)
Lemma _join_set_data (d : Data) (self : EverionReader) :
  is_raise (pivots self) = false ->
  _join (set_data d self) = _join self.
Proof.
  intros H. rewrite !_join_pivots, pivots_set_data.
  destruct (pivots self) as [[[sig fea] sen]|e]; [|discriminate H].
  destruct (join_frames empty_frame [sig; fea; sen]) as [f [[]|e]]; reflexivity.
Qed.

(** X11.  [_join] changes nothing of the reader but [data].  When one of
    the pivots raises, the reader is left exactly as it was, the old [data]
    included; otherwise [data] is replaced, also when the join of the frames
    raises.  The outcome never depends on the [data] held before, so that
    running [_join] a second time changes nothing. *)
Theorem join_replaces_only_data :
  forall (self : EverionReader),
    (is_raise (pivots self) = true -> fst (_join self) = self) /\
    (is_raise (pivots self) = false ->
     exists x, fst (_join self) = set_data x self /\
               forall d, _join (set_data d self) = _join self) /\
    _join (fst (_join self)) = _join self.
Proof.
  intros self. split; [|split].
  - intros H. rewrite _join_pivots.
    destruct (pivots self) as [p|e]; [discriminate H | reflexivity].
  - intros H. split with (x := match data (fst (_join self)) with
                               | Some x => x
                               | None => mkData empty_frame None
                               end).
    split; [|intros d; apply _join_set_data; exact H].
    rewrite _join_pivots.
    destruct (pivots self) as [[[sig fea] sen]|e]; [|discriminate H].
    destruct (join_frames empty_frame [sig; fea; sen]) as [f [[]|e]]; reflexivity.
  - destruct (is_raise (pivots self)) eqn:H.
    + assert (E : fst (_join self) = self).
      { rewrite _join_pivots.
        destruct (pivots self) as [p|e]; [discriminate H | reflexivity]. }
      rewrite E. reflexivity.
    + assert (E : exists x, fst (_join self) = set_data x self).
      { rewrite _join_pivots.
        destruct (pivots self) as [[[sig fea] sen]|e]; [|discriminate H].
        destruct (join_frames empty_frame [sig; fea; sen]) as [f [[]|e]];
          eexists; reflexivity. }
      destruct E as [x ->]. apply _join_set_data. exact H.
Qed.

(** ** Column names across the streams *)

Lemma tag_columns_names has_quality tag group_df c :
  In c (tag_columns has_quality tag group_df) ->
  exists tag_name,
    Catalog._tag_name tag = Ok tag_name /\
    (c = tag_name \/ c = quality_name_of tag tag_name).
Proof.
  unfold tag_columns.
  destruct (Catalog._tag_name tag) as [tag_name|e]; [|contradiction].
  destruct (all_zero _); [contradiction|].
  intros [<-|H]; [eauto|].
  destruct (has_quality && complete_quality group_df); [|contradiction].
  destruct H as [<-|[]]. eauto.
Qed.

Lemma stream_columns_named catalog df tags f c :
  (forall tag name, Catalog.get catalog tag = Some name ->
                    Catalog._tag_name tag = Ok name) ->
  Forall (fun t => Catalog.mem t catalog = true) tags ->
  _convert_single_dataframe df (Some tags) = Ok f ->
  In c (wf_columns f) -> In c (stream_names catalog).
Proof.
  intros Hcat Hvalid E Hc. destruct df as [df|].
  - destruct (convert_columns_and_index df (Some tags) f E) as [C _].
    rewrite C in Hc. apply in_flat_map in Hc.
    destruct Hc as [[tag g] [Hg Hc]]. cbn [fst snd] in Hc.
    apply group_tag_selected in Hg. destruct Hg as [Hin _].
    rewrite Forall_forall in Hvalid. specialize (Hvalid tag Hin).
    apply mem_get in Hvalid. destruct Hvalid as [name Hget].
    apply tag_columns_names in Hc. destruct Hc as [name' [Hname Hc]].
    rewrite (Hcat tag name Hget) in Hname. injection Hname as <-.
    unfold stream_names. apply in_flat_map. exists (tag, name).
    split; [apply get_In; exact Hget|].
    cbn [fst snd]. destruct Hc as [->| ->]; [left | right; left]; reflexivity.
  - simpl in E. injection E as <-. contradiction.
Qed.

Lemma signal_tag_name tag name :
  Catalog.get Catalog.SIGNAL_TAGS tag = Some name -> Catalog._tag_name tag = Ok name.
Proof. intros E. unfold Catalog._tag_name. rewrite E. reflexivity. Qed.

Lemma sensor_tag_name tag name :
  Catalog.get Catalog.SENSOR_TAGS tag = Some name -> Catalog._tag_name tag = Ok name.
Proof.
  intros E. unfold Catalog._tag_name.
  destruct (sensor_not_elsewhere tag name E) as [-> _]. rewrite E. reflexivity.
Qed.

Lemma feature_tag_name tag name :
  Catalog.get Catalog.FEATURE_TAGS tag = Some name -> Catalog._tag_name tag = Ok name.
Proof.
  intros E. unfold Catalog._tag_name.
  destruct (feature_not_elsewhere tag name E) as [-> ->]. rewrite E. reflexivity.
Qed.

Lemma apart_of_check (l1 l2 : list string) :
  forallb (fun c => negb (existsb (String.eqb c) l2)) l1 = true ->
  forall c, In c l1 -> ~ In c l2.
Proof.
  intros H c H1 H2. rewrite forallb_forall in H. specialize (H c H1).
  apply negb_true_iff in H.
  assert (E : existsb (String.eqb c) l2 = true).
  { apply existsb_exists. exists c. split; [exact H2 | apply String.eqb_refl]. }
  congruence.
Qed.

Lemma stream_names_apart :
  (forall c, In c (stream_names Catalog.SIGNAL_TAGS) ->
             ~ In c (stream_names Catalog.FEATURE_TAGS)) /\
  (forall c, In c (stream_names Catalog.SIGNAL_TAGS) ->
             ~ In c (stream_names Catalog.SENSOR_TAGS)) /\
  (forall c, In c (stream_names Catalog.FEATURE_TAGS) ->
             ~ In c (stream_names Catalog.SENSOR_TAGS)).
Proof.
  split; [|split]; apply apart_of_check; vm_compute; reflexivity.
Qed.

Lemma join_outer_returns (l r : WideFrame) :
  (forall c, In c (wf_columns l) -> ~ In c (wf_columns r)) ->
  exists j, join_outer l r = Ok j /\
            wf_columns j = wf_columns l ++ wf_columns r.
Proof.
  intros H. apply columns_overlap_false in H. unfold join_outer. rewrite H.
  eexists. split; reflexivity.
Qed.

Lemma validated_join_outcome (self : EverionReader) :
  Forall (fun t => Catalog.mem t Catalog.SIGNAL_TAGS = true)
         (selected_signal_tags self) ->
  Forall (fun t => Catalog.mem t Catalog.FEATURE_TAGS = true)
         (selected_feature_tags self) ->
  Forall (fun t => Catalog.mem t Catalog.SENSOR_TAGS = true)
         (selected_sensor_tags self) ->
  snd (_join self) = map_result (fun _ => tt) (pivots self).
Proof.
  intros Hsig Hfea Hsen. rewrite _join_pivots.
  destruct (pivots self) as [[[sig fea] sen]|e] eqn:Ep; [|reflexivity].
  unfold pivots in Ep.
  destruct (_convert_single_dataframe (signals self) _) as [sig'|e] eqn:E1;
    [|discriminate].
  destruct (_convert_single_dataframe (features self) _) as [fea'|e] eqn:E2;
    [|discriminate].
  destruct (_convert_single_dataframe (sensors self) _) as [sen'|e] eqn:E3;
    [|discriminate].
  simpl in Ep. injection Ep as -> -> ->.
  pose proof (fun c => stream_columns_named _ _ _ _ c signal_tag_name Hsig E1) as N1'.
  pose proof (fun c => stream_columns_named _ _ _ _ c feature_tag_name Hfea E2) as N2.
  pose proof (fun c => stream_columns_named _ _ _ _ c sensor_tag_name Hsen E3) as N3.
  destruct stream_names_apart as [A12 [A13 A23]].
  destruct (join_outer_returns empty_frame sig) as [j1 [J1 C1]];
    [intros c []|].
  destruct (join_outer_returns j1 fea) as [j2 [J2 C2]].
  { rewrite C1. simpl. intros c Hc Hc'. exact (A12 c (N1' c Hc) (N2 c Hc')). }
  destruct (join_outer_returns j2 sen) as [j3 [J3 C3]].
  { rewrite C2, C1. simpl. intros c Hc Hc'. apply in_app_or in Hc.
    destruct Hc as [Hc|Hc].
    - exact (A13 c (N1' c Hc) (N3 c Hc')).
    - exact (A23 c (N2 c Hc) (N3 c Hc')). }
  cbn [join_frames]. rewrite J1, J2, J3. reflexivity.
Qed.

(** X12.  With the tags the constructor accepts (each list within the
    catalog of its kind), the three frames never share a column name, so
    the joins of lines 151-152 never raise: [_join] fails only when one of
    the pivots does, and with the exception of that pivot. *)
Theorem validated_streams_never_clash :
  forall (self : EverionReader),
    Forall (fun t => Catalog.mem t Catalog.SIGNAL_TAGS = true)
           (selected_signal_tags self) ->
    Forall (fun t => Catalog.mem t Catalog.FEATURE_TAGS = true)
           (selected_feature_tags self) ->
    Forall (fun t => Catalog.mem t Catalog.SENSOR_TAGS = true)
           (selected_sensor_tags self) ->
    snd (_join self) = map_result (fun _ => tt) (pivots self).
Proof.
  intros self. exact (validated_join_outcome self).
Qed.

Lemma validated_streams_never_clash_witness :
  snd (_join accelerometer_reader)
  = map_result (fun _ => tt) (pivots accelerometer_reader).
Proof.
  apply validated_streams_never_clash; repeat constructor.
Defined.

(** ** Joining with the empty frame *)

Lemma insert_key_front (x : Qc) (l : list Qc) :
  Forall (Qclt x) l -> insert_key Qccompare x l = x :: l.
Proof.
  intros H. destruct l as [|y l]; [reflexivity|]. simpl.
  inversion H as [|? ? Hxy _]; subst.
  assert (E : Qccompare x y = Lt) by (apply Qclt_alt; exact Hxy).
  rewrite E. reflexivity.
Qed.

Lemma sorted_keys_of_sorted (l : list Qc) :
  StronglySorted Qclt l -> sorted_keys Qccompare l = l.
Proof.
  induction 1 as [|x l Hs IH Hx]; simpl; [reflexivity|].
  fold (sorted_keys Qccompare l). rewrite IH. apply insert_key_front. exact Hx.
Qed.

Lemma Qclt_sorted_NoDup (l : list Qc) : StronglySorted Qclt l -> NoDup l.
Proof.
  intros H. apply (sorted_NoDup Qccompare Qc_total_cmp).
  apply (StronglySorted_impl Qclt); [|exact H].
  intros x y Hxy. apply Qclt_alt. exact Hxy.
Qed.

Lemma cells_at_row (f : WideFrame) (row : Qc * list (option Qc)) :
  NoDup (wf_index f) -> In row (wf_rows f) -> cells_at f (fst row) = snd row.
Proof.
  intros N Hin. unfold cells_at. rewrite (find_unique _ _ row); [reflexivity| | |].
  - intros y Hy Py. apply Qc_key_eqb_eq in Py.
    apply (NoDup_map_inj_on fst (wf_rows f)); auto.
  - exact Hin.
  - apply Qc_key_eqb_eq. reflexivity.
Qed.

Lemma join_outer_empty_l (f : WideFrame) :
  frame_ok f -> join_outer empty_frame f = Ok f.
Proof.
  intros [Hs _]. unfold join_outer.
  rewrite (proj2 (columns_overlap_false empty_frame f)) by (intros c []).
  destruct f as [cols rows]. unfold wf_index in *. cbn [wf_columns wf_rows] in *.
  cbn [empty_frame wf_columns wf_rows map app]. f_equal. f_equal.
  rewrite (sorted_keys_of_sorted _ Hs), map_map.
  rewrite <- (map_id rows) at 2. apply map_ext_in. intros row Hin.
  pose proof (cells_at_row (mkWideFrame cols rows) row
                (Qclt_sorted_NoDup _ Hs) Hin) as E.
  unfold cells_at at 1. cbn [wf_rows wf_columns find List.length repeat app].
  rewrite E. destruct row; reflexivity.
Qed.

Lemma join_outer_empty_r (f : WideFrame) :
  frame_ok f -> join_outer f empty_frame = Ok f.
Proof.
  intros [Hs _]. unfold join_outer. cbn [columns_overlap empty_frame wf_columns existsb].
  destruct f as [cols rows]. unfold wf_index in *. cbn [wf_columns wf_rows] in *.
  cbn [map]. rewrite !app_nil_r. f_equal. f_equal.
  rewrite (sorted_keys_of_sorted _ Hs), map_map.
  rewrite <- (map_id rows) at 2. apply map_ext_in. intros row Hin.
  pose proof (cells_at_row (mkWideFrame cols rows) row
                (Qclt_sorted_NoDup _ Hs) Hin) as E.
  rewrite E. unfold cells_at. cbn [wf_rows wf_columns find List.length repeat].
  rewrite app_nil_r. destruct row; reflexivity.
Qed.

Lemma pivots_frames self sig fea sen :
  pivots self = Ok (sig, fea, sen) ->
  _convert_single_dataframe (signals self) (Some (selected_signal_tags self)) = Ok sig /\
  _convert_single_dataframe (features self) (Some (selected_feature_tags self)) = Ok fea /\
  _convert_single_dataframe (sensors self) (Some (selected_sensor_tags self)) = Ok sen.
Proof.
  unfold pivots.
  destruct (_convert_single_dataframe (signals self) _) as [sig'|e]; [|discriminate].
  destruct (_convert_single_dataframe (features self) _) as [fea'|e]; [|discriminate].
  destruct (_convert_single_dataframe (sensors self) _) as [sen'|e]; [|discriminate].
  simpl. intros E. injection E as -> -> ->. auto.
Qed.

(** X13.  A stream that is not set is pivoted to the empty frame, and the
    empty frame is neutral for the join.  So when two of the three frames
    are empty (the stream is not set, none of its rows is selected, or
    all its selected tags read zero), the combined table is the frame of
    the third stream, with [acc_mag] derived from it. *)
Theorem lone_stream_is_the_combined_table :
  forall (self : EverionReader) (sig fea sen : WideFrame),
    pivots self = Ok (sig, fea, sen) ->
    (signals self = None -> sig = empty_frame) /\
    (features self = None -> fea = empty_frame) /\
    (sensors self = None -> sen = empty_frame) /\
    (fea = empty_frame -> sen = empty_frame ->
     _join self = (set_data (derive_acc_mag sig) self, Ok tt)) /\
    (sig = empty_frame -> sen = empty_frame ->
     _join self = (set_data (derive_acc_mag fea) self, Ok tt)) /\
    (sig = empty_frame -> fea = empty_frame ->
     _join self = (set_data (derive_acc_mag sen) self, Ok tt)).
Proof.
  intros self sig fea sen Ep.
  destruct (pivots_frames _ _ _ _ Ep) as [E1 [E2 E3]].
  pose proof (_convert_single_dataframe_ok _ _ _ E1) as O1.
  pose proof (_convert_single_dataframe_ok _ _ _ E2) as O2.
  pose proof (_convert_single_dataframe_ok _ _ _ E3) as O3.
  split; [|split; [|split; [|split; [|split]]]].
  - intros H. rewrite H in E1. simpl in E1. congruence.
  - intros H. rewrite H in E2. simpl in E2. congruence.
  - intros H. rewrite H in E3. simpl in E3. congruence.
  - intros -> ->. rewrite _join_pivots, Ep. cbn [join_frames].
    rewrite (join_outer_empty_l _ O1), (join_outer_empty_r _ O1),
      (join_outer_empty_r _ O1). reflexivity.
  - intros -> ->. rewrite _join_pivots, Ep. cbn [join_frames].
    rewrite (join_outer_empty_l _ empty_frame_ok), (join_outer_empty_l _ O2),
      (join_outer_empty_r _ O2). reflexivity.
  - intros -> ->. rewrite _join_pivots, Ep. cbn [join_frames].
    rewrite !(join_outer_empty_l _ empty_frame_ok), (join_outer_empty_l _ O3).
    reflexivity.
Qed.

Lemma lone_stream_is_the_combined_table_witness :
  exists sen,
    _convert_single_dataframe (Some accelerometer_table)
                              (Some Catalog.default_sensor_tags) = Ok sen /\
    _join accelerometer_reader
    = (set_data (derive_acc_mag sen) accelerometer_reader, Ok tt).
Proof.
  destruct (_convert_single_dataframe (Some accelerometer_table)
                                      (Some Catalog.default_sensor_tags))
    as [sen|e] eqn:E; [|vm_compute in E; discriminate E].
  exists sen. split; [reflexivity|].
  assert (Ep : pivots accelerometer_reader = Ok (empty_frame, empty_frame, sen)).
  { unfold pivots. cbn [accelerometer_reader signals features sensors
                         selected_signal_tags selected_feature_tags
                         selected_sensor_tags _convert_single_dataframe bind].
    change (pivot_groups (df_has_quality accelerometer_table) empty_frame
              (groupby_tag (prepared_rows (df_rows accelerometer_table)
                                          (Some Catalog.default_sensor_tags))))
      with (_convert_single_dataframe (Some accelerometer_table)
                                      (Some Catalog.default_sensor_tags)).
    rewrite E. reflexivity. }
  exact (proj2 (proj2 (proj2 (proj2 (proj2
           (lone_stream_is_the_combined_table accelerometer_reader _ _ _ Ep)))))
           eq_refl eq_refl).
Defined.

(** ** Shifting the time more than once *)













(** ** The random shift *)

Lemma round_s_cases (u : Z) :
  exists k, round_s u = k * Zpos ns_per_s /\
            2 * Z.abs (round_s u - u) <= Zpos ns_per_s.
Proof.
  unfold round_s. cbv zeta.
  pose proof (Z.div_mod u (Zpos ns_per_s) ns_per_s_nonzero) as Hdm.
  pose proof (Z.mod_pos_bound u (Zpos ns_per_s) eq_refl) as Hb.
  set (q := u / Zpos ns_per_s) in *. set (r := u mod Zpos ns_per_s) in *.
  unfold ns_per_s in *.
  destruct (2 * r <? 1000000000) eqn:E1.
  - apply Z.ltb_lt in E1. exists q. split; [reflexivity | lia].
  - apply Z.ltb_ge in E1. destruct (1000000000 <? 2 * r) eqn:E2.
    + apply Z.ltb_lt in E2. exists (q + 1). split; [reflexivity | lia].
    + apply Z.ltb_ge in E2. destruct (Z.even q).
      * exists q. split; [reflexivity | lia].
      * exists (q + 1). split; [reflexivity | lia].
Qed.

(** X16.  The random shift.  The duration drawn lies between 30 and 730
    days; rounding it to the second moves it by half a second at most and
    keeps it within these bounds.  So [timeshift('random')] is a shift by a
    whole number of seconds, between 30 and 730 days backwards, and it
    leaves the part of every time stamp below the second as it is. *)
Theorem random_shift_is_whole_seconds_backwards :
  forall (self : EverionReader) (u : Z),
    one_month <= u <= two_years ->
    let D := - round_s u in
    timeshift (Random u) self = timeshift (Timedelta D) self /\
    - two_years <= D <= - one_month /\
    D mod Zpos ns_per_s = 0 /\
    2 * Z.abs (D + u) <= Zpos ns_per_s /\
    (forall t, (t + D) mod Zpos ns_per_s = t mod Zpos ns_per_s).
Proof.
  intros self u Hu D. destruct (round_s_cases u) as [k [Ek Hk]].
  assert (HD : D = (- k) * Zpos ns_per_s) by (unfold D; rewrite Ek; ring).
  split; [reflexivity|]. split; [|split; [|split]].
  - unfold D. unfold one_month, two_years, ns_per_s in *. lia.
  - rewrite HD. apply Z.mod_mul. exact ns_per_s_nonzero.
  - unfold D. replace (- round_s u + u) with (- (round_s u - u)) by ring.
    rewrite Z.abs_opp. exact Hk.
  - intros t. rewrite HD. apply Z.mod_add. exact ns_per_s_nonzero.
Qed.

Lemma random_shift_is_whole_seconds_backwards_witness :
  - two_years <= - round_s (one_month + 1500000000) <= - one_month /\
  (- round_s (one_month + 1500000000)) mod Zpos ns_per_s = 0.
Proof.
  pose proof (random_shift_is_whole_seconds_backwards accelerometer_reader
                (one_month + 1500000000)) as H.
  cbv zeta in H.
  destruct H as [_ [H1 [H2 _]]]; [|split; [exact H1 | exact H2]].
  unfold one_month, two_years, ns_per_s. lia.
Defined.

(** ** Finding and loading the files *)

Lemma filelist_get_set fl k v k' :
  filelist_get (filelist_set fl k v) k'
  = if String.eqb k' k then Some v else filelist_get fl k'.
Proof.
  induction fl as [|[k0 v0] fl IH]; simpl; [reflexivity|].
  destruct (String.eqb_spec k k0) as [<-|Hne]; simpl.
  - destruct (String.eqb k' k); reflexivity.
  - rewrite IH. destruct (String.eqb_spec k' k0) as [->|Hne'];
      [|reflexivity].
    apply String.eqb_neq in Hne. rewrite String.eqb_sym, Hne. reflexivity.
Qed.

Lemma _init_filelist_loop_spec (w : World) (path : string) patterns :
  forall fl,
  exists tr fl',
    _init_filelist_loop w path patterns fl = (tr, Ok fl') /\
    (forall k, filelist_get fl' k =
               if existsb (String.eqb k) patterns then
                 match w_glob w (glob_pattern path k) with
                 | [f] => Some f
                 | _ => filelist_get fl k
                 end
               else filelist_get fl k) /\
    globs_of tr = map (glob_pattern path) patterns /\
    Forall (fun ev => match ev with
                      | Ev_glob _ | Ev_print _ => True
                      | _ => False
                      end) tr.
Proof.
  induction patterns as [|p ps IH]; intros fl.
  - exists [], fl. repeat split; constructor.
  - cbn [_init_filelist_loop]. fold (glob_pattern path p).
    destruct (w_glob w (glob_pattern path p)) as [|f [|f' l]] eqn:Eg.
    + destruct (IH fl) as [tr [fl' [E [Hget [Hgl Hev]]]]].
      unfold io_bind, io_emit. rewrite E. cbn [app].
      eexists. exists fl'. split; [reflexivity|]. split; [|split].
      * intros k. rewrite Hget. cbn [existsb].
        destruct (String.eqb_spec k p) as [->|Hne]; [|reflexivity].
        rewrite Eg. cbn [orb]. destruct (existsb _ ps); reflexivity.
      * unfold globs_of in *. cbn [flat_map app map]. rewrite Hgl. reflexivity.
      * repeat constructor. exact Hev.
    + destruct (IH (filelist_set fl p f)) as [tr [fl' [E [Hget [Hgl Hev]]]]].
      unfold io_bind, io_emit. rewrite E. cbn [app].
      eexists. exists fl'. split; [reflexivity|]. split; [|split].
      * intros k. rewrite Hget, filelist_get_set. cbn [existsb].
        destruct (String.eqb_spec k p) as [->|Hne]; [|reflexivity].
        rewrite Eg. cbn [orb]. destruct (existsb _ ps); reflexivity.
      * unfold globs_of in *. cbn [flat_map app map]. rewrite Hgl. reflexivity.
      * repeat constructor. exact Hev.
    + destruct (IH fl) as [tr [fl' [E [Hget [Hgl Hev]]]]].
      unfold io_bind, io_emit. rewrite E. cbn [app].
      eexists. exists fl'. split; [reflexivity|]. split; [|split].
      * intros k. rewrite Hget. cbn [existsb].
        destruct (String.eqb_spec k p) as [->|Hne]; [|reflexivity].
        rewrite Eg. cbn [orb]. destruct (existsb _ ps); reflexivity.
      * unfold globs_of in *. cbn [flat_map app map]. rewrite Hgl. reflexivity.
      * repeat constructor. exact Hev.
Qed.

Lemma existsb_eqb_In (k : string) (l : list string) :
  existsb (String.eqb k) l = true <-> In k l.
Proof.
  rewrite existsb_exists. split.
  - intros [x [Hin E]]. apply String.eqb_eq in E. subst. exact Hin.
  - intros Hin. exists k. split; [exact Hin | apply String.eqb_refl].
Qed.

Lemma _init_filelist_spec (w : World) (path : string) :
  exists tr fl,
    _init_filelist w path = (tr, Ok fl) /\
    (forall pattern f,
        filelist_get fl pattern = Some f <->
        In pattern file_patterns /\ w_glob w (glob_pattern path pattern) = [f]) /\
    globs_of tr = map (glob_pattern path) file_patterns /\
    Forall (fun ev => match ev with
                      | Ev_glob _ | Ev_print _ => True
                      | _ => False
                      end) tr.
Proof.
  destruct (_init_filelist_loop_spec w path file_patterns [])
    as [tr [fl [E [Hget [Hgl Hev]]]]].
  exists tr, fl. split; [exact E|]. split; [|split; assumption].
  intros pattern f. rewrite Hget. cbn [filelist_get].
  destruct (existsb (String.eqb pattern) file_patterns) eqn:Ein.
  - apply existsb_eqb_In in Ein.
    destruct (w_glob w (glob_pattern path pattern)) as [|f0 [|f1 l]].
    + split; [discriminate | intros [_ H]; discriminate H].
    + split; [intros H; injection H as <-; auto|].
      intros [_ H]. injection H as <-. reflexivity.
    + split; [discriminate | intros [_ H]; discriminate H].
  - split; [discriminate|]. intros [Hin _]. apply existsb_eqb_In in Hin.
    congruence.
Qed.

(** X17.  [_init_filelist] never raises and touches nothing: all it does
    is one [glob] per file pattern, in the order of the patterns, and
    printing.  The file list it builds has an entry for a pattern exactly
    when the [glob] of that pattern found one file and no more, and the
    entry is that file. *)
Theorem filelist_holds_the_unambiguous_files :
  forall (w : World) (path : string),
  exists fl,
    snd (_init_filelist w path) = Ok fl /\
    (forall pattern f,
        filelist_get fl pattern = Some f <->
        In pattern file_patterns /\ w_glob w (glob_pattern path pattern) = [f]) /\
    globs_of (fst (_init_filelist w path))
    = map (glob_pattern path) file_patterns /\
    Forall (fun ev => match ev with
                      | Ev_glob _ | Ev_print _ => True
                      | _ => False
                      end) (fst (_init_filelist w path)).
Proof.
  intros w path.
  destruct (_init_filelist_spec w path) as [tr [fl [E H]]].
  exists fl. rewrite E. split; [reflexivity | exact H].
Qed.

Lemma snd_io_bind_ok {A B : Type} (m : IO A) (k : A -> IO B) (b : B) :
  snd (io_bind m k) = Ok b -> exists a, snd m = Ok a /\ snd (k a) = Ok b.
Proof.
  destruct m as [tr [a|e]]; simpl; [|discriminate].
  destruct (k a) as [tr' r] eqn:E. simpl. intros ->. exists a.
  rewrite E. auto.
Qed.

Lemma _read_file_loaded float_of_string (w : World) fl pattern o :
  snd (_read_file float_of_string w fl pattern) = Ok o ->
  loaded float_of_string w fl pattern o.
Proof.
  unfold _read_file, loaded.
  destruct (filelist_get fl pattern) as [filepath|].
  - unfold io_bind, io_emit, io_lift, io_ret.
    destruct (read_table float_of_string (w_read_csv w filepath)) as [df|e];
      simpl; [|discriminate].
    intros E. injection E as <-. eauto.
  - simpl. intros E. injection E as <-. reflexivity.
Qed.

Lemma init_after_validation_ok float_of_string (w : World) (path : string)
    signal_tags sensor_tags feature_tags self :
  snd (init_after_validation float_of_string w path
         signal_tags sensor_tags feature_tags) = Ok self ->
  exists fl,
    snd (_init_filelist w path) = Ok fl /\
    filelist self = fl /\
    Forall2 (loaded float_of_string w fl) file_patterns (raw_tables self) /\
    selected_signal_tags self = signal_tags /\
    selected_sensor_tags self = sensor_tags /\
    selected_feature_tags self = feature_tags /\
    _join self = (self, Ok tt).
Proof.
  unfold init_after_validation. intros H.
  apply snd_io_bind_ok in H. destruct H as [fl [Hfl H]].
  apply snd_io_bind_ok in H. destruct H as [agg [H1 H]].
  apply snd_io_bind_ok in H. destruct H as [ana [H2 H]].
  apply snd_io_bind_ok in H. destruct H as [att [H3 H]].
  apply snd_io_bind_ok in H. destruct H as [eve [H4 H]].
  apply snd_io_bind_ok in H. destruct H as [fea [H5 H]].
  apply snd_io_bind_ok in H. destruct H as [sen [H6 H]].
  apply snd_io_bind_ok in H. destruct H as [sig [H7 H]].
  apply _read_file_loaded in H1, H2, H3, H4, H5, H6, H7.
  cbv zeta in H.
  set (self0 := mkReader signal_tags feature_tags sensor_tags fl
                         agg ana att eve fea sen sig None) in *.
  pose proof (_join_raw_tables self0) as Hraw.
  assert (Hfix : _join (fst (_join self0)) = _join self0).
  { destruct (is_raise (pivots self0)) eqn:Hp.
    - assert (E : fst (_join self0) = self0).
      { rewrite _join_pivots.
        destruct (pivots self0) as [p|e]; [discriminate Hp | reflexivity]. }
      rewrite E. reflexivity.
    - assert (E : exists x, fst (_join self0) = set_data x self0).
      { rewrite _join_pivots.
        destruct (pivots self0) as [[[s1 s2] s3]|e]; [|discriminate Hp].
        destruct (join_frames empty_frame [s1; s2; s3]) as [j [[]|e]];
          eexists; reflexivity. }
      destruct E as [x ->]. apply _join_set_data. exact Hp. }
  assert (Hsame : selected_signal_tags (fst (_join self0)) = signal_tags /\
                  selected_sensor_tags (fst (_join self0)) = sensor_tags /\
                  selected_feature_tags (fst (_join self0)) = feature_tags /\
                  filelist (fst (_join self0)) = fl).
  { rewrite _join_pivots. destruct (pivots self0) as [[[s1 s2] s3]|e].
    - destruct (join_frames empty_frame [s1; s2; s3]) as [j [[]|e]];
        repeat split; reflexivity.
    - repeat split; reflexivity. }
  destruct (_join self0) as [self' r] eqn:Ej. cbn [fst] in *.
  unfold io_bind, io_lift, io_ret in H. destruct r as [[]|e]; [|discriminate H].
  simpl in H. injection H as <-.
  destruct Hsame as [S1 [S2 [S3 S4]]].
  exists fl. split; [exact Hfl|]. split; [exact S4|]. split.
  - rewrite Hraw. unfold raw_tables, file_patterns. cbn [self0 aggregates
      analytics_events attributes_dailys everion_events features sensors signals].
    repeat constructor; assumption.
  - repeat split; assumption.
Qed.

(** X18.  The reader the constructor returns.  Its tag lists are the ones
    handed in and its file list is the one [_init_filelist] built.  For each
    file pattern, the table of the pattern is not set when the file list
    has no entry for it (no file, or several, matched), and is otherwise
    the table read from the file of the entry.  Its combined table is the
    outcome of [_join] on these tables: running [_join] again changes
    nothing. *)
Theorem constructed_reader_holds_the_files_found :
  forall (float_of_string : string -> option (option Qc)) (w : World)
         (path : string) (signal_tags sensor_tags feature_tags : list Z)
         (self : EverionReader),
    snd (__init__ float_of_string w path signal_tags sensor_tags feature_tags)
    = Ok self ->
    exists fl,
      snd (_init_filelist w path) = Ok fl /\
      filelist self = fl /\
      Forall2 (loaded float_of_string w fl) file_patterns (raw_tables self) /\
      selected_signal_tags self = signal_tags /\
      selected_sensor_tags self = sensor_tags /\
      selected_feature_tags self = feature_tags /\
      _join self = (self, Ok tt).
Proof.
  intros float_of_string w path signal_tags sensor_tags feature_tags self H.
  rewrite __init___eq in H.
  destruct (w_isdir w path); [|discriminate H].
  destruct (bind _ _) as [[]|e]; [|discriminate H].
  cbn [snd] in H. exact (init_after_validation_ok _ _ _ _ _ _ _ H).
Qed.

Lemma constructed_reader_holds_the_files_found_witness :
  exists self fl,
    snd (__init__ sample_float_of_string sample_world "rec" [6] [] [])
    = Ok self /\
    snd (_init_filelist sample_world "rec") = Ok fl /\
    Forall2 (loaded sample_float_of_string sample_world fl)
            file_patterns (raw_tables self) /\
    _join self = (self, Ok tt).
Proof.
  destruct (snd (__init__ sample_float_of_string sample_world "rec" [6] [] []))
    as [self|e] eqn:E; [|vm_compute in E; discriminate E].
  destruct (constructed_reader_holds_the_files_found _ _ _ _ _ _ _ E)
    as [fl [H1 [_ [H2 [_ [_ [_ H3]]]]]]].
  exists self, fl. auto.
Defined.

(** ** What a loaded table holds *)

Lemma all_some_Forall2 {A B : Type} (f : A -> option B) (l : list A) :
  forall vs, all_some (map f l) = Some vs ->
             Forall2 (fun x v => f x = Some v) l vs.
Proof.
  induction l as [|a l IH]; simpl; intros vs E.
  - injection E as <-. constructor.
  - destruct (f a) as [v|] eqn:Ea; [|discriminate].
    destruct (all_some (map f l)) as [vs'|]; [|discriminate].
    simpl in E. injection E as <-. constructor; [exact Ea | apply IH; reflexivity].
Qed.

Lemma all_some_Forall {A B : Type} (f : A -> option B) (l : list A) :
  all_some (map f l) <> None <-> Forall (fun x => f x <> None) l.
Proof.
  induction l as [|a l IH]; simpl.
  - split; [constructor | discriminate].
  - destruct (f a) as [v|] eqn:Ea.
    + destruct (all_some (map f l)) as [vs|]; simpl.
      * split; [|discriminate]. intros _. constructor; [congruence|].
        apply IH. discriminate.
      * split; [intros H; exfalso; apply H; reflexivity|].
        intros H. inversion H as [|? ? _ H']; subst. apply IH in H'.
        exfalso. apply H'. reflexivity.
    + split; [intros H; exfalso; apply H; reflexivity|].
      intros H. inversion H as [|? ? H' _]; subst. congruence.
Qed.

Lemma Forall2_combine_map {A B C : Type} (R : A -> B -> Prop)
    (F : A * B -> C) (l : list A) (vs : list B) :
  Forall2 R l vs ->
  Forall2 (fun x y => exists v, R x v /\ y = F (x, v)) l (map F (combine l vs)).
Proof.
  induction 1 as [|x v l vs Hxv _ IH]; simpl; constructor; eauto.
Qed.

Lemma Forall2_combine2_map {A B B' C : Type} (R : A -> B -> Prop)
    (S : A -> B' -> Prop) (F : A * B * B' -> C) (l : list A) (vs : list B) :
  Forall2 R l vs ->
  forall qs, Forall2 S l qs ->
  Forall2 (fun x y => exists v q, R x v /\ S x q /\ y = F (x, v, q))
          l (map F (combine (combine l vs) qs)).
Proof.
  induction 1 as [|x v l vs Hxv _ IH]; intros qs Hq; inversion Hq; subst; simpl;
    constructor; eauto.
Qed.

Section Loading.
Variable float_of_string : string -> option (option Qc).

Lemma parse_values_spec (df : list CsvRow) :
  (forall e, parse_values float_of_string df = Raise e ->
             e = ValueError_values_shape) /\
  (forall d, parse_values float_of_string df = Ok d ->
             Forall2 (row_read float_of_string (df_has_quality d)) df (df_rows d) /\
             (df_has_quality d = false <->
              Forall (fun c => cell_astype_float float_of_string (c_values c)
                               <> None) df)).
Proof.
  unfold parse_values, column_astype_float. rewrite !map_map.
  pose proof (all_some_Forall
                (fun c => cell_astype_float float_of_string (c_values c)) df) as Hall.
  destruct (all_some (map (fun c => cell_astype_float float_of_string (c_values c)) df))
    as [vs|] eqn:Ev.
  - split; [discriminate|]. intros d E. injection E as <-.
    cbn [df_rows df_has_quality]. split.
    + apply all_some_Forall2 in Ev.
      eapply Forall2_impl; [|apply (Forall2_combine_map _ _ _ _ Ev)].
      intros c r [v [Hv ->]]. unfold row_read, raw_row, to_datetime_s. simpl.
      repeat split; try reflexivity. exact Hv.
    + split; [|reflexivity]. intros _. apply Hall. discriminate.
  - destruct (all_some (map (fun c => part_astype_float float_of_string
                                        (cell_split (c_values c)) 0) df))
      as [vs|] eqn:E0; [|split; [intros e E; congruence | discriminate]].
    destruct (all_some (map (fun c => part_astype_float float_of_string
                                        (cell_split (c_values c)) 1) df))
      as [qs|] eqn:E1; [|split; [intros e E; congruence | discriminate]].
    destruct (Nat.eqb _ 2); [|split; [intros e E; congruence | discriminate]].
    split; [discriminate|]. intros d E. injection E as <-.
    cbn [df_rows df_has_quality]. split.
    + apply all_some_Forall2 in E0, E1.
      eapply Forall2_impl; [|apply (Forall2_combine2_map _ _ _ _ _ E0 _ E1)].
      intros c r [v [q [Hv [Hq ->]]]]. unfold row_read, raw_row, to_datetime_s.
      simpl. repeat split; try reflexivity; assumption.
    + split; [discriminate|]. intros H. apply Hall in H. congruence.
Qed.

End Loading.

(** X19.  Loading a table.  [read_table] fails with the [ValueError] of
    the conversion to float and with nothing else.  When it returns, the
    table has one row per distinct record of the file, in the order of the
    file; each row carries the tag, count and stream type of its record and
    a time of whole seconds.  The table has no quality column exactly when
    every cell of [values] converts to a float by itself; the values are
    then these floats.  Otherwise value and quality are the floats of the
    two parts of the cell. *)
Theorem loaded_table_mirrors_the_file :
  forall (float_of_string : string -> option (option Qc)) (table : list CsvRow),
    let records := drop_duplicates CsvRow_eq_dec table in
    (forall e, read_table float_of_string table = Raise e ->
               e = ValueError_values_shape) /\
    (forall df, read_table float_of_string table = Ok df ->
                Forall2 (row_read float_of_string (df_has_quality df))
                        records (df_rows df) /\
                (df_has_quality df = false <->
                 Forall (fun c => cell_astype_float float_of_string (c_values c)
                                  <> None) records)).
Proof.
  intros float_of_string table records. unfold read_table.
  exact (parse_values_spec float_of_string records).
Qed.

(** ** Persisting a table without quality column *)









(** ** Writing *)

Lemma raw_dataframes_cons (o : option DataFrame) (l : list (option DataFrame)) :
  flat_map (fun o => match o with Some df => [df] | None => [] end) (o :: l)
  = match o with Some df => [df] | None => [] end
    ++ flat_map (fun o => match o with Some df => [df] | None => [] end) l.
Proof. reflexivity. Qed.


(** ** The order of the checks of the constructor *)

Lemma check_tags_first catalog err pre t post :
  Forall (fun x => Catalog.mem x catalog = true) pre ->
  Catalog.mem t catalog = false ->
  check_tags catalog err (pre ++ t :: post) = Raise (err t).
Proof.
  intros Hpre Ht. induction Hpre as [|x pre Hx _ IH]; simpl.
  - rewrite Ht. reflexivity.
  - rewrite Hx. exact IH.
Qed.

Lemma check_tags_pass catalog err tags :
  Forall (fun x => Catalog.mem x catalog = true) tags ->
  check_tags catalog err tags = Ok tt.
Proof.
  intros H. apply check_tags_ok. apply forallb_forall.
  rewrite Forall_forall in H. exact H.
Qed.

(** X22.  The order of the checks of the constructor.  A path that is no
    directory gives [OSError], whatever the tags.  Otherwise the signal
    tags are checked first, then the feature tags, then the sensor tags,
    each list from its head: the [KeyError] raised names the first tag, in
    this order, that is not in the catalog of its kind. *)
Theorem constructor_reports_the_first_offender :
  forall (float_of_string : string -> option (option Qc)) (w : World)
         (path : string) (signal_tags sensor_tags feature_tags : list Z),
    let outcome :=
      snd (__init__ float_of_string w path signal_tags sensor_tags feature_tags) in
    let within catalog := Forall (fun x => Catalog.mem x catalog = true) in
    (w_isdir w path = false -> outcome = Raise OSError) /\
    (w_isdir w path = true ->
     (forall pre t post,
         signal_tags = pre ++ t :: post ->
         within Catalog.SIGNAL_TAGS pre ->
         Catalog.mem t Catalog.SIGNAL_TAGS = false ->
         outcome = Raise (KeyError_signal_tag t)) /\
     (within Catalog.SIGNAL_TAGS signal_tags ->
      forall pre t post,
        feature_tags = pre ++ t :: post ->
        within Catalog.FEATURE_TAGS pre ->
        Catalog.mem t Catalog.FEATURE_TAGS = false ->
        outcome = Raise (KeyError_feature_tag t)) /\
     (within Catalog.SIGNAL_TAGS signal_tags ->
      within Catalog.FEATURE_TAGS feature_tags ->
      forall pre t post,
        sensor_tags = pre ++ t :: post ->
        within Catalog.SENSOR_TAGS pre ->
        Catalog.mem t Catalog.SENSOR_TAGS = false ->
        outcome = Raise (KeyError_sensor_tag t))).
Proof.
  intros float_of_string w path signal_tags sensor_tags feature_tags
         outcome within.
  unfold outcome. rewrite __init___eq. split.
  - intros ->. reflexivity.
  - intros ->. split; [|split].
    + intros pre t post -> Hpre Ht.
      rewrite (check_tags_first _ KeyError_signal_tag pre t post Hpre Ht).
      reflexivity.
    + intros Hsig pre t post -> Hpre Ht.
      rewrite (check_tags_pass _ KeyError_signal_tag _ Hsig).
      cbn [bind].
      rewrite (check_tags_first _ KeyError_feature_tag pre t post Hpre Ht).
      reflexivity.
    + intros Hsig Hfea pre t post -> Hpre Ht.
      rewrite (check_tags_pass _ KeyError_signal_tag _ Hsig).
      rewrite (check_tags_pass _ KeyError_feature_tag _ Hfea).
      cbn [bind].
      rewrite (check_tags_first _ KeyError_sensor_tag pre t post Hpre Ht).
      reflexivity.
Qed.

(** ** The combined table as an outer join *)

Lemma cells_at_absent (f : WideFrame) (t : Qc) :
  ~ In t (wf_index f) ->
  cells_at f t = repeat None (List.length (wf_columns f)).
Proof.
  intros H. unfold cells_at. rewrite (find_none_index f t H). reflexivity.
Qed.

Lemma join_frames_three (sig fea sen f : WideFrame) :
  join_frames empty_frame [sig; fea; sen] = (f, Ok tt) ->
  wf_columns f = wf_columns sig ++ wf_columns fea ++ wf_columns sen /\
  (forall t, In t (wf_index f) <->
             In t (wf_index sig) \/ In t (wf_index fea) \/ In t (wf_index sen)) /\
  (forall t, cells_at f t = cells_at sig t ++ cells_at fea t ++ cells_at sen t).
Proof.
  cbn [join_frames].
  destruct (join_outer empty_frame sig) as [j1|e] eqn:J1; [|discriminate].
  destruct (join_outer j1 fea) as [j2|e] eqn:J2; [|discriminate].
  destruct (join_outer j2 sen) as [j3|e] eqn:J3; [|discriminate].
  intros E. injection E as <-. split; [|split].
  - rewrite (join_outer_columns _ _ _ J3), (join_outer_columns _ _ _ J2),
      (join_outer_columns _ _ _ J1). simpl. rewrite app_assoc. reflexivity.
  - intros t.
    rewrite (join_outer_index _ _ _ J3), In_sorted_keys by exact Qc_total_cmp.
    rewrite in_app_iff.
    rewrite (join_outer_index _ _ _ J2), In_sorted_keys by exact Qc_total_cmp.
    rewrite in_app_iff.
    rewrite (join_outer_index _ _ _ J1), In_sorted_keys by exact Qc_total_cmp.
    simpl. tauto.
  - intros t.
    rewrite (cells_at_join _ _ _ J3), (cells_at_join _ _ _ J2),
      (cells_at_join _ _ _ J1).
    unfold cells_at at 1. simpl. rewrite app_assoc. reflexivity.
Qed.

(** X23.  The combined table is the outer join of the frames of the three
    streams.  After a [_join] that returns, its columns are those of the
    signals, then of the features, then of the sensors; its index holds
    exactly the times that occur in one of the three frames; and the row of
    a time is made of the rows the three frames have for that time, a frame
    without a row for it contributing missing values. *)
Theorem combined_table_is_the_outer_join :
  forall (self : EverionReader) (sig fea sen : WideFrame) (x : Data),
    pivots self = Ok (sig, fea, sen) ->
    snd (_join self) = Ok tt ->
    data (fst (_join self)) = Some x ->
    wf_columns (d_frame x)
    = wf_columns sig ++ wf_columns fea ++ wf_columns sen /\
    (forall t, In t (wf_index (d_frame x)) <->
               In t (wf_index sig) \/ In t (wf_index fea) \/ In t (wf_index sen)) /\
    (forall t, cells_at (d_frame x) t
               = cells_at sig t ++ cells_at fea t ++ cells_at sen t) /\
    (forall f t, In f [sig; fea; sen] -> ~ In t (wf_index f) ->
                 cells_at f t = repeat None (List.length (wf_columns f))).
Proof.
  intros self sig fea sen x Ep. rewrite _join_pivots, Ep.
  destruct (join_frames empty_frame [sig; fea; sen]) as [f [[]|e]] eqn:Ej;
    [|discriminate].
  intros _ E. cbn [fst set_data data] in E. injection E as <-.
  rewrite derive_acc_mag_frame.
  destruct (join_frames_three _ _ _ _ Ej) as [C [I R]].
  split; [exact C|]. split; [exact I|]. split; [exact R|].
  intros f' t _ Ht. apply cells_at_absent. exact Ht.
Qed.

Lemma combined_table_is_the_outer_join_witness :
  exists sig x,
    pivots heart_rate_reader = Ok (sig, empty_frame, empty_frame) /\
    data (fst (_join heart_rate_reader)) = Some x /\
    wf_columns (d_frame x) = wf_columns sig ++ [] ++ [].
Proof.
  assert (Ep : exists sig, pivots heart_rate_reader
                           = Ok (sig, empty_frame, empty_frame)).
  { eexists. vm_compute. reflexivity. }
  destruct Ep as [sig Ep].
  assert (Ej : snd (_join heart_rate_reader) = Ok tt).
  { destruct (pivots_frames _ _ _ _ Ep) as [E1 _].
    pose proof (_convert_single_dataframe_ok _ _ _ E1) as O1.
    rewrite _join_pivots, Ep. cbn [join_frames].
    rewrite (join_outer_empty_l _ O1), (join_outer_empty_r _ O1),
      (join_outer_empty_r _ O1). reflexivity. }
  assert (Ed : exists x, data (fst (_join heart_rate_reader)) = Some x).
  { rewrite _join_pivots, Ep.
    destruct (join_frames empty_frame [sig; empty_frame; empty_frame])
      as [f [[]|e]]; eexists; reflexivity. }
  destruct Ed as [x Ed]. exists sig, x.
  split; [exact Ep|]. split; [exact Ed|].
  exact (proj1 (combined_table_is_the_outer_join heart_rate_reader
                  sig empty_frame empty_frame x Ep Ej Ed)).
Defined.

(** ** Tags whose names cannot clash *)

Lemma sub_frame_columns_named has_quality tag tag_name group_df c :
  In c (wf_columns (dropna_columns
          (sub_frame has_quality tag_name (quality_name_of tag tag_name) group_df))) ->
  c = tag_name \/ c = quality_name_of tag tag_name.
Proof.
  rewrite sub_frame_dropna_columns, in_app_iff.
  destruct (complete_values group_df), (has_quality && complete_quality group_df);
    simpl; intuition.
Qed.

Lemma tag_columns_of_tag has_quality tag group_df c :
  In c (tag_columns has_quality tag group_df) -> In c (names_of_tag tag).
Proof.
  intros H. apply tag_columns_names in H. destruct H as [name [En H]].
  unfold names_of_tag. rewrite En.
  destruct H as [->| ->]; [left | right; left]; reflexivity.
Qed.

Lemma pivot_tag_no_overlap has_quality new_df tag group_df :
  (forall c, In c (wf_columns new_df) -> ~ In c (names_of_tag tag)) ->
  pivot_tag has_quality new_df tag group_df <> Raise ValueError_columns_overlap.
Proof.
  intros Hapart. rewrite pivot_tag_eq. unfold names_of_tag in Hapart.
  destruct (Catalog._tag_name tag) as [tag_name|e] eqn:En.
  - cbv zeta. destruct group_df as [|r g]; [discriminate|].
    cbv iota. generalize (r :: g). intros g'.
    destruct (negb _); [discriminate|].
    destruct (all_zero _); [discriminate|].
    destruct (is_unique _); [|discriminate].
    unfold join_outer.
    rewrite (proj2 (columns_overlap_false _ _)); [discriminate|].
    intros c Hc Hc'. apply (Hapart c Hc).
    change (wf_columns (sort_index ?f)) with (wf_columns f) in Hc'.
    apply sub_frame_columns_named in Hc'.
    destruct Hc' as [->| ->]; [left | right; left]; reflexivity.
  - apply _tag_name_raise in En. subst e. discriminate.
Qed.

Lemma pivot_groups_no_overlap has_quality groups :
  forall new_df,
    (forall c tag group_df,
        In c (wf_columns new_df) -> In (tag, group_df) groups ->
        ~ In c (names_of_tag tag)) ->
    NoDup (map fst groups) ->
    (forall t1 t2 c,
        In t1 (map fst groups) -> In t2 (map fst groups) -> t1 <> t2 ->
        In c (names_of_tag t1) -> ~ In c (names_of_tag t2)) ->
    pivot_groups has_quality new_df groups <> Raise ValueError_columns_overlap.
Proof.
  induction groups as [|[tag g] groups IH]; intros new_df Hacc Hnd Hfree;
    simpl; [discriminate|].
  destruct (pivot_tag has_quality new_df tag g) as [new_df'|e] eqn:Ep; simpl.
  - inversion Hnd as [|? ? Htag Hnd']; subst.
    destruct (pivot_tag_columns _ _ _ _ _ Ep) as [C _].
    apply IH; [| exact Hnd' |].
    + intros c tag' g' Hc Hin. rewrite C in Hc. apply in_app_or in Hc.
      destruct Hc as [Hc|Hc].
      * apply (Hacc c tag' g' Hc). right. exact Hin.
      * apply tag_columns_of_tag in Hc.
        apply (Hfree tag tag' c); [left; reflexivity | | | exact Hc].
        -- right. apply in_map_iff. exists (tag', g'). auto.
        -- intros ->. apply Htag. apply in_map_iff. exists (tag', g'). auto.
    + intros t1 t2 c H1 H2. apply Hfree; right; assumption.
  - intros E. injection E as ->.
    apply (pivot_tag_no_overlap has_quality new_df tag g); [|exact Ep].
    intros c Hc. apply (Hacc c tag g Hc). left. reflexivity.
Qed.

Lemma clash_free_apart (tags : list Z) :
  clash_free tags = true ->
  forall t1 t2 c, In t1 tags -> In t2 tags -> t1 <> t2 ->
                  In c (names_of_tag t1) -> ~ In c (names_of_tag t2).
Proof.
  unfold clash_free. intros H t1 t2 c H1 H2 Hne C1 C2.
  rewrite forallb_forall in H. specialize (H t1 H1).
  rewrite forallb_forall in H. specialize (H t2 H2).
  apply orb_true_iff in H. destruct H as [H|H].
  - apply Z.eqb_eq in H. contradiction.
  - apply negb_true_iff in H.
    assert (E : existsb (fun c => existsb (String.eqb c) (names_of_tag t2))
                        (names_of_tag t1) = true).
    { apply existsb_exists. exists c. split; [exact C1|].
      apply existsb_exists. exists c. split; [exact C2 | apply String.eqb_refl]. }
    congruence.
Qed.

Lemma convert_no_overlap (df : option DataFrame) (tags : list Z) :
  clash_free tags = true ->
  _convert_single_dataframe df (Some tags) <> Raise ValueError_columns_overlap.
Proof.
  intros Hfree. destruct df as [df|]; [|discriminate].
  unfold _convert_single_dataframe.
  assert (Hsel : forall t, In t (map fst (groupby_tag
                                (prepared_rows (df_rows df) (Some tags)))) ->
                           In t tags).
  { intros t Ht. apply in_map_iff in Ht. destruct Ht as [[t' g] [<- Hin]].
    apply group_tag_selected in Hin. apply Hin. }
  apply pivot_groups_no_overlap.
  - intros c tag g [].
  - rewrite groupby_tag_keys. apply sorted_keys_NoDup. exact Z_total_cmp.
  - intros t1 t2 c H1 H2. apply (clash_free_apart tags Hfree); auto.
Qed.

Lemma _join_no_overlap (self : EverionReader) :
  clash_free (selected_signal_tags self) = true ->
  clash_free (selected_feature_tags self) = true ->
  clash_free (selected_sensor_tags self) = true ->
  Forall (fun t => Catalog.mem t Catalog.SIGNAL_TAGS = true)
         (selected_signal_tags self) ->
  Forall (fun t => Catalog.mem t Catalog.FEATURE_TAGS = true)
         (selected_feature_tags self) ->
  Forall (fun t => Catalog.mem t Catalog.SENSOR_TAGS = true)
         (selected_sensor_tags self) ->
  snd (_join self) <> Raise ValueError_columns_overlap.
Proof.
  intros F1 F2 F3 V1 V2 V3. rewrite (validated_join_outcome self V1 V2 V3).
  unfold pivots.
  pose proof (convert_no_overlap (signals self) _ F1) as N1.
  pose proof (convert_no_overlap (features self) _ F2) as N2.
  pose proof (convert_no_overlap (sensors self) _ F3) as N3.
  destruct (_convert_single_dataframe (signals self) _) as [sig|e]; simpl;
    [|congruence].
  destruct (_convert_single_dataframe (features self) _) as [fea|e]; simpl;
    [|congruence].
  destruct (_convert_single_dataframe (sensors self) _) as [sen|e]; simpl;
    [discriminate | congruence].
Qed.

(** X24.  Tags whose names cannot clash.  When no two of the selected tags
    can leave a column of the same name, the join of line 185 never
    refuses a tag: the pivot of the stream does not raise the [ValueError]
    of overlapping columns.  With such tags in each list, all within the
    catalog of their kind, [_join] does not raise it either.  The default
    tag lists of the class are of this kind. *)
Theorem clash_free_tags_never_fail_a_join :
  forall (self : EverionReader),
    clash_free (selected_signal_tags self) = true ->
    clash_free (selected_feature_tags self) = true ->
    clash_free (selected_sensor_tags self) = true ->
    (forall df tags,
        In tags [selected_signal_tags self; selected_feature_tags self;
                 selected_sensor_tags self] ->
        _convert_single_dataframe df (Some tags)
        <> Raise ValueError_columns_overlap) /\
    (Forall (fun t => Catalog.mem t Catalog.SIGNAL_TAGS = true)
            (selected_signal_tags self) ->
     Forall (fun t => Catalog.mem t Catalog.FEATURE_TAGS = true)
            (selected_feature_tags self) ->
     Forall (fun t => Catalog.mem t Catalog.SENSOR_TAGS = true)
            (selected_sensor_tags self) ->
     snd (_join self) <> Raise ValueError_columns_overlap).
Proof.
  intros self F1 F2 F3. split.
  - intros df tags [<-|[<-|[<-|[]]]]; apply convert_no_overlap; assumption.
  - intros V1 V2 V3. apply _join_no_overlap; assumption.
Qed.

Lemma clash_free_tags_never_fail_a_join_witness :
  snd (_join accelerometer_reader) <> Raise ValueError_columns_overlap.
Proof.
  apply (clash_free_tags_never_fail_a_join accelerometer_reader);
    try (vm_compute; reflexivity); repeat constructor.
Defined.

(** ** Anchoring tables that start together *)




(** ** The quality column of the inter-pulse interval *)

Lemma _tag_name_In tag name :
  Catalog._tag_name tag = Ok name ->
  In (tag, name) (Catalog.SIGNAL_TAGS ++ Catalog.SENSOR_TAGS ++ Catalog.FEATURE_TAGS).
Proof.
  unfold Catalog._tag_name. rewrite !in_app_iff.
  destruct (Catalog.get Catalog.SIGNAL_TAGS tag) as [n|] eqn:E1.
  - intros E. injection E as <-. left. apply get_In. exact E1.
  - destruct (Catalog.get Catalog.SENSOR_TAGS tag) as [n|] eqn:E2.
    + intros E. injection E as <-. right. left. apply get_In. exact E2.
    + destruct (Catalog.get Catalog.FEATURE_TAGS tag) as [n|] eqn:E3;
        [|discriminate].
      intros E. injection E as <-. right. right. apply get_In. exact E3.
Qed.

Lemma no_interval_quality_name tag name :
  Catalog._tag_name tag = Ok name ->
  name <> "inter_pulse_interval_quality"%string /\
  quality_name_of tag name <> "inter_pulse_interval_quality"%string.
Proof.
  intros H. apply _tag_name_In in H.
  assert (Hall : forallb (fun kv =>
                   negb (String.eqb (snd kv) "inter_pulse_interval_quality")
                   && negb (String.eqb (quality_name_of (fst kv) (snd kv))
                                       "inter_pulse_interval_quality"))
                   (Catalog.SIGNAL_TAGS ++ Catalog.SENSOR_TAGS
                    ++ Catalog.FEATURE_TAGS) = true)
    by (vm_compute; reflexivity).
  rewrite forallb_forall in Hall. specialize (Hall _ H). cbn [fst snd] in Hall.
  apply andb_true_iff in Hall. destruct Hall as [H1 H2].
  apply negb_true_iff in H1, H2. apply String.eqb_neq in H1, H2. auto.
Qed.

(** X26.  The quality column of the inter-pulse interval.  Tag 14 is the
    one tag whose quality column is not named with the suffix [_quality]:
    when its rows are pivoted from a table with a complete quality column,
    the frame has the column [inter_pulse_interval_deviation], filled with
    the qualities of the rows, and no tag whatever gives the frame a column
    [inter_pulse_interval_quality]. *)
Theorem interval_quality_is_named_deviation :
  forall (df : DataFrame) (selected_tags : option (list Z)) (f : WideFrame)
         (group_df : list (Row Qc)),
    _convert_single_dataframe (Some df) selected_tags = Ok f ->
    In (14, group_df) (groupby_tag (prepared_rows (df_rows df) selected_tags)) ->
    all_zero (map r_values group_df) = false ->
    df_has_quality df = true ->
    complete_quality group_df = true ->
    In "inter_pulse_interval"%string (wf_columns f) /\
    In "inter_pulse_interval_deviation"%string (wf_columns f) /\
    ~ In "inter_pulse_interval_quality"%string (wf_columns f) /\
    (forall r, In r group_df ->
               frame_cell f (r_time r) "inter_pulse_interval_deviation"
               = Some (r_quality r)).
Proof.
  intros df selected_tags f group_df E Hin Hz Hq Hcq.
  destruct (convert_columns_and_index df selected_tags f E) as [C _].
  assert (Hcols : tag_columns (df_has_quality df) 14 group_df
                  = ["inter_pulse_interval"; "inter_pulse_interval_deviation"]%string).
  { unfold tag_columns. rewrite Hz, Hq, Hcq. reflexivity. }
  assert (Hsub : forall c, In c (tag_columns (df_has_quality df) 14 group_df) ->
                           In c (wf_columns f)).
  { intros c Hc. rewrite C. apply in_flat_map. exists (14, group_df).
    split; [exact Hin | exact Hc]. }
  split; [|split; [|split]].
  - apply Hsub. rewrite Hcols. left. reflexivity.
  - apply Hsub. rewrite Hcols. right. left. reflexivity.
  - rewrite C. intros Hc. apply in_flat_map in Hc.
    destruct Hc as [[tag g] [_ Hc]]. cbn [fst snd] in Hc.
    apply tag_columns_names in Hc. destruct Hc as [name [En Hc]].
    destruct (no_interval_quality_name tag name En) as [N1 N2].
    destruct Hc as [Hc|Hc]; congruence.
  - unfold _convert_single_dataframe in E.
    destruct (pivot_groups_cells _ _ _ _ empty_frame_ok E) as [_ H].
    destruct (H 14 group_df "inter_pulse_interval"%string Hin eq_refl Hz)
      as [Hnd Hcells].
    intros r Hr.
    change "inter_pulse_interval_deviation"%string
      with (quality_name_of 14 "inter_pulse_interval").
    rewrite (proj2 (Hcells (r_time r)) Hq Hcq). f_equal.
    apply reading_at_row; assumption.
Qed.

Lemma interval_quality_is_named_deviation_witness :
  exists f,
    _convert_single_dataframe (Some interval_table) (Some [14]) = Ok f /\
    In "inter_pulse_interval_deviation"%string (wf_columns f) /\
    ~ In "inter_pulse_interval_quality"%string (wf_columns f).
Proof.
  destruct (_convert_single_dataframe (Some interval_table) (Some [14]))
    as [f|e] eqn:E; [|vm_compute in E; discriminate E].
  exists f. split; [reflexivity|].
  destruct (interval_quality_is_named_deviation interval_table (Some [14]) f
              (prepared_rows (df_rows interval_table) (Some [14])) E)
    as [_ [H1 [H2 _]]].
  - left. reflexivity.
  - vm_compute. reflexivity.
  - reflexivity.
  - vm_compute. reflexivity.
  - split; assumption.
Defined.

(** ** The order of the records *)

Lemma Permutation_filter_same {A : Type} (p : A -> bool) (l l' : list A) :
  Permutation l l' -> Permutation (filter p l) (filter p l').
Proof.
  induction 1 as [|x l l' _ IH|x y l|l l' l'' _ IH1 _ IH2]; simpl.
  - constructor.
  - destruct (p x); [constructor|]; exact IH.
  - destruct (p x), (p y); [apply perm_swap | reflexivity | reflexivity | reflexivity].
  - eapply Permutation_trans; eassumption.
Qed.

Lemma forallb_Permutation {A : Type} (p : A -> bool) (l l' : list A) :
  Permutation l l' -> forallb p l = forallb p l'.
Proof.
  induction 1 as [|x l l' _ IH|x y l|l l' l'' _ IH1 _ IH2]; simpl.
  - reflexivity.
  - rewrite IH. reflexivity.
  - destruct (p x), (p y); reflexivity.
  - congruence.
Qed.

Lemma sorted_same_members {A B : Type} (R : B -> B -> Prop) (key : A -> B) :
  (forall b, ~ R b b) ->
  (forall a b c, R a b -> R b c -> R a c) ->
  forall l l' : list A,
    StronglySorted (fun a b => R (key a) (key b)) l ->
    StronglySorted (fun a b => R (key a) (key b)) l' ->
    (forall x, In x l <-> In x l') -> l = l'.
Proof.
  intros Hirr Htrans. induction l as [|a l IH]; intros l' S S' Hmem.
  - destruct l' as [|b l']; [reflexivity|].
    exfalso. apply (proj2 (Hmem b)). left. reflexivity.
  - destruct l' as [|b l'].
    + exfalso. apply (proj1 (Hmem a)). left. reflexivity.
    + apply StronglySorted_inv in S. destruct S as [S Fa].
      apply StronglySorted_inv in S'. destruct S' as [S' Fb].
      rewrite Forall_forall in Fa, Fb.
      assert (Eab : a = b).
      { destruct (proj1 (Hmem a) (or_introl eq_refl)) as [E|Ha]; [auto|].
        destruct (proj2 (Hmem b) (or_introl eq_refl)) as [E|Hb]; [auto|].
        exfalso. apply (Hirr (key a)).
        exact (Htrans _ _ _ (Fa b Hb) (Fb a Ha)). }
      subst b. f_equal. apply IH; [exact S | exact S'|].
      intros x. split; intros Hx.
      * destruct (proj1 (Hmem x) (or_intror Hx)) as [E|H]; [|exact H].
        subst x. exfalso. exact (Hirr _ (Fa a Hx)).
      * destruct (proj2 (Hmem x) (or_intror Hx)) as [E|H]; [|exact H].
        subst x. exfalso. exact (Hirr _ (Fb a Hx)).
Qed.

Lemma sorted_keys_same_members (l l' : list Z) :
  (forall x, In x l <-> In x l') ->
  sorted_keys Z.compare l = sorted_keys Z.compare l'.
Proof.
  intros H.
  apply (sorted_same_members Z.lt (fun x => x)).
  - apply Z.lt_irrefl.
  - apply Z.lt_trans.
  - exact (sorted_keys_sorted Z.compare Z_total_cmp l).
  - exact (sorted_keys_sorted Z.compare Z_total_cmp l').
  - intros x. rewrite !(In_sorted_keys Z.compare Z_total_cmp). apply H.
Qed.

Lemma Qclt_irrefl (x : Qc) : ~ (x < x)%Qc.
Proof. intros H. exact (Qlt_irrefl _ H). Qed.

Lemma insert_row_sorted row rows :
  StronglySorted (fun a b => (fst a < fst b)%Qc) rows ->
  ~ In (fst row) (map fst rows) ->
  StronglySorted (fun a b => (fst a < fst b)%Qc) (insert_row row rows).
Proof.
  induction 1 as [|r rows S IH F]; simpl; intros Hn.
  - repeat constructor.
  - destruct (Qccompare (fst row) (fst r)) eqn:E.
    + exfalso. apply Hn. left. symmetry.
      apply (cmp_eq _ Qc_total_cmp). exact E.
    + apply Qclt_alt in E. constructor; [constructor; assumption|].
      constructor; [exact E|].
      eapply Forall_impl; [|exact F]. intros b Hb.
      exact (Qclt_trans _ _ _ E Hb).
    + assert (Hlt : (fst r < fst row)%Qc).
      { apply Qclt_alt. rewrite (cmp_opp _ Qc_total_cmp), E. reflexivity. }
      constructor.
      * apply IH. intros Hin. apply Hn. right. exact Hin.
      * apply Forall_forall. intros x Hx. apply In_insert_row in Hx.
        destruct Hx as [->|Hx]; [exact Hlt|].
        rewrite Forall_forall in F. exact (F x Hx).
Qed.

Lemma sort_index_sorted (rows : list (Qc * list (option Qc))) :
  NoDup (map fst rows) ->
  StronglySorted (fun a b => (fst a < fst b)%Qc) (fold_right insert_row [] rows).
Proof.
  induction rows as [|r rows IH]; simpl; intros N; [constructor|].
  inversion N as [|? ? Hn N']; subst. apply insert_row_sorted; [apply IH; exact N'|].
  intros Hin. apply Hn. apply in_map_iff in Hin. destruct Hin as [x [E Hx]].
  apply in_map_iff. exists x. split; [exact E|].
  pose proof (In_sort_index (mkWideFrame [] rows) x) as H. cbn in H.
  apply H. exact Hx.
Qed.

Lemma sort_index_Permutation (cols : list string)
    (rows rows' : list (Qc * list (option Qc))) :
  NoDup (map fst rows) -> Permutation rows rows' ->
  sort_index (mkWideFrame cols rows) = sort_index (mkWideFrame cols rows').
Proof.
  intros N P. unfold sort_index. cbn [wf_columns wf_rows]. f_equal.
  assert (N' : NoDup (map fst rows')).
  { eapply Permutation_NoDup; [|exact N]. apply Permutation_map. exact P. }
  apply (sorted_same_members Qclt fst).
  - exact Qclt_irrefl.
  - exact Qclt_trans.
  - apply sort_index_sorted. exact N.
  - apply sort_index_sorted. exact N'.
  - intros x.
    pose proof (In_sort_index (mkWideFrame cols rows) x) as H1.
    pose proof (In_sort_index (mkWideFrame cols rows') x) as H2.
    cbn in H1, H2. rewrite H1, H2.
    split; intros Hx; [apply (Permutation_in _ P) | apply (Permutation_in _ (Permutation_sym P))];
      exact Hx.
Qed.

Lemma sub_frame_dropna_rows has_quality tag_name quality_name group_df :
  wf_rows (dropna_columns (sub_frame has_quality tag_name quality_name group_df))
  = map (fun r => (r_time r,
                   select (if has_quality
                           then [complete_values group_df;
                                 complete_quality group_df]
                           else [complete_values group_df])
                          (if has_quality then [r_values r; r_quality r]
                           else [r_values r])))
        group_df.
Proof.
  unfold dropna_columns. rewrite sub_frame_notna_mask. unfold sub_frame.
  destruct has_quality; cbn [wf_rows]; rewrite map_map; reflexivity.
Qed.

Lemma frame_eta (f : WideFrame) : f = mkWideFrame (wf_columns f) (wf_rows f).
Proof. destruct f; reflexivity. Qed.

Lemma pivot_tag_Permutation has_quality new_df tag (g g' : list (Row Qc)) :
  Permutation g g' ->
  pivot_tag has_quality new_df tag g = pivot_tag has_quality new_df tag g'.
Proof.
  intros P. rewrite !pivot_tag_eq.
  destruct (Catalog._tag_name tag) as [tag_name|e]; [|reflexivity]. cbv zeta.
  assert (Ecv : complete_values g = complete_values g')
    by (apply forallb_Permutation; exact P).
  assert (Ecq : complete_quality g = complete_quality g')
    by (apply forallb_Permutation; exact P).
  assert (Ez : all_zero (map r_values g) = all_zero (map r_values g')).
  { unfold all_zero. apply forallb_Permutation. apply Permutation_map. exact P. }
  assert (Eu : is_unique (map r_time g) = is_unique (map r_time g')).
  { destruct (is_unique (map r_time g)) eqn:E1, (is_unique (map r_time g')) eqn:E2;
      try reflexivity.
    - apply is_unique_NoDup in E1.
      assert (N : NoDup (map r_time g')).
      { eapply Permutation_NoDup; [|exact E1]. apply Permutation_map. exact P. }
      apply is_unique_NoDup in N. congruence.
    - apply is_unique_NoDup in E2.
      assert (N : NoDup (map r_time g)).
      { eapply Permutation_NoDup; [|exact E2]. apply Permutation_map.
        apply Permutation_sym. exact P. }
      apply is_unique_NoDup in N. congruence. }
  destruct g as [|r g]; destruct g' as [|r' g'].
  - reflexivity.
  - apply Permutation_nil in P. discriminate P.
  - apply Permutation_sym, Permutation_nil in P. discriminate P.
  - cbv iota. revert P Ecv Ecq Ez Eu.
    generalize (r :: g). generalize (r' :: g'). intros l' l P Ecv Ecq Ez Eu.
    rewrite <- Ecv, <- Ez, <- Eu.
    destruct (negb (complete_values l)); [reflexivity|].
    destruct (all_zero (map r_values l)); [reflexivity|].
    destruct (is_unique (map r_time l)) eqn:Hu; [|reflexivity].
    f_equal.
    rewrite (frame_eta (dropna_columns (sub_frame has_quality tag_name _ l))).
    rewrite (frame_eta (dropna_columns (sub_frame has_quality tag_name _ l'))).
    rewrite !sub_frame_dropna_columns, !sub_frame_dropna_rows.
    rewrite <- Ecv, <- Ecq.
    apply sort_index_Permutation.
    + rewrite map_map. cbn [fst]. apply is_unique_NoDup. exact Hu.
    + apply Permutation_map. exact P.
Qed.

Lemma pivot_groups_Permutation has_quality
    (groups groups' : list (Z * list (Row Qc))) :
  Forall2 (fun a b => fst a = fst b /\ Permutation (snd a) (snd b))
          groups groups' ->
  forall new_df,
    pivot_groups has_quality new_df groups
    = pivot_groups has_quality new_df groups'.
Proof.
  induction 1 as [|[tag g] [tag' g'] groups groups' [Et P] _ IH];
    intros new_df; simpl; [reflexivity|].
  cbn [fst snd] in Et, P. subst tag'.
  rewrite (pivot_tag_Permutation has_quality new_df tag g g' P).
  destruct (pivot_tag has_quality new_df tag g') as [new_df'|e]; simpl;
    [apply IH | reflexivity].
Qed.

Lemma groupby_tag_Permutation (l l' : list (Row Qc)) :
  Permutation l l' ->
  Forall2 (fun a b => fst a = fst b /\ Permutation (snd a) (snd b))
          (groupby_tag l) (groupby_tag l').
Proof.
  intros P. unfold groupby_tag.
  rewrite (sorted_keys_same_members (map r_tag l') (map r_tag l)).
  - induction (sorted_keys Z.compare (map r_tag l)) as [|tag keys IH]; simpl;
      constructor; [|exact IH].
    split; [reflexivity|]. cbn [snd]. apply Permutation_filter_same. exact P.
  - intros x. split; apply Permutation_in; apply Permutation_map;
      [apply Permutation_sym|]; exact P.
Qed.

Lemma s_min_Permutation (s s' : list Z) :
  Permutation s s' -> s_min s = s_min s'.
Proof.
  intros P. destruct s as [|x s].
  - apply Permutation_nil in P. subst. reflexivity.
  - symmetry. apply s_min_unique.
    + apply (Permutation_in _ P). apply s_min_spec. discriminate.
    + intros y Hy. apply (Permutation_in _ (Permutation_sym P)) in Hy.
      apply s_min_spec; [discriminate | exact Hy].
Qed.

Lemma s_max_Permutation (s s' : list Z) :
  Permutation s s' -> s_max s = s_max s'.
Proof.
  intros P. destruct s as [|x s].
  - apply Permutation_nil in P. subst. reflexivity.
  - symmetry. apply s_max_unique.
    + apply (Permutation_in _ P). apply s_max_spec. discriminate.
    + intros y Hy. apply (Permutation_in _ (Permutation_sym P)) in Hy.
      apply s_max_spec; [discriminate | exact Hy].
Qed.

Lemma reconstruct_Permutation (df df' : list (Row Z)) :
  Permutation df df' -> Permutation (reconstruct df) (reconstruct df').
Proof.
  intros P. rewrite !reconstruct_eq.
  assert (E : forall r, spread_row df r = spread_row df' r).
  { intros r. unfold spread_row. cbv zeta.
    assert (Pc : Permutation (counts_at df (r_time r)) (counts_at df' (r_time r))).
    { unfold counts_at. apply Permutation_map, Permutation_filter_same. exact P. }
    rewrite (s_min_Permutation _ _ Pc), (s_max_Permutation _ _ Pc). reflexivity. }
  rewrite (map_ext _ _ E). apply Permutation_map. exact P.
Qed.

Lemma selected_rows_Permutation rows rows' selected_tags :
  Permutation rows rows' ->
  Permutation (selected_rows rows selected_tags)
              (selected_rows rows' selected_tags).
Proof.
  intros P.
  assert (Pd : Permutation (drop_duplicates (Row_eq_dec Z.eq_dec) rows)
                           (drop_duplicates (Row_eq_dec Z.eq_dec) rows')).
  { apply NoDup_Permutation; try apply NoDup_drop_duplicates.
    intros x. rewrite !In_drop_duplicates.
    split; apply Permutation_in; [|apply Permutation_sym]; exact P. }
  unfold selected_rows. cbv zeta.
  destruct selected_tags as [tags|]; [|exact Pd].
  apply Permutation_filter_same. exact Pd.
Qed.

(** X27.  The order of the records does not matter.  Two tables that hold
    the same rows in a different order are pivoted to the same frame, or
    fail with the same exception: the reconstruction of the times looks at
    the counts of a second as a set, the tags are taken in ascending order
    and the rows of a tag are sorted by time. *)
Theorem pivot_ignores_the_order_of_the_rows :
  forall (rows rows' : list (Row Z)) (has_quality : bool)
         (selected_tags : option (list Z)),
    Permutation rows rows' ->
    _convert_single_dataframe (Some (mkDataFrame rows has_quality)) selected_tags
    = _convert_single_dataframe (Some (mkDataFrame rows' has_quality)) selected_tags.
Proof.
  intros rows rows' has_quality selected_tags P.
  unfold _convert_single_dataframe. cbn [df_rows df_has_quality].
  apply pivot_groups_Permutation, groupby_tag_Permutation.
  unfold prepared_rows. apply reconstruct_Permutation.
  apply selected_rows_Permutation. exact P.
Qed.

Lemma pivot_ignores_the_order_of_the_rows_witness :
  _convert_single_dataframe (Some (mkDataFrame sample_rows false)) (Some [6; 7])
  = _convert_single_dataframe
      (Some (mkDataFrame (rev sample_rows) false)) (Some [6; 7]).
Proof.
  apply pivot_ignores_the_order_of_the_rows. apply Permutation_rev.
Defined.

(** ** The selection as a set *)

Lemma isin_In tags (r : Row Z) : isin tags r = true <-> In (r_tag r) tags.
Proof.
  unfold isin. rewrite existsb_exists. split.
  - intros [t [Hin E]]. apply Z.eqb_eq in E. congruence.
  - intros Hin. exists (r_tag r). split; [exact Hin | apply Z.eqb_refl].
Qed.

Lemma filter_all {A : Type} (p : A -> bool) (l : list A) :
  (forall x, In x l -> p x = true) -> filter p l = l.
Proof.
  induction l as [|a l IH]; simpl; intros H; [reflexivity|].
  rewrite (H a (or_introl eq_refl)). f_equal. apply IH.
  intros x Hx. apply H. right. exact Hx.
Qed.

(** X28.  The selection counts as a set, and a selection that covers the
    table is no selection.  The pivot of a stream depends on the list of
    selected tags only through the tags that occur in it, whatever their
    order and however often they are repeated; and when every tag of the
    table is selected, the pivot is the one obtained without a selection
    ([selected_tags=None]). *)
Theorem selection_counts_as_a_set :
  forall (df : option DataFrame) (tags : list Z),
    (forall tags',
        (forall t, In t tags <-> In t tags') ->
        _convert_single_dataframe df (Some tags')
        = _convert_single_dataframe df (Some tags)) /\
    (forall d,
        df = Some d ->
        Forall (fun r => In (r_tag r) tags) (df_rows d) ->
        _convert_single_dataframe df (Some tags)
        = _convert_single_dataframe df None).
Proof.
  intros df tags. split.
  - intros tags' H. destruct df as [d|]; [|reflexivity].
    unfold _convert_single_dataframe, prepared_rows, selected_rows. cbv zeta.
    rewrite (filter_ext (isin tags') (isin tags)); [reflexivity|].
    intros r. destruct (isin tags r) eqn:E.
    + apply isin_In. apply H. apply isin_In. exact E.
    + apply not_true_is_false. intros E'. apply isin_In in E'. apply H in E'.
      apply isin_In in E'. congruence.
  - intros d -> Hall.
    unfold _convert_single_dataframe, prepared_rows, selected_rows. cbv zeta.
    rewrite filter_all; [reflexivity|].
    intros r Hr. apply In_drop_duplicates in Hr. apply isin_In.
    rewrite Forall_forall in Hall. exact (Hall r Hr).
Qed.

(** ** The exceptions of the constructor *)

Lemma pivot_tag_error has_quality new_df tag group_df e :
  pivot_tag has_quality new_df tag group_df = Raise e -> pivot_error e = true.
Proof.
  rewrite pivot_tag_eq.
  destruct (Catalog._tag_name tag) as [tag_name|e'] eqn:En.
  - cbv zeta. destruct group_df as [|r g]; [discriminate|].
    cbv iota. generalize (r :: g). intros g'.
    destruct (negb _); [intros E; injection E as <-; reflexivity|].
    destruct (all_zero _); [discriminate|].
    destruct (is_unique _); [|intros E; injection E as <-; reflexivity].
    unfold join_outer. destruct (columns_overlap _ _); [|discriminate].
    intros E. injection E as <-. reflexivity.
  - apply _tag_name_raise in En. subst e'. intros E. injection E as <-.
    reflexivity.
Qed.

Lemma pivot_groups_error has_quality groups e :
  forall new_df,
    pivot_groups has_quality new_df groups = Raise e -> pivot_error e = true.
Proof.
  induction groups as [|[tag g] groups IH]; intros new_df; simpl; [discriminate|].
  destruct (pivot_tag has_quality new_df tag g) as [new_df'|e'] eqn:Ep; simpl.
  - apply IH.
  - intros E. injection E as <-. exact (pivot_tag_error _ _ _ _ _ Ep).
Qed.

Lemma convert_error df selected_tags e :
  _convert_single_dataframe df selected_tags = Raise e -> pivot_error e = true.
Proof.
  destruct df as [df|]; simpl; [apply pivot_groups_error | discriminate].
Qed.

Lemma join_frames_error dataframes e :
  forall acc,
    snd (join_frames acc dataframes) = Raise e -> e = ValueError_columns_overlap.
Proof.
  induction dataframes as [|df rest IH]; intros acc; simpl; [discriminate|].
  destruct (join_outer acc df) as [j|e'] eqn:Ej; [apply IH|].
  simpl. intros E. injection E as <-. unfold join_outer in Ej.
  destruct (columns_overlap acc df); [|discriminate]. congruence.
Qed.

Lemma _join_error (self : EverionReader) e :
  snd (_join self) = Raise e -> pivot_error e = true.
Proof.
  rewrite _join_eq.
  destruct (_convert_single_dataframe (signals self) _) as [sig|e1] eqn:E1;
    [|intros E; injection E as <-; exact (convert_error _ _ _ E1)].
  destruct (_convert_single_dataframe (features self) _) as [fea|e2] eqn:E2;
    [|intros E; injection E as <-; exact (convert_error _ _ _ E2)].
  destruct (_convert_single_dataframe (sensors self) _) as [sen|e3] eqn:E3;
    [|intros E; injection E as <-; exact (convert_error _ _ _ E3)].
  destruct (join_frames empty_frame [sig; fea; sen]) as [f [[]|e']] eqn:Ej;
    [discriminate|].
  intros E. injection E as <-.
  assert (H : snd (join_frames empty_frame [sig; fea; sen]) = Raise e')
    by (rewrite Ej; reflexivity).
  apply join_frames_error in H. subst e'. reflexivity.
Qed.

Lemma convert_known_tags (df : option DataFrame) (tags : list Z) (t : Z) :
  Forall (fun tag => Catalog.mem tag Catalog.SIGNAL_TAGS = true \/
                     Catalog.mem tag Catalog.SENSOR_TAGS = true \/
                     Catalog.mem tag Catalog.FEATURE_TAGS = true) tags ->
  _convert_single_dataframe df (Some tags) <> Raise (KeyError_tag_name t).
Proof.
  intros Hvalid H. destruct df as [df|]; [|discriminate H].
  unfold _convert_single_dataframe in H.
  apply pivot_groups_lookup_error in H. destruct H as [[g Hg] Hn].
  apply group_tag_selected in Hg. destruct Hg as [Hin _].
  rewrite Forall_forall in Hvalid.
  destruct (mem_tag_name t (Hvalid t Hin)) as [name E]. congruence.
Qed.

Lemma _join_known_tags (self : EverionReader) (t : Z) :
  Forall (fun x => Catalog.mem x Catalog.SIGNAL_TAGS = true)
         (selected_signal_tags self) ->
  Forall (fun x => Catalog.mem x Catalog.FEATURE_TAGS = true)
         (selected_feature_tags self) ->
  Forall (fun x => Catalog.mem x Catalog.SENSOR_TAGS = true)
         (selected_sensor_tags self) ->
  snd (_join self) <> Raise (KeyError_tag_name t).
Proof.
  intros V1 V2 V3.
  assert (K1 := convert_known_tags (signals self) (selected_signal_tags self) t).
  assert (K2 := convert_known_tags (features self) (selected_feature_tags self) t).
  assert (K3 := convert_known_tags (sensors self) (selected_sensor_tags self) t).
  rewrite _join_eq.
  destruct (_convert_single_dataframe (signals self) _) as [sig|e1].
  - destruct (_convert_single_dataframe (features self) _) as [fea|e2].
    + destruct (_convert_single_dataframe (sensors self) _) as [sen|e3].
      * destruct (join_frames empty_frame [sig; fea; sen]) as [f [[]|e']] eqn:Ej;
          [discriminate|].
        assert (H : snd (join_frames empty_frame [sig; fea; sen]) = Raise e')
          by (rewrite Ej; reflexivity).
        apply join_frames_error in H. subst e'. discriminate.
      * simpl. intros E. injection E as ->.
        apply K3; [|reflexivity]. eapply Forall_impl; [|exact V3]. intros x Hx. auto.
    + simpl. intros E. injection E as ->.
        apply K2; [|reflexivity]. eapply Forall_impl; [|exact V2]. intros x Hx. auto.
  - simpl. intros E. injection E as ->.
        apply K1; [|reflexivity]. eapply Forall_impl; [|exact V1]. intros x Hx. auto.
Qed.

Lemma snd_io_bind_raise {A B : Type} (m : IO A) (k : A -> IO B) (e : exn) :
  snd (io_bind m k) = Raise e ->
  snd m = Raise e \/ exists a, snd m = Ok a /\ snd (k a) = Raise e.
Proof.
  destruct m as [tr [a|e']]; simpl; [|intros H; injection H as ->; left; reflexivity].
  destruct (k a) as [tr' r] eqn:E. simpl. intros ->. right. exists a.
  rewrite E. auto.
Qed.

Lemma _read_file_raise float_of_string (w : World) fl pattern e :
  snd (_read_file float_of_string w fl pattern) = Raise e ->
  e = ValueError_values_shape.
Proof.
  unfold _read_file. destruct (filelist_get fl pattern) as [filepath|];
    [|discriminate].
  unfold io_bind, io_emit, io_lift, io_ret, read_table.
  destruct (parse_values float_of_string _) as [df|e'] eqn:Ep; simpl;
    [discriminate|].
  intros E. injection E as <-.
  exact (proj1 (parse_values_spec float_of_string _) _ Ep).
Qed.

Lemma init_after_validation_raise float_of_string (w : World) (path : string)
    signal_tags sensor_tags feature_tags e :
  snd (init_after_validation float_of_string w path
         signal_tags sensor_tags feature_tags) = Raise e ->
  e = ValueError_values_shape \/
  exists self,
    selected_signal_tags self = signal_tags /\
    selected_feature_tags self = feature_tags /\
    selected_sensor_tags self = sensor_tags /\
    snd (_join self) = Raise e.
Proof.
  unfold init_after_validation. intros H.
  apply snd_io_bind_raise in H. destruct H as [H|[fl [_ H]]].
  { destruct (_init_filelist_spec w path) as [tr [fl [E _]]].
    rewrite E in H. discriminate H. }
  apply snd_io_bind_raise in H.
  destruct H as [H|[agg [_ H]]]; [left; exact (_read_file_raise _ _ _ _ _ H)|].
  apply snd_io_bind_raise in H.
  destruct H as [H|[ana [_ H]]]; [left; exact (_read_file_raise _ _ _ _ _ H)|].
  apply snd_io_bind_raise in H.
  destruct H as [H|[att [_ H]]]; [left; exact (_read_file_raise _ _ _ _ _ H)|].
  apply snd_io_bind_raise in H.
  destruct H as [H|[eve [_ H]]]; [left; exact (_read_file_raise _ _ _ _ _ H)|].
  apply snd_io_bind_raise in H.
  destruct H as [H|[fea [_ H]]]; [left; exact (_read_file_raise _ _ _ _ _ H)|].
  apply snd_io_bind_raise in H.
  destruct H as [H|[sen [_ H]]]; [left; exact (_read_file_raise _ _ _ _ _ H)|].
  apply snd_io_bind_raise in H.
  destruct H as [H|[sig [_ H]]]; [left; exact (_read_file_raise _ _ _ _ _ H)|].
  cbv zeta in H. right.
  exists (mkReader signal_tags feature_tags sensor_tags fl
                   agg ana att eve fea sen sig None).
  repeat split.
  destruct (_join _) as [self' r]. unfold io_bind, io_lift, io_ret in H.
  destruct r as [[]|e']; simpl in *; [discriminate H|].
  injection H as ->. reflexivity.
Qed.

Lemma all_tags_valid_Forall signal_tags sensor_tags feature_tags :
  all_tags_valid signal_tags sensor_tags feature_tags = true ->
  Forall (fun x => Catalog.mem x Catalog.SIGNAL_TAGS = true) signal_tags /\
  Forall (fun x => Catalog.mem x Catalog.FEATURE_TAGS = true) feature_tags /\
  Forall (fun x => Catalog.mem x Catalog.SENSOR_TAGS = true) sensor_tags.
Proof.
  unfold all_tags_valid. rewrite !andb_true_iff, !forallb_forall, !Forall_forall.
  tauto.
Qed.

(** X29.  The exceptions of the constructor.  It raises [OSError] exactly
    when the path is no directory.  Past the validation it fails only with
    the [ValueError] of a file that cannot be loaded or with an exception of
    a pivot or of the join.  Since the tags have passed the validation by
    then, the lookup of [_tag_name] cannot fail, so the constructor never
    raises the [KeyError] of an unknown tag number; and with tag lists whose
    names cannot clash it never raises the [ValueError] of overlapping
    columns. *)
Theorem constructor_exceptions :
  forall (float_of_string : string -> option (option Qc)) (w : World)
         (path : string) (signal_tags sensor_tags feature_tags : list Z),
    let outcome :=
      snd (__init__ float_of_string w path signal_tags sensor_tags feature_tags) in
    (outcome = Raise OSError <-> w_isdir w path = false) /\
    (forall e, outcome = Raise e ->
               w_isdir w path = true ->
               all_tags_valid signal_tags sensor_tags feature_tags = true ->
               e = ValueError_values_shape \/ pivot_error e = true) /\
    (forall t, outcome <> Raise (KeyError_tag_name t)) /\
    (clash_free signal_tags = true -> clash_free sensor_tags = true ->
     clash_free feature_tags = true ->
     outcome <> Raise ValueError_columns_overlap).
Proof.
  intros float_of_string w path signal_tags sensor_tags feature_tags outcome.
  unfold outcome. rewrite __init___eq.
  pose proof (validation_outcome signal_tags sensor_tags feature_tags) as Hval.
  pose proof (validation_raises signal_tags sensor_tags feature_tags) as Hkind.
  pose proof (init_after_validation_raise float_of_string w path
                signal_tags sensor_tags feature_tags) as Hinit.
  destruct (w_isdir w path).
  - destruct (bind _ _) as [[]|e0] eqn:Ev.
    + clear Hkind Ev. pose proof (proj1 Hval eq_refl) as Ev.
      destruct (all_tags_valid_Forall _ _ _ Ev) as [V1 [V2 V3]].
      cbn [snd].
      assert (Hcases : forall e,
                 snd (init_after_validation float_of_string w path
                        signal_tags sensor_tags feature_tags) = Raise e ->
                 e = ValueError_values_shape \/
                 (pivot_error e = true /\
                  (forall t, e <> KeyError_tag_name t) /\
                  (clash_free signal_tags = true ->
                   clash_free sensor_tags = true ->
                   clash_free feature_tags = true ->
                   e <> ValueError_columns_overlap))).
      { intros e He. destruct (Hinit e He) as [->|[self [S1 [S2 [S3 Hj]]]]];
          [left; reflexivity|].
        right. subst signal_tags feature_tags sensor_tags.
        split; [exact (_join_error _ _ Hj)|]. split.
        - intros t ->. exact (_join_known_tags self t V1 V2 V3 Hj).
        - intros F1 F3 F2 ->.
          exact (_join_no_overlap self F1 F2 F3 V1 V2 V3 Hj). }
      split; [|split; [|split]].
      * split; [|discriminate]. intros H.
        destruct (Hcases _ H) as [E|[E _]]; discriminate E.
      * intros e He _ _. destruct (Hcases _ He) as [E|[E _]]; auto.
      * intros t H. destruct (Hcases _ H) as [E|[_ [E _]]];
          [discriminate E | exact (E t eq_refl)].
      * intros F1 F2 F3 H. destruct (Hcases _ H) as [E|[_ [_ E]]];
          [discriminate E | exact (E F1 F2 F3 eq_refl)].
    + cbn [snd].
      assert (Hv : all_tags_valid signal_tags sensor_tags feature_tags <> true).
      { intros H. apply (proj2 Hval) in H. discriminate H. }
      destruct (Hkind e0 eq_refl) as [[t ->]|[[t ->]|[t ->]]];
        (split; [split; discriminate|]);
        (split; [intros e _ _ H; contradiction|]);
        (split; [discriminate | intros; discriminate]).
  - cbn [snd]. split; [split; reflexivity|].
    split; [intros e _ H; discriminate H|].
    split; [discriminate | intros; discriminate].
Qed.

(** ** What a shift to an anchor does to the combined table *)





